(** * The null.qubit device: zero-result synthesis and resource accounting

    A shallow embedding of [pennylane/devices/null_qubit.py].  The device
    performs no simulation: it returns results of the right shape filled
    with trivial values, and can write a gate histogram of every executed
    circuit to a JSON file.

    Python objects are modelled as follows.
    - Operators form a tagged variant over what the unwrapping loop of
      [_simulate_resource_use] can observe: whether the object has a [base]
      attribute, whether its exact type is [Controlled]/[ControlledOp], and
      whether it is an instance of [Adjoint].
    - A Python [dict] is an association list in insertion order; assignment
      to an existing key updates it in place, assignment to a new key
      appends.
    - Arrays of the array backend carry their interface tag, dtype, shape
      and row-major contents.  Only the literals 0 and 1 ever occur as
      contents, so elements are integers.
    - The clock, the file system and the [lru_cache] of
      [_cached_zero_return] are the components of an explicit world that is
      threaded through the executing functions, together with exceptions. *)

From Stdlib Require Import String Ascii List ZArith NArith PeanoNat Lia Bool.
From Stdlib Require Import DecimalString BinaryString Permutation Sorted.
From Stdlib Require Import DecimalN DecimalPos.
Import ListNotations.

#[local] Open Scope string_scope.
#[local] Open Scope list_scope.

(* ================================================================== *)
(** ** Data model *)

(** Wire labels are numbers or strings. *)
Inductive Wire : Type :=
| WInt (z : Z)
| WStr (s : string).

(** Operators as seen by the unwrapping loop. [Plain] has no [base]
    attribute.  [Controlled] stands for an object whose exact type is
    [Controlled] or [ControlledOp]; [Adjoint] for an instance of [Adjoint].
    [Composite] is any other object exposing a [base] (a named gate such as
    CNOT, or [Pow], [Exp], ...): the loop does not look inside it. *)
Inductive Operator : Type :=
| Plain (name : string)
| Controlled (control_wires : list Wire) (base : Operator)
| Adjoint (base : Operator)
| Composite (name : string) (base : Operator).

(** [op.name].  The loop only ever reads it from a [Plain] or [Composite]
    operator (see [unwrap_terminal]); the names of the two modifier classes
    are those of the operator library. *)
Fixpoint op_name (op : Operator) : string :=
  match op with
  | Plain n => n
  | Composite n _ => n
  | Controlled _ b => ("C(" ++ op_name b ++ ")")%string
  | Adjoint b => ("Adjoint(" ++ op_name b ++ ")")%string
  end.

(** Modelled from the spec: the shot specification of a circuit (class
    [Shots], outside this module): no shots, a single count, or a list of
    partitioned counts with a queryable flag.  The library builds
    partitioned specifications of two counts or more; nothing below relies
    on it. *)
Inductive Shots : Type :=
| NoShots
| SingleShots (n : nat)
| PartitionedShots (l : list nat).

(** [bool(shots)] is true iff a total number of shots is defined. *)
Definition shots_truthy (s : Shots) : bool :=
  match s with
  | NoShots => false
  | _ => true
  end.

Definition has_partitioned_shots (s : Shots) : bool :=
  match s with
  | PartitionedShots _ => true
  | _ => false
  end.

(** Iterating over a [Shots] object yields its counts in order. *)
Definition shots_iter (s : Shots) : list nat :=
  match s with
  | NoShots => []
  | SingleShots n => [n]
  | PartitionedShots l => l
  end.

(** The [shots] argument handed to [zero_measurement]: [None] or an integer
    from [_simulate], the [Shots] object of the circuit from
    [_derivatives]. *)
Inductive ShotsArg : Type :=
| ArgNone
| ArgInt (n : nat)
| ArgShots (s : Shots).

(** An entry of the tuple a [shape] method returns: an integer, or the
    [shots] argument itself when that is the [Shots] object [_derivatives]
    hands over (a sample's shape is [(shots, n)], a classical shadow's
    [(2, shots, n)]). *)
Inductive Dim : Type :=
| DInt (n : nat)
| DShots (s : Shots).

Inductive dtype : Type :=
| dt_int
| dt_float
| dt_complex
| dt_int8.

(** The value of [mp.mv]: absent, a [MeasurementValue], or anything else (a
    sequence of measurement values). *)
Inductive MidMeasure : Type :=
| MvNone
| MvValue
| MvOther.

Definition is_MeasurementValue (mv : MidMeasure) : bool :=
  match mv with
  | MvValue => true
  | _ => false
  end.

(** The measurement classes [zero_measurement] dispatches on.  Every class
    without a registered overload falls in [OtherMP]. *)
Inductive MPKind : Type :=
| ClassicalShadowMP
| CountsMP (all_outcomes : bool)
| DensityMatrixMP
| StateMP
| ProbabilityMP
| OtherMP.

(** A measurement process.  [shape], [numeric_type] and [eigvals] belong to
    the measurement classes, which live outside this module: they are fields
    here.  [mp_shape mp shots n] is [None] when [mp.shape(shots, n)] raises
    its [MeasurementShapeError], as a classical shadow and a sample do
    without shots.  Eigenvalues are sorted and used as dictionary keys,
    which needs their order and equality only; they are integers in this
    model. *)
Record MeasurementProcess : Type := {
  mp_kind : MPKind;
  mp_wires : list Wire;
  mp_obs : option Operator;
  mp_mv : MidMeasure;
  mp_eigvals : list Z;
  mp_shape : ShotsArg -> nat -> option (list Dim);
  mp_numeric_type : dtype
}.

(** A circuit (quantum script). *)
Record Circuit : Type := {
  operations : list Operator;
  measurements : list MeasurementProcess;
  wires : list Wire;
  shots : Shots;
  batch_size : option nat;
  trainable_params : list nat
}.

(* ================================================================== *)
(** ** Resource accounting: [_simulate_resource_use] *)

Definition PyDict (K V : Type) : Type := list (K * V).

(** [d[k] = v] on a dictionary whose keys are compared with [eqb]. *)
Fixpoint dict_set {K V : Type} (eqb : K -> K -> bool) (d : PyDict K V)
    (k : K) (v : V) : PyDict K V :=
  match d with
  | [] => [(k, v)]
  | (k', v') :: t =>
      if eqb k' k then (k', v) :: t else (k', v') :: dict_set eqb t k v
  end.

Fixpoint dict_get {K V : Type} (eqb : K -> K -> bool) (d : PyDict K V)
    (k : K) : option V :=
  match d with
  | [] => None
  | (k', v') :: t => if eqb k' k then Some v' else dict_get eqb t k
  end.

(** [gate_types[name] += 1] on a [defaultdict(int)]. *)
Definition incr (gate_types : PyDict string nat) (name : string)
    : PyDict string nat :=
  match dict_get String.eqb gate_types name with
  | Some v => dict_set String.eqb gate_types name (v + 1)
  | None => dict_set String.eqb gate_types name (0 + 1)
  end.

(** [str(n)] for a non-negative integer. *)
Definition str_of_nat (n : nat) : string :=
  NilZero.string_of_uint (Nat.to_uint n).

Definition str_of_N (n : N) : string :=
  NilZero.string_of_uint (N.to_uint n).

(** The [while hasattr(op, "base")] loop, started with the given values of
    [controls] and [adj]; it returns the operator it stops at with the
    final values of both. *)
Fixpoint unwrap (op : Operator) (controls : nat) (adj : bool)
    : Operator * nat * bool :=
  match op with
  | Plain _ => (op, controls, adj)
  | Controlled cw b => unwrap b (controls + length cw) adj
  | Adjoint b => unwrap b controls (negb adj)
  | Composite _ _ => (op, controls, adj)
  end.

(** The name composed after the loop. *)
Definition compose_name (name : string) (controls : nat) (adj : bool)
    : string :=
  let name := if adj then ("Adj(" ++ name ++ ")")%string else name in
  if (0 <? controls)%nat
  then ((if (1 <? controls)%nat then str_of_nat controls else "")
          ++ "C(" ++ name ++ ")")%string
  else name.

(** One iteration of [for op in circuit.operations]. *)
Definition account_op (gate_types : PyDict string nat) (op : Operator)
    : PyDict string nat :=
  let '(op', controls, adj) := unwrap op 0 false in
  if String.eqb (op_name op') "Barrier"
  then gate_types
  else incr gate_types (compose_name (op_name op') controls adj).

(** [sum(gate_types.values())] *)
Definition sum_values (d : PyDict string nat) : nat :=
  fold_left Nat.add (map snd d) 0.

(** The object handed to [json.dump]. *)
Record ResourceReport : Type := {
  num_wires : nat;
  num_gates : nat;
  gate_types : PyDict string nat
}.

Definition _simulate_resource_use (circuit : Circuit) : ResourceReport :=
  let gt := fold_left account_op (operations circuit) [] in
  {| num_wires := length (wires circuit);
     num_gates := sum_values gt;
     gate_types := gt |}.

(* ================================================================== *)
(** ** Arrays and results *)

(** Modelled from the spec: the array backend ([pennylane.math], outside
    this module) "produces zero-filled arrays of requested shape/dtype and
    scalar/array wrapping of plain numbers".  An array records the
    interface it was built for, its dtype, its shape and its contents in
    row-major order. *)
Record ndarray : Type := {
  arr_like : string;
  arr_dtype : dtype;
  arr_shape : list nat;
  arr_data : list Z
}.

Definition prod_shape (shape : list nat) : nat := fold_right Nat.mul 1 shape.

(** [math.zeros(shape, like=interface, dtype=dtype)] for a tuple of
    integers. *)
Definition math_zeros (shape : list nat) (like : string) (dt : dtype)
    : ndarray :=
  {| arr_like := like; arr_dtype := dt; arr_shape := shape;
     arr_data := repeat 0%Z (prod_shape shape) |}.

(** The integers of a shape tuple, when all its entries are integers. *)
Fixpoint int_shape (shape : list Dim) : option (list nat) :=
  match shape with
  | [] => Some []
  | DInt n :: t =>
      match int_shape t with
      | Some s => Some (n :: s)
      | None => None
      end
  | DShots _ :: _ => None
  end.

(** [math.asarray(x, like=interface)] for a float [x]. *)
Definition math_asarray_float (x : Z) (like : string) : ndarray :=
  {| arr_like := like; arr_dtype := dt_float; arr_shape := [];
     arr_data := [x] |}.

(** [math.asarray(l, like=interface)] for a list of floats. *)
Definition math_asarray_list (l : list Z) (like : string) : ndarray :=
  {| arr_like := like; arr_dtype := dt_float; arr_shape := [length l];
     arr_data := l |}.

(** [math.asarray(ll, like=interface)] for a list of equally long lists of
    floats; an empty outer list gives the empty one-dimensional array. *)
Definition math_asarray_list2 (ll : list (list Z)) (like : string)
    : ndarray :=
  {| arr_like := like; arr_dtype := dt_float;
     arr_shape := match ll with
                  | [] => [0]
                  | row :: _ => [length ll; length row]
                  end;
     arr_data := concat ll |}.

(** [math.asarray(x, like=interface)] for the [shots] argument or the
    integer 0: a zero-dimensional array wrapping that object. *)
Inductive CountArray : Type :=
| math_asarray_obj (x : ShotsArg) (like : string).

(** Keys of a counts dictionary: bit strings or eigenvalues. *)
Inductive Outcome : Type :=
| Bitstring (s : string)
| Eigval (v : Z).

Definition outcome_eqb (a b : Outcome) : bool :=
  match a, b with
  | Bitstring s, Bitstring t => String.eqb s t
  | Eigval v, Eigval u => Z.eqb v u
  | _, _ => false
  end.

(** What a measurement evaluates to: an array, a counts dictionary, or a
    tuple of such. *)
#[warnings="-register-all"]
Inductive Result : Type :=
| RArray (a : ndarray)
| RCounts (d : PyDict Outcome CountArray)
| RTuple (l : list Result).

(* ================================================================== *)
(** ** Exceptions and the world *)

Inductive Exn : Type :=
| ValueError (msg : string)
| IndexError
| FileExistsError (fname : string)
| MeasurementShapeError
| TypeError.

(** [math.zeros(shape, like=interface, dtype=dtype)] for the tuple a
    [shape] method returned: a [TypeError] when an entry is not an
    integer. *)
Definition math_zeros_tuple (shape : list Dim) (like : string) (dt : dtype)
    : Exn + ndarray :=
  match int_shape shape with
  | Some s => inr (math_zeros s like dt)
  | None => inl TypeError
  end.

(** The keys of the [lru_cache] of [_cached_zero_return].  The cache keeps
    the results of the calls that returned, and [math.zeros] returns for
    tuples of integers only: no key holds a [Shots] object. *)
Definition CacheKey : Type := (list nat * string * dtype)%type.

Definition dtype_eqb (a b : dtype) : bool :=
  match a, b with
  | dt_int, dt_int | dt_float, dt_float
  | dt_complex, dt_complex | dt_int8, dt_int8 => true
  | _, _ => false
  end.

Fixpoint shape_eqb (a b : list nat) : bool :=
  match a, b with
  | [], [] => true
  | x :: a', y :: b' => Nat.eqb x y && shape_eqb a' b'
  | _, _ => false
  end.

Definition key_eqb (a b : CacheKey) : bool :=
  let '(s1, i1, d1) := a in
  let '(s2, i2, d2) := b in
  shape_eqb s1 s2 && String.eqb i1 i2 && dtype_eqb d1 d2.

(** The world the device runs in: the successive readings of the clock in
    nanoseconds and how many were consumed, the files created so far, and
    the entries of the [lru_cache] of [_cached_zero_return], most recently
    used first. *)
Record World : Type := {
  clock : nat -> N;
  reads : nat;
  files : PyDict string ResourceReport;
  zero_cache : list (CacheKey * ndarray)
}.

(** Computations that read and change the world and may raise. *)
Definition M (A : Type) : Type := World -> (Exn + A) * World.

Definition ret {A : Type} (a : A) : M A := fun w => (inr a, w).

Definition raise {A : Type} (e : Exn) : M A := fun w => (inl e, w).

Definition bind {A B : Type} (m : M A) (k : A -> M B) : M B :=
  fun w =>
    match m w with
    | (inl e, w') => (inl e, w')
    | (inr a, w') => k a w'
    end.

Notation "x <- m ;; k" := (bind m (fun x => k))
  (at level 61, m at next level, right associativity).
Notation "m ;;; k" := (bind m (fun _ => k))
  (at level 61, right associativity).

(** A computation that cannot touch the world. *)
Definition lift {A : Type} (r : Exn + A) : M A := fun w => (r, w).

(** A generator expression or [for] loop collecting one value per element,
    left to right, stopping at the first exception. *)
Fixpoint mapM {A B : Type} (f : A -> M B) (l : list A) : M (list B) :=
  match l with
  | [] => ret []
  | x :: t => y <- f x ;; ys <- mapM f t ;; ret (y :: ys)
  end.

(** [int(time.time() * 1e9)] *)
Definition time_ns : M N :=
  fun w =>
    (inr (clock w (reads w)),
     {| clock := clock w; reads := S (reads w); files := files w;
        zero_cache := zero_cache w |}).

(** [with open(fname, "x") as f: json.dump(report, f)] *)
Definition open_x_dump (fname : string) (report : ResourceReport) : M unit :=
  fun w =>
    match dict_get String.eqb (files w) fname with
    | Some _ => (inl (FileExistsError fname), w)
    | None =>
        (inr tt,
         {| clock := clock w; reads := reads w;
            files := files w ++ [(fname, report)];
            zero_cache := zero_cache w |})
    end.

Definition maxsize : nat := 128.

Fixpoint cache_remove (k : CacheKey) (c : list (CacheKey * ndarray))
    : list (CacheKey * ndarray) :=
  match c with
  | [] => []
  | (k', v) :: t => if key_eqb k' k then t else (k', v) :: cache_remove k t
  end.

(** [@lru_cache(maxsize=128)] around [math.zeros]: a hit moves the entry to
    the front; a miss computes the value, puts it in front and drops the
    least recently used entry when the cache is full.  A tuple with an entry
    that is not an integer is always a miss (a [Shots] object equals no
    integer), and the exception [math.zeros] raises on it leaves the cache
    as it was. *)
Definition _cached_zero_return (shape : list Dim) (interface : string)
    (dt : dtype) : M ndarray :=
  fun w =>
    match int_shape shape with
    | Some ishape =>
        let k := (ishape, interface, dt) in
        let with_cache c :=
          {| clock := clock w; reads := reads w; files := files w;
             zero_cache := c |} in
        match dict_get key_eqb (zero_cache w) k with
        | Some v =>
            (inr v, with_cache ((k, v) :: cache_remove k (zero_cache w)))
        | None =>
            let v := math_zeros ishape interface dt in
            (inr v, with_cache (firstn maxsize ((k, v) :: zero_cache w)))
        end
    | None => (inl TypeError, w)
    end.

(** [mp.shape(shots, num_device_wires)] *)
Definition call_shape (mp : MeasurementProcess) (shots : ShotsArg)
    (num_device_wires : nat) : Exn + list Dim :=
  match mp_shape mp shots num_device_wires with
  | Some dims => inr dims
  | None => inl MeasurementShapeError
  end.

(** [(batch_size,) + shape] when there is a batch size. *)
Definition with_batch (batch_size : option nat) (dims : list Dim)
    : list Dim :=
  match batch_size with
  | Some b => DInt b :: dims
  | None => dims
  end.

(* ================================================================== *)
(** ** Zero results: [zero_measurement] and its overloads *)

(** [sub in s] for strings. *)
Fixpoint contains (sub s : string) : bool :=
  if String.prefix sub s then true
  else match s with
       | EmptyString => false
       | String _ t => contains sub t
       end.

(** The default, also registered for [DensityMatrixMP]. *)
Definition _zero_measurement (mp : MeasurementProcess)
    (num_device_wires : nat) (shots : ShotsArg) (batch_size : option nat)
    (interface : string) : M Result :=
  dims <- lift (call_shape mp shots num_device_wires) ;;
  let dims := with_batch batch_size dims in
  if negb (contains "jax" interface)
  then a <- _cached_zero_return dims interface (mp_numeric_type mp) ;;
       ret (RArray a)
  else a <- lift (math_zeros_tuple dims interface (mp_numeric_type mp)) ;;
       ret (RArray a).

Definition broadcasting_message : string :=
  "Parameter broadcasting is not supported with null.qubit and qml.classical_shadow".

(** The overload for [ClassicalShadowMP]. *)
Definition zero_measurement_ClassicalShadowMP (mp : MeasurementProcess)
    (num_device_wires : nat) (shots : ShotsArg) (batch_size : option nat)
    (interface : string) : Exn + Result :=
  match batch_size with
  | Some _ => inl (ValueError broadcasting_message)
  | None =>
      match call_shape mp shots num_device_wires with
      | inl e => inl e
      | inr dims =>
          match math_zeros_tuple dims interface dt_int8 with
          | inl e => inl e
          | inr a => inr (RArray a)
          end
      end
  end.

(** [s * n] for a string [s]. *)
Fixpoint str_mul (s : string) (n : nat) : string :=
  match n with
  | O => ""
  | S n' => (s ++ str_mul s n')%string
  end.

(** [f"{x:b}"]: the binary digits of [x], most significant first. *)
Definition bin_of_nat (x : nat) : string :=
  match N.of_nat x with
  | N0 => "0"
  | Npos p => BinaryString.Raw.of_pos p ""
  end.

(** [f"{x:0{width}b}"]: the binary digits padded with zeros on the left up
    to [width] characters. *)
Definition format_0b (x width : nat) : string :=
  let digits := bin_of_nat x in
  (str_mul "0" (width - String.length digits) ++ digits)%string.

Fixpoint insert_sorted (x : Z) (l : list Z) : list Z :=
  match l with
  | [] => [x]
  | y :: t => if (x <=? y)%Z then x :: y :: t else y :: insert_sorted x t
  end.

(** [sorted(l)] on numbers; the sorted arrangement of a list of integers is
    unique, whatever the algorithm. *)
Definition sorted (l : list Z) : list Z := fold_right insert_sorted [] l.

(** [for val in outcomes: results[val] = zero] *)
Definition set_all (results : PyDict Outcome CountArray)
    (outcomes : list Outcome) (zero : CountArray)
    : PyDict Outcome CountArray :=
  fold_left (fun d val => dict_set outcome_eqb d val zero) outcomes results.

(** The overload for [CountsMP]. *)
Definition zero_measurement_CountsMP (mp : MeasurementProcess)
    (all_outcomes : bool) (num_device_wires : nat) (shots : ShotsArg)
    (batch_size : option nat) (interface : string) : Exn + Result :=
  let branch : Exn + (PyDict Outcome CountArray * list Outcome) :=
    match mp_obs mp, is_MeasurementValue (mp_mv mp) with
    | None, false =>
        let state := str_mul "0" num_device_wires in
        let results := [(Bitstring state, math_asarray_obj shots interface)] in
        inr (results,
             if all_outcomes
             then map (fun x => Bitstring (format_0b x num_device_wires))
                      (seq 1 (2 ^ num_device_wires - 1))
             else [])
    | _, _ =>
        let outcomes := sorted (mp_eigvals mp) in
        match outcomes with
        | [] => inl IndexError
        | smallest :: rest =>
            let results :=
              [(Eigval smallest, math_asarray_obj shots interface)] in
            inr (results, if all_outcomes then map Eigval rest else [])
        end
    end in
  match branch with
  | inl e => inl e
  | inr (results, outcomes) =>
      let results :=
        match outcomes with
        | [] => results
        | _ :: _ =>
            let zero := math_asarray_obj (ArgInt 0) interface in
            set_all results outcomes zero
        end in
      match batch_size with
      | Some b => inr (RTuple (repeat (RCounts results) b))
      | None => inr (RCounts results)
      end
  end.

(** The overload for [StateMP] and [ProbabilityMP]. *)
Definition zero_measurement_StateMP (mp : MeasurementProcess)
    (num_device_wires : nat) (shots : ShotsArg) (batch_size : option nat)
    (interface : string) : Result :=
  let num_wires :=
    if (length (mp_wires mp) =? 0)%nat then num_device_wires
    else length (mp_wires mp) in
  let state := [1%Z] ++ repeat 0%Z (2 ^ num_wires - 1) in
  match batch_size with
  | Some b => RArray (math_asarray_list2 (repeat state b) interface)
  | None => RArray (math_asarray_list state interface)
  end.

(** The [singledispatch] on the class of the measurement process. *)
Definition zero_measurement (mp : MeasurementProcess)
    (num_device_wires : nat) (shots : ShotsArg) (batch_size : option nat)
    (interface : string) : M Result :=
  match mp_kind mp with
  | ClassicalShadowMP =>
      lift (zero_measurement_ClassicalShadowMP mp num_device_wires shots
              batch_size interface)
  | CountsMP all_outcomes =>
      lift (zero_measurement_CountsMP mp all_outcomes num_device_wires shots
              batch_size interface)
  | DensityMatrixMP =>
      _zero_measurement mp num_device_wires shots batch_size interface
  | StateMP | ProbabilityMP =>
      ret (zero_measurement_StateMP mp num_device_wires shots batch_size
             interface)
  | OtherMP =>
      _zero_measurement mp num_device_wires shots batch_size interface
  end.

(* ================================================================== *)
(** ** The device *)

(** The fields of an execution configuration this module reads or sets.
    [interface_like] is the value of [config.interface.get_like()]. *)
Record ExecutionConfig : Type := {
  gradient_method : option string;
  interface_like : string;
  use_device_gradient : option bool;
  use_device_jacobian_product : option bool;
  grad_on_execution : option bool
}.

Definition _interface (config : ExecutionConfig) : string :=
  match gradient_method config with
  | Some g => if String.eqb g "backprop" then interface_like config
              else "numpy"
  | None => "numpy"
  end.

Record NullQubit : Type := {
  dev_wires : option (list Wire);
  track_resources : bool
}.

Definition RESOURCES_FNAME_PREFIX : string := "__pennylane_resources_data_".

(** [len(self.wires) if self.wires else len(circuit.wires)]: the wires of
    the device are falsy when absent and when empty. *)
Definition num_device_wires_of (self : NullQubit) (circuit : Circuit) : nat :=
  match dev_wires self with
  | Some (w :: ws) => length (w :: ws)
  | _ => length (wires circuit)
  end.

(** [circuit.shots or [None]] *)
Definition shots_or_none (s : Shots) : list ShotsArg :=
  if shots_truthy s then map ArgInt (shots_iter s) else [ArgNone].

(** [l[0]] *)
Definition first {A : Type} (l : list A) : M A :=
  match l with
  | x :: _ => ret x
  | [] => raise IndexError
  end.

Definition _simulate (self : NullQubit) (circuit : Circuit)
    (interface : string) : M Result :=
  let num_device_wires := num_device_wires_of self circuit in
  (if track_resources self
   then timestamp <- time_ns ;;
        let resources_fname :=
          (RESOURCES_FNAME_PREFIX ++ str_of_N timestamp ++ ".json")%string in
        open_x_dump resources_fname (_simulate_resource_use circuit)
   else ret tt) ;;;
  results <- mapM (fun s =>
      r <- mapM (fun mp =>
             zero_measurement mp num_device_wires s (batch_size circuit)
               interface) (measurements circuit) ;;
      if (length (measurements circuit) =? 1)%nat then first r
      else ret (RTuple r)) (shots_or_none (shots circuit)) ;;
  if has_partitioned_shots (shots circuit) then ret (RTuple results)
  else first results.

(** [execute] as the class body defines it, on a batch of circuits; the
    returned tuple is a list.  The decorators of the class, which accept a
    single circuit and feed the tracker, are outside this module. *)
Definition execute (self : NullQubit) (circuits : list Circuit)
    (execution_config : ExecutionConfig) : M (list Result) :=
  mapM (fun c => _simulate self c (_interface execution_config)) circuits.

Section Derivatives.

(** [math.zeros_like] belongs to the array backend. *)
Variable zeros_like : Result -> Result.

Definition _derivatives (self : NullQubit) (circuit : Circuit)
    (interface : string) : M Result :=
  let shots := ArgShots (shots circuit) in
  let num_device_wires := num_device_wires_of self circuit in
  let n := length (trainable_params circuit) in
  derivatives <- mapM (fun mp =>
      z <- zero_measurement mp num_device_wires shots (batch_size circuit)
             interface ;;
      ret (repeat (zeros_like z) n)) (measurements circuit) ;;
  derivatives <-
    (if (n =? 1)%nat then mapM first derivatives
     else ret (map RTuple derivatives)) ;;
  if (length derivatives =? 1)%nat then first derivatives
  else ret (RTuple derivatives).

Definition compute_derivatives (self : NullQubit) (circuits : list Circuit)
    (execution_config : ExecutionConfig) : M (list Result) :=
  mapM (fun c => _derivatives self c (_interface execution_config))
       circuits.

End Derivatives.

Definition _vjp (circuit : Circuit) (interface : string) : Result :=
  let n := length (trainable_params circuit) in
  let res_shape := match batch_size circuit with
                   | None => [n]
                   | Some b => [n; b]
                   end in
  RArray (math_zeros res_shape interface dt_float).

Definition _jvp (circuit : Circuit) (interface : string) : Result :=
  let jvps := repeat (RArray (math_asarray_float 0 interface))
                     (length (measurements circuit)) in
  match jvps with
  | [j] => j
  | _ => RTuple jvps
  end.

(** Tangents and cotangents are numbers or arrays of numbers, one entry per
    circuit. *)
Definition compute_jvp (self : NullQubit) (circuits : list Circuit)
    (tangents : list Result) (execution_config : ExecutionConfig)
    : list Result :=
  map (fun c => _jvp c (_interface execution_config)) circuits.

Definition compute_vjp (self : NullQubit) (circuits : list Circuit)
    (cotangents : list Result) (execution_config : ExecutionConfig)
    : list Result :=
  map (fun c => _vjp c (_interface execution_config)) circuits.

(* ------------------------------------------------------------------ *)
(** *** [preprocess]: normalising the execution configuration

    Configurations are objects: the caller holds a reference into a heap
    of configurations.  [dataclasses.replace] allocates a new object. *)

Definition Heap : Type := list ExecutionConfig.

Definition ref : Type := nat.

Definition deref (h : Heap) (r : ref) : option ExecutionConfig :=
  nth_error h r.

(** The keyword arguments collected in [updated_values]. *)
Record Updates : Type := {
  upd_gradient_method : option (option string);
  upd_use_device_gradient : option (option bool);
  upd_use_device_jacobian_product : option (option bool);
  upd_grad_on_execution : option (option bool)
}.

Definition override {A : Type} (old : A) (new : option A) : A :=
  match new with
  | Some v => v
  | None => old
  end.

(** [dataclasses.replace(config, **updated_values)] *)
Definition replace (h : Heap) (config : ExecutionConfig) (u : Updates)
    : Heap * ref :=
  let config' :=
    {| gradient_method :=
         override (gradient_method config) (upd_gradient_method u);
       interface_like := interface_like config;
       use_device_gradient :=
         override (use_device_gradient config) (upd_use_device_gradient u);
       use_device_jacobian_product :=
         override (use_device_jacobian_product config)
                  (upd_use_device_jacobian_product u);
       grad_on_execution :=
         override (grad_on_execution config) (upd_grad_on_execution u) |} in
  (h ++ [config'], length h).

(** [x in l] for an optional string [x] and a collection of strings. *)
Definition str_in (x : option string) (l : list string) : bool :=
  match x with
  | Some g => existsb (String.eqb g) l
  | None => false
  end.

(** [x == s] for an optional string [x]. *)
Definition str_eq (x : option string) (s : string) : bool :=
  match x with
  | Some g => String.eqb g s
  | None => false
  end.

Definition is_None {A : Type} (x : option A) : bool :=
  match x with
  | None => true
  | Some _ => false
  end.

(** The second component of the pair returned by [preprocess]; the first,
    the transform program, is built by code outside this module.  [None]
    stands for a dangling reference, which Python does not have. *)
Definition preprocess (self : NullQubit) (h : Heap) (execution_config : ref)
    : option (Heap * ref) :=
  match deref h execution_config with
  | None => None
  | Some config =>
      let gm := gradient_method config in
      let updated_values :=
        {| upd_gradient_method :=
             if str_in gm ["best"; "adjoint"] then Some (Some "device")
             else None;
           upd_use_device_gradient :=
             if is_None (use_device_gradient config)
             then Some (Some (str_in gm
                                ["best"; "device"; "adjoint"; "backprop"]))
             else None;
           upd_use_device_jacobian_product :=
             if is_None (use_device_jacobian_product config)
             then Some (Some (str_eq gm "device"))
             else None;
           upd_grad_on_execution :=
             if is_None (grad_on_execution config)
             then Some (Some (str_eq gm "device"))
             else None |} in
      Some (replace h config updated_values)
  end.

(* ================================================================== *)
(** ** Vocabulary of the statements *)

(** A modifier layer around an operator. *)
Inductive Modifier : Type :=
| Ctrl (control_wires : list Wire)
| Adj.

(** The operator obtained by wrapping [op] in [layers], outermost first. *)
Definition wrap (layers : list Modifier) (op : Operator) : Operator :=
  fold_right (fun m o => match m with
                         | Ctrl cw => Controlled cw o
                         | Adj => Adjoint o
                         end) op layers.

Fixpoint total_controls (layers : list Modifier) : nat :=
  match layers with
  | [] => 0
  | Ctrl cw :: t => length cw + total_controls t
  | Adj :: t => total_controls t
  end.

Fixpoint adjoint_layers (layers : list Modifier) : nat :=
  match layers with
  | [] => 0
  | Ctrl _ :: t => adjoint_layers t
  | Adj :: t => S (adjoint_layers t)
  end.

(** The name under which an operation is counted, if it is counted. *)
Definition counted_as (op : Operator) : option string :=
  let '(op', controls, adj) := unwrap op 0 false in
  if String.eqb (op_name op') "Barrier" then None
  else Some (compose_name (op_name op') controls adj).

Definition is_counted (op : Operator) : bool :=
  match counted_as op with
  | Some _ => true
  | None => false
  end.

Definition counted_under (name : string) (op : Operator) : bool :=
  match counted_as op with
  | Some n => String.eqb n name
  | None => false
  end.

(** The histogram read as a total count: absent keys count zero. *)
Definition count_of (gt : PyDict string nat) (name : string) : nat :=
  match dict_get String.eqb gt name with
  | Some v => v
  | None => 0
  end.

(** The operator the modifier layers of a gate are wrapped around: one
    without a base, or one with a base that is no modifier. *)
Inductive Core : Type :=
| CorePlain (name : string)
| CoreComposite (name : string) (base : Operator).

Definition core_operator (core : Core) : Operator :=
  match core with
  | CorePlain n => Plain n
  | CoreComposite n b => Composite n b
  end.

Definition core_name (core : Core) : string :=
  match core with
  | CorePlain n => n
  | CoreComposite n _ => n
  end.

(** A gate of a circuit, described by its modifier layers, outermost
    first, and its core. *)
Definition Gate : Type := (list Modifier * Core)%type.

Definition gate_operator (g : Gate) : Operator :=
  wrap (fst g) (core_operator (snd g)).

(** The composed name of a gate named [N] under [k] control wires in total:
    [N], inside ["Adj(...)"] when the gate is under an odd number of adjoint
    layers, and all of that inside ["kC(...)"] when [k > 0], the number
    omitted when it is 1. *)
Definition composed_name (N : string) (k : nat) (adjoint : bool) : string :=
  let inner := if adjoint then ("Adj(" ++ N ++ ")")%string else N in
  match k with
  | 0 => inner
  | 1 => ("C(" ++ inner ++ ")")%string
  | _ => (str_of_nat k ++ "C(" ++ inner ++ ")")%string
  end.

(** A barrier: a gate whose core is named ["Barrier"]. *)
Definition is_barrier (g : Gate) : bool :=
  String.eqb (core_name (snd g)) "Barrier".

(** The name a gate is reported under. *)
Definition gate_name (g : Gate) : string :=
  composed_name (core_name (snd g)) (total_controls (fst g))
    (Nat.odd (adjoint_layers (fst g))).

(** The gates of a list that are no barriers and are reported under
    [name]. *)
Definition reported_under (name : string) (gates : list Gate) : list Gate :=
  filter (fun g => negb (is_barrier g) && String.eqb (gate_name g) name)
         gates.

(* ================================================================== *)
(** ** Concrete inputs *)

(** The gate [X] under a control modifier over two wires, wrapped in an
    adjoint modifier, alone in a circuit over three wires. *)
Definition adjoint_ctrl2_X : Circuit :=
  {| operations := [Adjoint (Controlled [WInt 1; WInt 2] (Plain "X"))];
     measurements := []; wires := [WInt 0; WInt 1; WInt 2];
     shots := NoShots; batch_size := None; trainable_params := [] |}.

(** A configuration asking for the best gradient method, nothing else
    set. *)
Definition config_best : ExecutionConfig :=
  {| gradient_method := Some "best"; interface_like := "numpy";
     use_device_gradient := None; use_device_jacobian_product := None;
     grad_on_execution := None |}.

(** A device without wires and without resource tracking. *)
Definition null_qubit : NullQubit :=
  {| dev_wires := None; track_resources := false |}.

(** An array all of whose entries are zero, of the given shape. *)
Definition zero_array (shape : list nat) (r : Result) : Prop :=
  exists a,
    r = RArray a
    /\ arr_shape a = shape
    /\ length (arr_data a) = prod_shape shape
    /\ Forall (fun x => x = 0%Z) (arr_data a).

(** The shape claimed for a vector-Jacobian product. *)
Definition vjp_shape (n : nat) (b : option nat) : list nat :=
  match b with
  | None => [n]
  | Some b => [n; b]
  end.

(** What [_jvp] yields for [m] measurements: a zero scalar for one
    measurement, a tuple of [m] zero scalars otherwise. *)
Definition jvp_value (m : nat) (r : Result) : Prop :=
  if (m =? 1)%nat then zero_array [] r
  else exists l, r = RTuple l /\ length l = m /\ Forall (zero_array []) l.

(** An expectation value of Pauli Z on wire 0. *)
Definition expval_Z : MeasurementProcess :=
  {| mp_kind := OtherMP; mp_wires := [WInt 0];
     mp_obs := Some (Plain "PauliZ"); mp_mv := MvNone;
     mp_eigvals := [1%Z; (-1)%Z];
     mp_shape := fun _ _ => Some []; mp_numeric_type := dt_float |}.

(** A circuit with two trainable parameters and one measurement, not
    broadcast. *)
Definition two_params : Circuit :=
  {| operations := [Plain "RX"; Plain "RY"]; measurements := [expval_Z];
     wires := [WInt 0]; shots := NoShots; batch_size := None;
     trainable_params := [0; 1] |}.

(** A circuit over three wires: [X] under two control wires and an
    adjoint, a barrier under a control wire, [X] alone, and [X] under an
    adjoint, a control wire, two adjoints and another control wire; and
    the same circuit gate by gate. *)
Definition barrier_between : Circuit :=
  {| operations :=
       [Adjoint (Controlled [WInt 1; WInt 2] (Plain "X"));
        Controlled [WInt 0] (Plain "Barrier");
        Plain "X";
        Adjoint (Controlled [WInt 1]
                   (Adjoint (Adjoint (Controlled [WInt 2] (Plain "X")))))];
     measurements := [expval_Z]; wires := [WInt 0; WInt 1; WInt 2];
     shots := NoShots; batch_size := None; trainable_params := [] |}.

Definition barrier_between_gates : list Gate :=
  [([Adj; Ctrl [WInt 1; WInt 2]], CorePlain "X");
   ([Ctrl [WInt 0]], CorePlain "Barrier");
   ([], CorePlain "X");
   ([Adj; Ctrl [WInt 1]; Adj; Adj; Ctrl [WInt 2]], CorePlain "X")].

(** The same two rotations followed by a third, in two orders, and the
    third alone. *)
Definition rx_ry_rx : Circuit :=
  {| operations := [Plain "RX"; Plain "RY"; Plain "RX"];
     measurements := [expval_Z]; wires := [WInt 0]; shots := NoShots;
     batch_size := None; trainable_params := [0; 1; 2] |}.

Definition ry_rx_rx : Circuit :=
  {| operations := [Plain "RY"; Plain "RX"; Plain "RX"];
     measurements := [expval_Z]; wires := [WInt 0]; shots := NoShots;
     batch_size := None; trainable_params := [0; 1; 2] |}.

Definition rx_alone : Circuit :=
  {| operations := [Plain "RX"]; measurements := [expval_Z];
     wires := [WInt 0]; shots := NoShots; batch_size := None;
     trainable_params := [0] |}.

(** *** Values without the world

    The exception monad alone, and the value every function of the device
    yields when neither the cache nor the file system interferes. *)

Definition bindE {A B : Type} (r : Exn + A) (k : A -> Exn + B) : Exn + B :=
  match r with
  | inl e => inl e
  | inr a => k a
  end.

Fixpoint mapE {A B : Type} (f : A -> Exn + B) (l : list A)
    : Exn + list B :=
  match l with
  | [] => inr []
  | x :: t =>
      bindE (f x) (fun y => bindE (mapE f t) (fun ys => inr (y :: ys)))
  end.

Definition firstE {A : Type} (l : list A) : Exn + A :=
  match l with
  | x :: _ => inr x
  | [] => inl IndexError
  end.

(** The all-zero array of the measurement's shape, with the batch size in
    front when there is one; the error of the shape when it has none, and a
    [TypeError] when the shape is not made of integers. *)
Definition default_zero (mp : MeasurementProcess) (n : nat)
    (shots : ShotsArg) (batch_size : option nat) (interface : string)
    : Exn + Result :=
  bindE (call_shape mp shots n) (fun dims =>
  bindE (math_zeros_tuple (with_batch batch_size dims) interface
           (mp_numeric_type mp)) (fun a =>
  inr (RArray a))).

(** The value of [zero_measurement]. *)
Definition zero_value (mp : MeasurementProcess) (n : nat) (shots : ShotsArg)
    (batch_size : option nat) (interface : string) : Exn + Result :=
  match mp_kind mp with
  | ClassicalShadowMP =>
      zero_measurement_ClassicalShadowMP mp n shots batch_size interface
  | CountsMP all_outcomes =>
      zero_measurement_CountsMP mp all_outcomes n shots batch_size interface
  | StateMP | ProbabilityMP =>
      inr (zero_measurement_StateMP mp n shots batch_size interface)
  | DensityMatrixMP | OtherMP =>
      default_zero mp n shots batch_size interface
  end.

(** The value of [_simulate] for the device wire count [n]. *)
Definition simulate_value (n : nat) (circuit : Circuit) (interface : string)
    : Exn + Result :=
  bindE
    (mapE (fun s =>
       bindE (mapE (fun mp => zero_value mp n s (batch_size circuit)
                                interface) (measurements circuit))
         (fun r => if (length (measurements circuit) =? 1)%nat then firstE r
                   else inr (RTuple r)))
       (shots_or_none (shots circuit)))
    (fun results =>
       if has_partitioned_shots (shots circuit) then inr (RTuple results)
       else firstE results).

(** The value of [execute]. *)
Definition execute_value (self : NullQubit) (circuits : list Circuit)
    (execution_config : ExecutionConfig) : Exn + list Result :=
  mapE (fun c => simulate_value (num_device_wires_of self c) c
                   (_interface execution_config)) circuits.

(** The value of [_derivatives] for the device wire count [n]. *)
Definition derivatives_value (zeros_like : Result -> Result) (n : nat)
    (circuit : Circuit) (interface : string) : Exn + Result :=
  let k := length (trainable_params circuit) in
  bindE
    (mapE (fun mp =>
       bindE (zero_value mp n (ArgShots (shots circuit))
                (batch_size circuit) interface)
         (fun z => inr (repeat (zeros_like z) k)))
       (measurements circuit))
    (fun derivatives =>
       bindE (if (k =? 1)%nat then mapE firstE derivatives
              else inr (map RTuple derivatives))
         (fun derivatives =>
            if (length derivatives =? 1)%nat then firstE derivatives
            else inr (RTuple derivatives))).

(** The resource tracking at the beginning of [_simulate]. *)
Definition resources_fname (timestamp : N) : string :=
  (RESOURCES_FNAME_PREFIX ++ str_of_N timestamp ++ ".json")%string.

Definition track (self : NullQubit) (circuit : Circuit) : M unit :=
  if track_resources self
  then timestamp <- time_ns ;;
       open_x_dump (resources_fname timestamp)
         (_simulate_resource_use circuit)
  else ret tt.

(** The array a cache key stands for. *)
Definition zeros_of_key (k : CacheKey) : ndarray :=
  let '(shape, interface, dt) := k in math_zeros shape interface dt.

(** Every entry of the cache is the array of its key. *)
Definition cache_ok (c : list (CacheKey * ndarray)) : Prop :=
  Forall (fun kv => snd kv = zeros_of_key (fst kv)) c.

(** Only the cache differs between two worlds, and it is sound. *)
Definition cache_step (w w' : World) : Prop :=
  cache_ok (zero_cache w')
  /\ clock w' = clock w /\ reads w' = reads w /\ files w' = files w.

(** In every world with a sound cache, [m] yields [r] and changes the cache
    at most. *)
Definition refines {A : Type} (m : M A) (r : Exn + A) : Prop :=
  forall w, cache_ok (zero_cache w) ->
            fst (m w) = r /\ cache_step w (snd (m w)).

(** What [_simulate] does after the resource tracking. *)
Definition simulate_body (n : nat) (circuit : Circuit) (interface : string)
    : M Result :=
  results <- mapM (fun s =>
      r <- mapM (fun mp =>
             zero_measurement mp n s (batch_size circuit) interface)
           (measurements circuit) ;;
      if (length (measurements circuit) =? 1)%nat then first r
      else ret (RTuple r)) (shots_or_none (shots circuit)) ;;
  if has_partitioned_shots (shots circuit) then ret (RTuple results)
  else first results.

(** The files a tracked execution of [circuits] creates when the clock is
    read for the [k]-th time at its beginning. *)
Fixpoint written (clk : nat -> N) (k : nat) (circuits : list Circuit)
    : PyDict string ResourceReport :=
  match circuits with
  | [] => []
  | c :: t =>
      (resources_fname (clk k), _simulate_resource_use c)
        :: written clk (S k) t
  end.

(** The result for one entry of the shot specification: the value of the
    single measurement itself when there is exactly one, and otherwise the
    tuple of the values of the measurements, in their order. *)
Definition per_shot_value (n : nat) (c : Circuit) (interface : string)
    (s : ShotsArg) (r : Result) : Prop :=
  match measurements c with
  | [mp] => zero_value mp n s (batch_size c) interface = inr r
  | mps =>
      exists vs,
        r = RTuple vs
        /\ Forall2 (fun mp v =>
                      zero_value mp n s (batch_size c) interface = inr v)
                   mps vs
  end.

(** The result for one circuit: one entry per partition, in order, when the
    shots are partitioned, and a single result otherwise. *)
Definition per_circuit_value (n : nat) (c : Circuit) (interface : string)
    (r : Result) : Prop :=
  match shots c with
  | NoShots => per_shot_value n c interface ArgNone r
  | SingleShots k => per_shot_value n c interface (ArgInt k) r
  | PartitionedShots l =>
      exists rs,
        r = RTuple rs
        /\ Forall2 (fun s r' => per_shot_value n c interface (ArgInt s) r')
                   l rs
  end.

(** The number a string of binary digits stands for. *)
Definition decode (s : string) : N := BinaryString.Raw.to_N s 0.

(** The wire count claimed for a device and a circuit: the number of wires
    of the device when it has some, the number of wires of the circuit
    otherwise. *)
Definition effective_wires (self : NullQubit) (c : Circuit) : nat :=
  match dev_wires self with
  | Some ws => if (length ws =? 0)%nat then length (wires c) else length ws
  | None => length (wires c)
  end.

(** A world at the beginning: the clock counts nanoseconds from some
    instant, nothing was written, nothing is cached. *)
Definition world0 : World :=
  {| clock := fun k => (1762185600000000000 + N.of_nat k)%N; reads := 0;
     files := []; zero_cache := [] |}.

(** A later world with a file in it. *)
Definition world1 : World :=
  {| clock := fun k => (1762185600000005000 + 7 * N.of_nat k)%N; reads := 3;
     files := [("notes.txt",
                {| num_wires := 0; num_gates := 0; gate_types := [] |})];
     zero_cache := [] |}.

(** A world whose clock stands still: every reading is the same instant. *)
Definition stopped_clock : World :=
  {| clock := fun _ => 1762185600000000000%N; reads := 0; files := [];
     zero_cache := [] |}.

(** A device with two wires that tracks resources. *)
Definition tracking_qubit : NullQubit :=
  {| dev_wires := Some [WInt 0; WInt 1]; track_resources := true |}.

(** The vector of the given length with 1 at index 0 and 0 elsewhere. *)
Definition basis_vector (len : nat) : list Z :=
  map (fun i => if (i =? 0)%nat then 1%Z else 0%Z) (seq 0 len).

(** The measurement's own wire count if it has wires, else the device wire
    count. *)
Definition measured_wires (mp : MeasurementProcess) (n : nat) : nat :=
  match mp_wires mp with
  | [] => n
  | ws => length ws
  end.

(** Probabilities of all wires of the device. *)
Definition probs_all : MeasurementProcess :=
  {| mp_kind := ProbabilityMP; mp_wires := []; mp_obs := None;
     mp_mv := MvNone; mp_eigvals := [];
     mp_shape := fun _ n => Some [DInt (2 ^ n)];
     mp_numeric_type := dt_float |}.

(** A classical shadow of wires 0 and 1: its shape is [(2, shots, 2)], and
    asking for it without shots raises. *)
Definition shadow_01 : MeasurementProcess :=
  {| mp_kind := ClassicalShadowMP; mp_wires := [WInt 0; WInt 1];
     mp_obs := None; mp_mv := MvNone; mp_eigvals := [];
     mp_shape := fun s _ => match s with
                            | ArgNone => None
                            | ArgInt k => Some [DInt 2; DInt k; DInt 2]
                            | ArgShots sh => Some [DInt 2; DShots sh; DInt 2]
                            end;
     mp_numeric_type := dt_int |}.

(** Counts of the observable Z(0) @ Z(1), whose eigenvalues are 1, -1, -1,
    1, with all outcomes requested.  Counts have no shape; their overload
    asks for none. *)
Definition counts_ZZ : MeasurementProcess :=
  {| mp_kind := CountsMP true; mp_wires := [WInt 0; WInt 1];
     mp_obs := Some (Composite "Prod" (Plain "PauliZ")); mp_mv := MvNone;
     mp_eigvals := [1%Z; (-1)%Z; (-1)%Z; 1%Z];
     mp_shape := fun _ _ => None; mp_numeric_type := dt_int |}.

(** Counts of the computational basis states of all wires. *)
Definition counts_all (all_outcomes : bool) : MeasurementProcess :=
  {| mp_kind := CountsMP all_outcomes; mp_wires := []; mp_obs := None;
     mp_mv := MvNone; mp_eigvals := [];
     mp_shape := fun _ _ => None; mp_numeric_type := dt_int |}.

(** Probabilities of all wires, on a circuit over one wire and on a
    circuit over two wires. *)
Definition probs_on (ws : list Wire) : Circuit :=
  {| operations := [Plain "Hadamard"]; measurements := [probs_all];
     wires := ws; shots := NoShots; batch_size := None;
     trainable_params := [] |}.

(** An expectation value and probabilities with shots partitioned in 10
    and 20. *)
Definition partitioned_two : Circuit :=
  {| operations := [Plain "Hadamard"];
     measurements := [expval_Z; probs_all]; wires := [WInt 0];
     shots := PartitionedShots [10; 20]; batch_size := None;
     trainable_params := [] |}.


(* ================================================================== *)
(** ** Further functions of the module and their vocabulary *)

(** The names under which the operations of a circuit are counted, in
    circuit order. *)
Definition counted_names (ops : list Operator) : list string :=
  flat_map (fun op => match counted_as op with
                      | Some n => [n]
                      | None => []
                      end) ops.

(** The elements of a list of names in the order of their first
    occurrences. *)
Fixpoint first_occurrences (names : list string) : list string :=
  match names with
  | [] => []
  | n :: t =>
      n :: filter (fun m => negb (String.eqb m n)) (first_occurrences t)
  end.

(** [k in d] *)
Definition has_key (d : PyDict string nat) (k : string) : bool :=
  existsb (String.eqb k) (map fst d).

(** The cache holds at most [maxsize] entries, under distinct keys. *)
Definition cache_bounded (c : list (CacheKey * ndarray)) : Prop :=
  length c <= maxsize /\ NoDup (map fst c).

(** [m] keeps a property of the cache. *)
Definition keeps {A : Type} (Q : list (CacheKey * ndarray) -> Prop)
    (m : M A) : Prop :=
  forall w, Q (zero_cache w) -> Q (zero_cache (snd (m w))).

(** The density matrix of wires 0 and 1, of shape (4, 4) whatever the
    shots. *)
Definition density_01 : MeasurementProcess :=
  {| mp_kind := DensityMatrixMP; mp_wires := [WInt 0; WInt 1];
     mp_obs := None; mp_mv := MvNone; mp_eigvals := [];
     mp_shape := fun _ _ => Some [DInt 4; DInt 4];
     mp_numeric_type := dt_complex |}.

(** [execute_and_compute_derivatives] *)
Definition execute_and_compute_derivatives (zeros_like : Result -> Result)
    (self : NullQubit) (circuits : list Circuit)
    (execution_config : ExecutionConfig) : M (list Result * list Result) :=
  results <- mapM (fun c => _simulate self c (_interface execution_config))
               circuits ;;
  jacs <- mapM (fun c => _derivatives zeros_like self c
                           (_interface execution_config)) circuits ;;
  ret (results, jacs).

(** The clock and the files are the same in both worlds. *)
Definition same_io (w w' : World) : Prop :=
  clock w' = clock w /\ reads w' = reads w /\ files w' = files w.

(** [m] neither reads the clock nor creates a file. *)
Definition no_io {A : Type} (m : M A) : Prop :=
  forall w, same_io w (snd (m w)).

(** What [_derivatives] makes of the zero result [z] of one measurement
    for [n] trainable parameters. *)
Definition per_measurement (zeros_like : Result -> Result) (n : nat)
    (z : Result) : Result :=
  if (n =? 1)%nat then zeros_like z else RTuple (repeat (zeros_like z) n).

(** A circuit with one trainable parameter and two measurements. *)
Definition one_param_two_measurements : Circuit :=
  {| operations := [Plain "RX"]; measurements := [expval_Z; probs_all];
     wires := [WInt 0]; shots := NoShots; batch_size := None;
     trainable_params := [0] |}.

(** The number a decimal string stands for. *)
Definition N_of_str (s : string) : option N :=
  option_map N.of_uint (NilZero.uint_of_string s).

(** The clock readings a tracked execution of [k] circuits takes in [w]. *)
Definition stamps (w : World) (k : nat) : list N :=
  map (fun i => clock w (reads w + i)) (seq 0 k).

(** A classical shadow with parameter broadcasting: its measurement
    raises. *)
Definition broadcast_shadow : Circuit :=
  {| operations := [Plain "Hadamard"]; measurements := [shadow_01];
     wires := [WInt 0; WInt 1]; shots := SingleShots 5;
     batch_size := Some 3; trainable_params := [] |}.

(** Two circuits ask a device for the same results: they have the same
    measurements, shots and batch size, and the device counts the same
    number of wires for both. *)
Definition same_request (self : NullQubit) (c c' : Circuit) : Prop :=
  measurements c = measurements c'
  /\ shots c = shots c'
  /\ batch_size c = batch_size c'
  /\ effective_wires self c = effective_wires self c'.

(** Whether [zero_measurement] asks the measurement for its shape: the
    overload for classical shadows does unless it is given a batch size,
    the default one always, the others never. *)
Definition asks_for_shape (mp : MeasurementProcess)
    (batch_size : option nat) : bool :=
  match mp_kind mp with
  | ClassicalShadowMP => is_None batch_size
  | DensityMatrixMP | OtherMP => true
  | _ => false
  end.

Definition supports_derivatives (self : NullQubit)
    (execution_config : option ExecutionConfig) (circuit : option Circuit)
    : bool :=
  match execution_config with
  | None => true
  | Some config =>
      str_in (gradient_method config) ["device"; "backprop"; "adjoint"]
  end.

Definition supports_vjp (self : NullQubit)
    (execution_config : option ExecutionConfig) (circuit : option Circuit)
    : bool :=
  match execution_config with
  | None => true
  | Some config =>
      str_in (gradient_method config) ["device"; "backprop"; "adjoint"]
  end.

Definition supports_jvp (self : NullQubit)
    (execution_config : option ExecutionConfig) (circuit : option Circuit)
    : bool :=
  match execution_config with
  | None => true
  | Some config =>
      str_in (gradient_method config) ["device"; "backprop"; "adjoint"]
  end.

(** A configuration with a method the device knows nothing of and one flag
    set by the caller. *)
Definition config_parameter_shift : ExecutionConfig :=
  {| gradient_method := Some "parameter-shift"; interface_like := "torch";
     use_device_gradient := None; use_device_jacobian_product := Some true;
     grad_on_execution := None |}.






(** A stopping condition: a callable on operators; [None] stands for an
    exception raised by the call. *)
Definition Condition : Type := Operator -> option bool.

(** A transform of the program: whether it is the decomposition transform,
    the value under the key ["stopping_condition"] of its keyword
    arguments if the key is there, and what
    [kwargs.get("stopping_condition_shots", None)] gives. *)
Record Transform : Type := {
  is_decompose : bool;
  stopping_condition : option Condition;
  stopping_condition_shots : option Condition
}.

(** What a keyword argument holds after the loop: what it held before, or
    one of the two functions defined in the loop. *)
Inductive Slot : Type :=
| Original (c : option Condition)
| new_stopping_condition
| new_shots_stopping_condition.

Record PatchedTransform : Type := {
  p_is_decompose : bool;
  p_stopping_condition : Slot;
  p_stopping_condition_shots : Slot
}.

(** The two variables of [preprocess] the functions defined in its loop
    refer to.  The functions read them when they are called, after the
    loop: the variables are cells shared by all the functions the loop
    defines, so each function sees the last value assigned. *)
Record Cells : Type := {
  original_stopping_condition : option Condition;
  original_shots_stopping_condition : option Condition
}.

(** One iteration of [for t in program]; [None] stands for the [KeyError]
    of a decomposition transform without a stopping condition. *)
Definition patch_step (cells : Cells) (t : Transform)
    : option (Cells * PatchedTransform) :=
  if is_decompose t
  then match stopping_condition t with
       | None => None
       | Some c =>
           let shots_condition := stopping_condition_shots t in
           Some ({| original_stopping_condition := Some c;
                    original_shots_stopping_condition := shots_condition |},
                 {| p_is_decompose := true;
                    p_stopping_condition := new_stopping_condition;
                    p_stopping_condition_shots :=
                      match shots_condition with
                      | Some _ => new_shots_stopping_condition
                      | None => Original None
                      end |})
       end
  else Some (cells,
             {| p_is_decompose := false;
                p_stopping_condition := Original (stopping_condition t);
                p_stopping_condition_shots :=
                  Original (stopping_condition_shots t) |}).

(** The loop over the program. *)
Fixpoint patch_program (cells : Cells) (program : list Transform)
    : option (Cells * list PatchedTransform) :=
  match program with
  | [] => Some (cells, [])
  | t :: rest =>
      match patch_step cells t with
      | None => None
      | Some (cells', t') =>
          match patch_program cells' rest with
          | None => None
          | Some (cells'', rest') => Some (cells'', t' :: rest')
          end
      end
  end.

(** Before the loop neither variable is bound. *)
Definition unbound : Cells :=
  {| original_stopping_condition := None;
     original_shots_stopping_condition := None |}.

(** Calling what a keyword argument holds, once [preprocess] has
    returned with the given contents of its variables;
    [has_decomposition] is [op.has_decomposition], which belongs to the
    operator classes. *)
Definition call (has_decomposition : Operator -> bool) (cells : Cells)
    (slot : Slot) (op : Operator) : option bool :=
  let call_value (c : option Condition) :=
    match c with
    | Some f => f op
    | None => None
    end in
  match slot with
  | Original c => call_value c
  | new_stopping_condition =>
      if negb (has_decomposition op) then Some true
      else call_value (original_stopping_condition cells)
  | new_shots_stopping_condition =>
      if negb (has_decomposition op) then Some true
      else call_value (original_shots_stopping_condition cells)
  end.

(** The last decomposition transform of a program. *)
Definition last_decompose (program : list Transform) : option Transform :=
  fold_left (fun acc t => if is_decompose t then Some t else acc)
            program None.

(** Operators with a base have a decomposition, plain gates have none. *)
Definition decomposes (op : Operator) : bool :=
  match op with
  | Plain _ => false
  | _ => true
  end.

Definition accept_all : Condition := fun _ => Some true.

Definition accept_none : Condition := fun _ => Some false.

Definition accept_composites : Condition :=
  fun op => Some (match op with
                  | Composite _ _ => true
                  | _ => false
                  end).

(** A program with a transform that is no decomposition and two that
    are, the first without a condition for shots. *)
Definition example_program : list Transform :=
  [ {| is_decompose := false; stopping_condition := None;
       stopping_condition_shots := Some accept_all |};
    {| is_decompose := true; stopping_condition := Some accept_none;
       stopping_condition_shots := None |};
    {| is_decompose := true; stopping_condition := Some accept_composites;
       stopping_condition_shots := Some accept_none |} ].

Definition example_cells : Cells :=
  {| original_stopping_condition := Some accept_composites;
     original_shots_stopping_condition := Some accept_none |}.

Definition example_patched : list PatchedTransform :=
  [ {| p_is_decompose := false; p_stopping_condition := Original None;
       p_stopping_condition_shots := Original (Some accept_all) |};
    {| p_is_decompose := true;
       p_stopping_condition := new_stopping_condition;
       p_stopping_condition_shots := Original None |};
    {| p_is_decompose := true;
       p_stopping_condition := new_stopping_condition;
       p_stopping_condition_shots := new_shots_stopping_condition |} ].

(* ================================================================== *)
(** * The k-UpCCGSD template: which wires, how many weights

    A shallow embedding of the functions of
    [pennylane/templates/subroutines/kupccgsd.py] that decide on which
    wires the excitations of the template act and how many weights it
    takes. *)

Module KUpCCGSD.

(** [range(n)] *)
Definition range (n : nat) : list nat := seq 0 n.

(** [range(0, stop, 2)] *)
Definition range_by_2 (stop : nat) : list nat :=
  map (fun i => 2 * i) (seq 0 ((stop + 1) / 2)).

(** [product(l, repeat=2)]: the first component varies slowest. *)
Definition product2 (l : list nat) : list (nat * nat) := list_prod l l.

(** [wires[a:b]] for [0 <= a] *)
Definition slice (wires : list Wire) (a b : nat) : list Wire :=
  firstn (b - a) (skipn a wires).

(** Twice [sz[i]], where [sz = 0.5 * (-1) ** arange(n)]: the entries of
    [sz] are 0.5 and -0.5, their differences -1, 0 and 1, all exact, so
    the test [sz[p] - sz[r] == delta_sz] is the test on the doubles. *)
Definition sz2 (i : nat) : Z := if Nat.even i then 1%Z else (-1)%Z.

Definition generalized_singles (wires : list Wire) (delta_sz : Z)
    : list (list Wire) :=
  let n := length wires in
  flat_map (fun rp =>
              let '(r, p) := rp in
              if ((sz2 p - sz2 r =? 2 * delta_sz)%Z && negb (p =? r)%nat)%bool
              then if (r <? p)%nat then [slice wires r (p + 1)]
                   else [rev (slice wires p (r + 1))]
              else [])
           (product2 (range n)).

(** [len(wires) - 1] is -1 for an empty list of wires, for which the
    range is empty as it is for 0. *)
Definition generalized_pair_doubles (wires : list Wire)
    : list (list Wire * list Wire) :=
  flat_map (fun rp =>
              let '(r, p) := rp in
              if negb (p =? r)%nat
              then [(slice wires r (r + 2), slice wires p (p + 2))]
              else [])
           (product2 (range_by_2 (length wires - 1))).

Inductive Error : Type :=
| TooFewWires (n : nat)
| OddWires (n : nat)
| BadK (k : Z)
| BadDeltaSz (delta_sz : Z)
| BadShape (expected got : Z * nat)
| BadInitState
| WireError.

Definition wire_eqb (a b : Wire) : bool :=
  match a, b with
  | WInt x, WInt y => Z.eqb x y
  | WStr s, WStr t => String.eqb s t
  | _, _ => false
  end.

(** Whether no label occurs twice. *)
Fixpoint unique (wires : list Wire) : bool :=
  match wires with
  | [] => true
  | w :: t => negb (existsb (wire_eqb w) t) && unique t
  end.

(** [kUpCCGSD.shape(k, n_wires, delta_sz)] *)
Definition shape (k : Z) (n_wires : nat) (delta_sz : Z)
    : Error + Z * nat :=
  if (n_wires <? 4)%nat then inl (TooFewWires n_wires)
  else if negb (n_wires mod 2 =? 0)%nat then inl (OddWires n_wires)
  else
    let s_wires := generalized_singles (map (fun i => WInt (Z.of_nat i))
                                            (range n_wires)) delta_sz in
    let d_wires := generalized_pair_doubles
                     (map (fun i => WInt (Z.of_nat i)) (range n_wires)) in
    inr (k, length s_wires + length d_wires).

(** The checks of [kUpCCGSD.__init__] and the hyperparameters it derives.
    [weights_shape] is [math.shape(weights)] and [init_state_is_int]
    whether the dtype of [init_state] is the integer one; both come from
    the array backend.  The last step, [super().__init__(weights,
    wires=wires, id=id)], is the constructor of the operator library: it
    builds [Wires(wires)], which raises [WireError] when a label occurs
    twice. *)
Definition init (weights_shape : Z * nat) (wires : list Wire) (k : Z)
    (delta_sz : Z) (init_state_is_int : bool)
    : Error + list (list Wire) * list (list Wire * list Wire) :=
  if (length wires <? 4)%nat then inl (TooFewWires (length wires))
  else if negb (length wires mod 2 =? 0)%nat then inl (OddWires (length wires))
  else if (k <? 1)%Z then inl (BadK k)
  else if negb (existsb (Z.eqb delta_sz) [(-1)%Z; 0%Z; 1%Z])
  then inl (BadDeltaSz delta_sz)
  else
    let s_wires := generalized_singles wires delta_sz in
    let d_wires := generalized_pair_doubles wires in
    let expected := (k, length s_wires + length d_wires) in
    if negb ((fst weights_shape =? fst expected)%Z
             && (snd weights_shape =? snd expected)%nat)
    then inl (BadShape expected weights_shape)
    else if negb init_state_is_int then inl BadInitState
    else if negb (unique wires) then inl WireError
    else inr (s_wires, d_wires).

(** The operators of the decomposition, with the position of their weight
    in the weights tensor; the basis embedding also takes the initial
    state, which plays no part below. *)
Inductive TemplateOp : Type :=
| BasisEmbedding (wires : list Wire)
| FermionicDoubleExcitation (layer index : nat) (wires1 wires2 : list Wire)
| FermionicSingleExcitation (layer index : nat) (wires : list Wire).

(** [enumerate(l)] *)
Definition enumerate {A : Type} (l : list A) : list (nat * A) :=
  combine (seq 0 (length l)) l.

(** [kUpCCGSD.compute_decomposition]: which operators, in which order,
    reading which entry [weights[layer][index]]. *)
Definition compute_decomposition (wires : list Wire)
    (s_wires : list (list Wire)) (d_wires : list (list Wire * list Wire))
    (k : nat) : list TemplateOp :=
  BasisEmbedding wires
    :: flat_map (fun layer =>
                   map (fun iw =>
                          FermionicDoubleExcitation layer
                            (length s_wires + fst iw)
                            (fst (snd iw)) (snd (snd iw)))
                       (enumerate d_wires)
                   ++ map (fun jw =>
                             FermionicSingleExcitation layer (fst jw)
                               (snd jw))
                        (enumerate s_wires))
                (range k).

(** The position read by an operator of the decomposition. *)
Definition weight_position (op : TemplateOp) : option (nat * nat) :=
  match op with
  | BasisEmbedding _ => None
  | FermionicDoubleExcitation layer index _ _ => Some (layer, index)
  | FermionicSingleExcitation layer index _ => Some (layer, index)
  end.

(** The test of [generalized_singles] on a pair of positions. *)
Definition selected (delta_sz : Z) (r p : nat) : bool :=
  ((sz2 p - sz2 r =? 2 * delta_sz)%Z && negb (p =? r)%nat)%bool.

(** The number of weights per layer for [2m] wires. *)
Definition weights_per_layer (m : nat) (delta_sz : Z) : nat :=
  (if (delta_sz =? 0)%Z then 2 * m * (m - 1)
   else if ((delta_sz =? 1)%Z || (delta_sz =? -1)%Z)%bool then m * m
   else 0)
  + m * (m - 1).

(** The positions of the weights tensor an operator reads. *)
Definition positions (ops : list TemplateOp) : list (nat * nat) :=
  flat_map (fun op => match weight_position op with
                      | Some p => [p]
                      | None => []
                      end) ops.

End KUpCCGSD.

(* ================================================================== *)
(** ** Properties of the resource accountant *)

Section Accountant.

Lemma str_app_assoc (a b c : string) :
  ((a ++ b) ++ c = a ++ (b ++ c))%string.
Proof. induction a as [| ch a IH]; simpl; [reflexivity | now rewrite IH]. Qed.

Lemma compose_name_adjoint_controls N k :
  0 < k ->
  compose_name N k true
  = ((if (k =? 1)%nat then "" else str_of_nat k)
       ++ "C(Adj(" ++ N ++ "))")%string.
Proof.
  intro Hk.
  assert (E : ("C(" ++ ("Adj(" ++ N ++ ")") ++ ")"
               = "C(Adj(" ++ N ++ "))")%string).
  { simpl. now rewrite str_app_assoc. }
  unfold compose_name.
  destruct k as [| [| k']]; [lia | exact E |].
  replace (0 <? S (S k'))%nat with true by reflexivity.
  replace (1 <? S (S k'))%nat with true by reflexivity.
  replace (S (S k') =? 1)%nat with false by reflexivity.
  now rewrite E.
Qed.

Lemma unwrap_terminal op controls adj :
  match fst (fst (unwrap op controls adj)) with
  | Plain _ | Composite _ _ => True
  | _ => False
  end.
Proof.
  revert controls adj.
  induction op as [n | cw b IH | b IH | n b IH]; intros controls adj;
    simpl; solve [exact I | apply IH].
Qed.

Lemma unwrap_wrap layers name controls adj :
  unwrap (wrap layers (Plain name)) controls adj
  = (Plain name, controls + total_controls layers,
     xorb adj (Nat.odd (adjoint_layers layers))).
Proof.
  revert controls adj.
  induction layers as [| [cw |] t IH]; intros controls adj; simpl.
  - now rewrite Nat.add_0_r, xorb_false_r.
  - rewrite IH. f_equal. f_equal. lia.
  - rewrite IH. f_equal. rewrite Nat.odd_succ, <- Nat.negb_odd.
    now destruct adj, (Nat.odd (adjoint_layers t)).
Qed.

Lemma account_op_counted gt op :
  account_op gt op = match counted_as op with
                     | Some n => incr gt n
                     | None => gt
                     end.
Proof.
  unfold account_op, counted_as.
  destruct (unwrap op 0 false) as [[op' controls] adj].
  now destruct (String.eqb (op_name op') "Barrier").
Qed.

Lemma fold_add_sum l a : fold_left Nat.add l a = a + list_sum l.
Proof.
  revert a. induction l as [| x t IH]; intro a; simpl.
  - lia.
  - rewrite IH. lia.
Qed.

Lemma sum_values_cons k v (d : PyDict string nat) :
  sum_values ((k, v) :: d) = v + sum_values d.
Proof. unfold sum_values. simpl. rewrite !fold_add_sum. lia. Qed.

Lemma sum_values_set (d : PyDict string nat) name v :
  sum_values (dict_set String.eqb d name v)
  = sum_values d + v
    - match dict_get String.eqb d name with Some o => o | None => 0 end.
Proof.
  induction d as [| [k o] t IH]; simpl.
  - rewrite sum_values_cons. unfold sum_values. simpl. lia.
  - destruct (String.eqb k name).
    + rewrite !sum_values_cons. lia.
    + rewrite !sum_values_cons, IH.
      assert (match dict_get String.eqb t name with
              | Some o0 => o0 | None => 0 end <= sum_values t).
      { clear. induction t as [| [k' o'] t IH]; simpl; [lia |].
        rewrite sum_values_cons.
        destruct (String.eqb k' name); lia. }
      lia.
Qed.

Lemma sum_values_incr gt name :
  sum_values (incr gt name) = S (sum_values gt).
Proof.
  unfold incr.
  destruct (dict_get String.eqb gt name) as [v |] eqn:E;
    rewrite sum_values_set, E; lia.
Qed.

Lemma dict_get_set (d : PyDict string nat) name v other :
  dict_get String.eqb (dict_set String.eqb d name v) other
  = if String.eqb name other then Some v
    else dict_get String.eqb d other.
Proof.
  induction d as [| [k o] t IH]; simpl.
  - reflexivity.
  - destruct (String.eqb k name) eqn:Ekn; simpl.
    + apply String.eqb_eq in Ekn. subst k.
      now destruct (String.eqb name other).
    + rewrite IH. destruct (String.eqb k other) eqn:Eko; [| reflexivity].
      apply String.eqb_eq in Eko. subst k.
      now rewrite String.eqb_sym, Ekn.
Qed.

Lemma count_of_incr gt name other :
  count_of (incr gt name) other
  = (if String.eqb name other then 1 else 0) + count_of gt other.
Proof.
  unfold count_of, incr.
  destruct (dict_get String.eqb gt name) as [v |] eqn:E;
    rewrite dict_get_set;
    destruct (String.eqb name other) eqn:En; try reflexivity;
    apply String.eqb_eq in En; subst other; rewrite E; simpl; lia.
Qed.

Lemma fold_account_sum ops gt :
  sum_values (fold_left account_op ops gt)
  = sum_values gt + length (filter is_counted ops).
Proof.
  revert gt. induction ops as [| op t IH]; intro gt; simpl.
  - lia.
  - rewrite IH, account_op_counted. unfold is_counted.
    destruct (counted_as op); simpl; [rewrite sum_values_incr |]; lia.
Qed.

Lemma fold_account_count ops gt name :
  count_of (fold_left account_op ops gt) name
  = count_of gt name + length (filter (counted_under name) ops).
Proof.
  revert gt. induction ops as [| op t IH]; intro gt; simpl.
  - lia.
  - rewrite IH, account_op_counted. unfold counted_under.
    destruct (counted_as op) as [n |]; simpl; [| lia].
    rewrite count_of_incr. destruct (String.eqb n name); simpl; lia.
Qed.

Lemma fold_account_app ops1 ops2 gt :
  fold_left account_op (ops1 ++ Plain "Barrier" :: ops2) gt
  = fold_left account_op (ops1 ++ ops2) gt.
Proof. now rewrite !fold_left_app. Qed.

End Accountant.

(** C1, as stated, fails: for the gate [X] under a two-wire control modifier
    wrapped in an adjoint modifier the accountant records the single entry
    ["2C(Adj(X))"], not ["Adj(2C(X))"]. *)
Lemma adjoint_outermost_name_refuted :
  gate_types (_simulate_resource_use adjoint_ctrl2_X) = [("2C(Adj(X))", 1)]
  /\ gate_types (_simulate_resource_use adjoint_ctrl2_X)
     <> [("Adj(2C(X))", 1)].
Proof. split; [reflexivity | discriminate]. Qed.

(** C1 (amended): a plain gate named [N], not a barrier, wrapped in modifier
    layers with [k > 0] control wires in total and an odd number of adjoint
    layers (one in particular) is counted under the name with the control
    form outermost around the adjoint wrapper, ["kC(Adj(N))"], the prefix
    [k] omitted when [k = 1]; a circuit made of that operation alone has the
    histogram with this single entry, counted once. *)
Theorem composed_name_control_outside_adjoint :
  forall (layers : list Modifier) (N : string) (k : nat),
    N <> "Barrier" ->
    total_controls layers = k ->
    0 < k ->
    Nat.odd (adjoint_layers layers) = true ->
    let name :=
      ((if (k =? 1)%nat then "" else str_of_nat k)
         ++ "C(Adj(" ++ N ++ "))")%string in
    (forall gt, account_op gt (wrap layers (Plain N)) = incr gt name)
    /\ (forall c, operations c = [wrap layers (Plain N)] ->
          gate_types (_simulate_resource_use c) = [(name, 1)]).
Proof.
  intros layers N k HN Hk Hpos Hodd name.
  assert (Hacc : forall gt, account_op gt (wrap layers (Plain N))
                            = incr gt name).
  { intro gt. unfold account_op. rewrite unwrap_wrap, Hk, Hodd. simpl.
    apply String.eqb_neq in HN. rewrite HN.
    now rewrite compose_name_adjoint_controls. }
  split; [exact Hacc |].
  intros c Hc. unfold _simulate_resource_use. rewrite Hc. simpl.
  now rewrite Hacc.
Qed.

Lemma composed_name_control_outside_adjoint_witness :
  (forall gt,
      account_op gt (wrap [Adj; Ctrl [WInt 1; WInt 2]] (Plain "X"))
      = incr gt "2C(Adj(X))")
  /\ (forall c,
        operations c = [wrap [Adj; Ctrl [WInt 1; WInt 2]] (Plain "X")] ->
        gate_types (_simulate_resource_use c) = [("2C(Adj(X))", 1)]).
Proof.
  apply (composed_name_control_outside_adjoint
           [Adj; Ctrl [WInt 1; WInt 2]] "X" 2).
  - discriminate.
  - reflexivity.
  - lia.
  - reflexivity.
Defined.

(* ================================================================== *)
(** ** Normalising the execution configuration *)

(** C2, as stated, fails: for the method ["best"] with the three booleans
    unset, [preprocess] returns a configuration whose
    [use_device_jacobian_product] and [grad_on_execution] are false, not
    true; both are derived from the method the caller gave. *)
Lemma derived_flags_all_true_refuted :
  exists h' r' config',
    preprocess null_qubit [config_best] 0 = Some (h', r')
    /\ deref h' r' = Some config'
    /\ gradient_method config' = Some "device"
    /\ use_device_gradient config' = Some true
    /\ use_device_jacobian_product config' <> Some true
    /\ grad_on_execution config' <> Some true.
Proof.
  eexists. eexists. eexists.
  split; [reflexivity |].
  split; [reflexivity |].
  repeat split; simpl; discriminate.
Qed.

Lemma deref_app_old (h : Heap) (c : ExecutionConfig) (q : ref)
    (old : ExecutionConfig) :
  deref h q = Some old -> deref (h ++ [c]) q = Some old.
Proof.
  unfold deref. intro H. rewrite nth_error_app1; [exact H |].
  apply nth_error_Some. congruence.
Qed.

Lemma deref_app_new (h : Heap) (c : ExecutionConfig) :
  deref (h ++ [c]) (length h) = Some c.
Proof.
  unfold deref. rewrite nth_error_app2 by lia.
  now rewrite Nat.sub_diag.
Qed.

(** C2 (amended): for a configuration whose gradient method is ["best"] or
    ["adjoint"] and whose three booleans are unset, [preprocess] returns a
    configuration whose gradient method is ["device"], whose
    [use_device_gradient] is true and whose [use_device_jacobian_product]
    and [grad_on_execution] are false, the three being derived from the
    method the caller gave and not from the forced one; the returned
    configuration is a new object, and the caller's configuration, like
    every object that existed before the call, is left as it was. *)
Theorem preprocess_normalises_config :
  forall (self : NullQubit) (h : Heap) (r : ref) (config : ExecutionConfig),
    deref h r = Some config ->
    gradient_method config = Some "best"
    \/ gradient_method config = Some "adjoint" ->
    use_device_gradient config = None ->
    use_device_jacobian_product config = None ->
    grad_on_execution config = None ->
    exists h' r',
      preprocess self h r = Some (h', r')
      /\ r' <> r
      /\ deref h r' = None
      /\ (forall q old, deref h q = Some old -> deref h' q = Some old)
      /\ deref h' r'
         = Some {| gradient_method := Some "device";
                   interface_like := interface_like config;
                   use_device_gradient := Some true;
                   use_device_jacobian_product := Some false;
                   grad_on_execution := Some false |}.
Proof.
  intros self h r config Hr Hgm Hg Hj He.
  unfold preprocess. rewrite Hr. unfold replace.
  eexists. eexists. split; [reflexivity |].
  assert (Hlt : r < length h).
  { apply nth_error_Some. unfold deref in Hr. congruence. }
  split; [lia |].
  split; [apply nth_error_None; lia |].
  split; [intros q old Hq; now apply deref_app_old |].
  rewrite deref_app_new, Hg, Hj, He.
  destruct Hgm as [Hgm | Hgm]; rewrite Hgm; reflexivity.
Qed.

Lemma preprocess_normalises_config_witness :
  exists h' r',
    preprocess null_qubit [config_best] 0 = Some (h', r')
    /\ r' <> 0
    /\ deref [config_best] r' = None
    /\ (forall q old,
          deref [config_best] q = Some old -> deref h' q = Some old)
    /\ deref h' r'
       = Some {| gradient_method := Some "device";
                 interface_like := "numpy";
                 use_device_gradient := Some true;
                 use_device_jacobian_product := Some false;
                 grad_on_execution := Some false |}.
Proof.
  apply (preprocess_normalises_config null_qubit [config_best] 0
           config_best).
  - reflexivity.
  - left. reflexivity.
  - reflexivity.
  - reflexivity.
  - reflexivity.
Defined.

(* ================================================================== *)
(** ** Trivial Jacobian products *)

Lemma Forall2_map_self {A B : Type} (P : A -> B -> Prop) (f : A -> B)
    (l : list A) :
  (forall x, P x (f x)) -> Forall2 P l (map f l).
Proof. intro H. induction l; simpl; constructor; auto. Qed.

Lemma Forall_repeat {A : Type} (P : A -> Prop) (x : A) (n : nat) :
  P x -> Forall P (repeat x n).
Proof. intro H. induction n; simpl; constructor; auto. Qed.

Lemma zero_array_zeros shape like dt :
  zero_array shape (RArray (math_zeros shape like dt)).
Proof.
  exists (math_zeros shape like dt). simpl.
  repeat split.
  - apply repeat_length.
  - now apply Forall_repeat.
Qed.

Lemma zero_array_scalar like :
  zero_array [] (RArray (math_asarray_float 0 like)).
Proof.
  exists (math_asarray_float 0 like). simpl.
  repeat split. constructor; [reflexivity | constructor].
Qed.

Lemma _jvp_value circuit interface :
  jvp_value (length (measurements circuit)) (_jvp circuit interface).
Proof.
  unfold jvp_value, _jvp.
  destruct (measurements circuit) as [| mp [| mp' rest]]; simpl.
  - exists []. repeat split. constructor.
  - apply zero_array_scalar.
  - eexists. split; [reflexivity |]. split.
    + simpl. now rewrite repeat_length.
    + repeat constructor; try apply zero_array_scalar.
      apply Forall_repeat, zero_array_scalar.
Qed.

(** C3, as stated, fails for [compute_jvp]: for a circuit with two
    trainable parameters, one measurement and no batch size it returns a
    zero scalar, not an array of shape (2,). *)
Lemma jvp_sized_by_parameters_refuted :
  compute_jvp null_qubit [two_params] [] config_best
  = [RArray (math_asarray_float 0 "numpy")]
  /\ ~ Forall2
        (fun c r =>
           zero_array (vjp_shape (length (trainable_params c))
                                 (batch_size c)) r)
        [two_params]
        (compute_jvp null_qubit [two_params] [] config_best).
Proof.
  split; [reflexivity |].
  intro H. inversion H as [| c r cs rs Hr _]; subst.
  destruct Hr as (a & Ha & Hshape & _).
  inversion Ha; subst a. discriminate Hshape.
Qed.

(** C3 (amended): [compute_vjp] returns, per circuit, an all-zero array of
    shape (n,) when the batch size is None and (n, b) when it is b, n being
    the number of trainable parameters; [compute_jvp] returns, per circuit,
    one zero scalar per measurement (the scalar itself for a single
    measurement, a tuple otherwise), whatever n and b are; neither result
    depends on the cotangents or tangents supplied. *)
Theorem jacobian_products_are_zeros :
  forall (self : NullQubit) (circuits : list Circuit)
         (execution_config : ExecutionConfig),
    (forall cotangents cotangents',
        compute_vjp self circuits cotangents execution_config
        = compute_vjp self circuits cotangents' execution_config)
    /\ (forall cotangents,
          Forall2
            (fun c r =>
               zero_array (vjp_shape (length (trainable_params c))
                                     (batch_size c)) r)
            circuits
            (compute_vjp self circuits cotangents execution_config))
    /\ (forall tangents tangents',
          compute_jvp self circuits tangents execution_config
          = compute_jvp self circuits tangents' execution_config)
    /\ (forall tangents,
          Forall2 (fun c r => jvp_value (length (measurements c)) r)
            circuits
            (compute_jvp self circuits tangents execution_config)).
Proof.
  intros self circuits execution_config.
  split; [reflexivity |].
  split.
  - intro cotangents. apply Forall2_map_self. intro c.
    unfold _vjp, vjp_shape.
    destruct (batch_size c); apply zero_array_zeros.
  - split; [reflexivity |].
    intro tangents. apply Forall2_map_self. intro c. apply _jvp_value.
Qed.

(* ================================================================== *)
(** ** The cache is transparent *)

Section Shapes.

Lemma int_shape_ints s : int_shape (map DInt s) = Some s.
Proof. induction s as [| x s IH]; simpl; [reflexivity | now rewrite IH]. Qed.

Lemma int_shape_shots dims sh : In (DShots sh) dims -> int_shape dims = None.
Proof.
  induction dims as [| [x | sh'] t IH]; simpl; [tauto | | reflexivity].
  intros [H | H]; [discriminate | now rewrite IH].
Qed.

Lemma int_shape_some dims s : int_shape dims = Some s -> dims = map DInt s.
Proof.
  revert s. induction dims as [| [x | sh] t IH]; simpl; intros s H.
  - now injection H as <-.
  - destruct (int_shape t) as [s' |]; [| discriminate].
    injection H as <-. simpl. now rewrite (IH s' eq_refl).
  - discriminate.
Qed.

Lemma int_shape_none dims :
  int_shape dims = None -> exists sh, In (DShots sh) dims.
Proof.
  induction dims as [| [x | sh] t IH]; simpl; intro H.
  - discriminate.
  - destruct (int_shape t); [discriminate |].
    destruct (IH eq_refl) as [sh Hsh]. exists sh. now right.
  - exists sh. now left.
Qed.

Lemma with_batch_ints batch_size s :
  with_batch batch_size (map DInt s)
  = map DInt (match batch_size with
              | Some b => b :: s
              | None => s
              end).
Proof. now destruct batch_size. Qed.

Lemma with_batch_shots batch_size dims sh :
  In (DShots sh) dims <-> In (DShots sh) (with_batch batch_size dims).
Proof.
  destruct batch_size; simpl; [| tauto].
  split; [tauto | now intros [H | H]].
Qed.

End Shapes.

Section Refinement.

Lemma shape_eqb_eq a b : shape_eqb a b = true -> a = b.
Proof.
  revert b. induction a as [| x a IH]; intros [| y b]; simpl;
    try discriminate; [reflexivity |].
  intro H. apply andb_prop in H. destruct H as [Hx Hab].
  apply Nat.eqb_eq in Hx. now rewrite Hx, (IH b Hab).
Qed.

Lemma dtype_eqb_eq a b : dtype_eqb a b = true -> a = b.
Proof. destruct a, b; simpl; congruence. Qed.

Lemma key_eqb_eq a b : key_eqb a b = true -> a = b.
Proof.
  destruct a as [[s1 i1] d1], b as [[s2 i2] d2]. simpl. intro H.
  apply andb_prop in H. destruct H as [H Hd].
  apply andb_prop in H. destruct H as [Hs Hi].
  apply shape_eqb_eq in Hs. apply String.eqb_eq in Hi.
  apply dtype_eqb_eq in Hd. congruence.
Qed.

Lemma cache_hit c k v :
  cache_ok c -> dict_get key_eqb c k = Some v -> v = zeros_of_key k.
Proof.
  intros Hok. induction Hok as [| [k' v'] t Hkv _ IH]; simpl.
  - discriminate.
  - destruct (key_eqb k' k) eqn:E.
    + intro H. apply key_eqb_eq in E. simpl in Hkv. congruence.
    + exact IH.
Qed.

Lemma cache_ok_remove c k : cache_ok c -> cache_ok (cache_remove k c).
Proof.
  intros Hok. induction Hok as [| [k' v'] t Hkv Ht IH]; simpl.
  - constructor.
  - destruct (key_eqb k' k); [exact Ht | now constructor].
Qed.

Lemma cache_ok_firstn c n : cache_ok c -> cache_ok (firstn n c).
Proof.
  intro Hok. revert n. induction Hok as [| kv t Hkv _ IH]; intros [| n];
    simpl; constructor; [exact Hkv | apply IH].
Qed.

Lemma cache_step_refl w : cache_ok (zero_cache w) -> cache_step w w.
Proof. intro H. repeat split; assumption. Qed.

Lemma cache_step_trans w1 w2 w3 :
  cache_step w1 w2 -> cache_step w2 w3 -> cache_step w1 w3.
Proof.
  intros (_ & Hc & Hr & Hf) (Hok & Hc' & Hr' & Hf').
  repeat split; congruence.
Qed.

Lemma refines_ret {A : Type} (a : A) : refines (ret a) (inr a).
Proof. intros w Hw. split; [reflexivity | now apply cache_step_refl]. Qed.

Lemma refines_lift {A : Type} (r : Exn + A) : refines (lift r) r.
Proof. intros w Hw. split; [reflexivity | now apply cache_step_refl]. Qed.

Lemma refines_first {A : Type} (l : list A) : refines (first l) (firstE l).
Proof.
  destruct l; intros w Hw; (split; [reflexivity | now apply cache_step_refl]).
Qed.

Lemma refines_bind {A B : Type} (m : M A) (r : Exn + A) (k : A -> M B)
    (k' : A -> Exn + B) :
  refines m r -> (forall a, refines (k a) (k' a)) ->
  refines (bind m k) (bindE r k').
Proof.
  intros Hm Hk w Hw. unfold bind.
  destruct (Hm w Hw) as [Hfst Hstep].
  destruct (m w) as [[e | a] w1]; simpl in *; subst r; simpl.
  - split; [reflexivity | exact Hstep].
  - destruct (Hk a w1 (proj1 Hstep)) as [Hfst' Hstep'].
    split; [exact Hfst' | eapply cache_step_trans; eassumption].
Qed.

Lemma refines_mapM {A B : Type} (f : A -> M B) (g : A -> Exn + B)
    (l : list A) :
  (forall x, refines (f x) (g x)) -> refines (mapM f l) (mapE g l).
Proof.
  intro H. induction l as [| x t IH]; simpl.
  - apply refines_ret.
  - apply refines_bind; [apply H |]. intro y.
    apply refines_bind; [exact IH |]. intro ys. apply refines_ret.
Qed.

Lemma refines_cached_zero_return shape interface dt :
  refines (_cached_zero_return shape interface dt)
          (math_zeros_tuple shape interface dt).
Proof.
  intros w Hw. unfold _cached_zero_return, math_zeros_tuple.
  destruct (int_shape shape) as [ishape |];
    [| split; [reflexivity | now apply cache_step_refl]].
  destruct (dict_get key_eqb (zero_cache w) (ishape, interface, dt))
    as [v |] eqn:E; cbn [fst snd].
  - pose proof (cache_hit _ _ _ Hw E) as Hv. simpl in Hv. subst v.
    split; [reflexivity |].
    unfold cache_step; cbn [zero_cache clock reads files].
    repeat split.
    constructor; [reflexivity | now apply cache_ok_remove].
  - split; [reflexivity |].
    unfold cache_step; cbn [zero_cache clock reads files].
    repeat split.
    apply cache_ok_firstn. now constructor.
Qed.

Lemma refines_zero_measurement mp n shots batch_size interface :
  refines (zero_measurement mp n shots batch_size interface)
          (zero_value mp n shots batch_size interface).
Proof.
  assert (Hdefault :
            refines (_zero_measurement mp n shots batch_size interface)
              (default_zero mp n shots batch_size interface)).
  { unfold _zero_measurement, default_zero.
    apply refines_bind; [apply refines_lift |]. intro dims.
    destruct (contains "jax" interface); simpl.
    - apply refines_bind; [apply refines_lift |].
      intro a. apply refines_ret.
    - apply refines_bind; [apply refines_cached_zero_return |].
      intro a. apply refines_ret. }
  unfold zero_measurement, zero_value.
  destruct (mp_kind mp); try exact Hdefault;
    try apply refines_lift; apply refines_ret.
Qed.

End Refinement.

(* ================================================================== *)
(** ** Simulation and execution *)

Section Execution.

Lemma _simulate_track self circuit interface :
  _simulate self circuit interface
  = (track self circuit ;;;
     simulate_body (num_device_wires_of self circuit) circuit interface).
Proof. reflexivity. Qed.

Lemma refines_simulate_body n circuit interface :
  refines (simulate_body n circuit interface)
          (simulate_value n circuit interface).
Proof.
  unfold simulate_body, simulate_value.
  apply refines_bind.
  - apply refines_mapM. intro s. apply refines_bind.
    + apply refines_mapM. intro mp. apply refines_zero_measurement.
    + intro r. destruct (length (measurements circuit) =? 1)%nat;
        [apply refines_first | apply refines_ret].
  - intro results. destruct (has_partitioned_shots (shots circuit));
      [apply refines_ret | apply refines_first].
Qed.

Lemma refines_simulate_untracked self circuit interface :
  track_resources self = false ->
  refines (_simulate self circuit interface)
          (simulate_value (num_device_wires_of self circuit) circuit
             interface).
Proof.
  intros Htrack w Hw. rewrite _simulate_track. unfold bind, track.
  rewrite Htrack. simpl. now apply refines_simulate_body.
Qed.

(** One tracked simulation: either the file exists already, or the report
    is written under the name of the current clock reading and the value
    is that of the untracked simulation. *)
Lemma _simulate_tracked self circuit interface w :
  track_resources self = true ->
  cache_ok (zero_cache w) ->
  let w' := snd (_simulate self circuit interface w) in
  let fname := resources_fname (clock w (reads w)) in
  cache_ok (zero_cache w')
  /\ clock w' = clock w
  /\ reads w' = S (reads w)
  /\ match fst (_simulate self circuit interface w) with
     | inl e =>
         e = FileExistsError fname
         \/ (simulate_value (num_device_wires_of self circuit) circuit
               interface = inl e)
     | inr r =>
         simulate_value (num_device_wires_of self circuit) circuit interface
         = inr r
         /\ files w' = files w ++ [(fname, _simulate_resource_use circuit)]
     end.
Proof.
  intros Htrack Hw. rewrite _simulate_track.
  unfold bind, track. rewrite Htrack. unfold bind, time_ns, open_x_dump.
  cbn [clock reads files zero_cache].
  destruct (dict_get String.eqb (files w)
              (resources_fname (clock w (reads w)))) as [old |] eqn:E.
  - cbn. repeat split; auto.
  - match goal with
    | |- context [simulate_body ?n ?c ?i ?w1] =>
        destruct (refines_simulate_body n c i w1 Hw) as [Hv (Hok & Hc & Hr & Hf)];
        destruct (simulate_body n c i w1) as [[e | r] w2]
    end; cbn in *; subst; repeat split; auto.
Qed.

Lemma execute_cons self c circuits execution_config :
  execute self (c :: circuits) execution_config
  = (y <- _simulate self c (_interface execution_config) ;;
     ys <- execute self circuits execution_config ;;
     ret (y :: ys)).
Proof. reflexivity. Qed.

Lemma refines_execute_untracked self circuits execution_config :
  track_resources self = false ->
  refines (execute self circuits execution_config)
          (execute_value self circuits execution_config).
Proof.
  intro Htrack. unfold execute, execute_value. apply refines_mapM.
  intro c. now apply refines_simulate_untracked.
Qed.

Lemma execute_tracked self circuits execution_config :
  track_resources self = true ->
  forall w,
    cache_ok (zero_cache w) ->
    let w' := snd (execute self circuits execution_config w) in
    cache_ok (zero_cache w')
    /\ clock w' = clock w
    /\ match fst (execute self circuits execution_config w) with
       | inl e =>
           (exists fname, e = FileExistsError fname)
           \/ execute_value self circuits execution_config = inl e
       | inr rs =>
           execute_value self circuits execution_config = inr rs
           /\ files w' = files w ++ written (clock w) (reads w) circuits
           /\ reads w' = reads w + length circuits
       end.
Proof.
  intro Htrack. induction circuits as [| c t IH]; intros w Hw.
  - cbn. rewrite app_nil_r, Nat.add_0_r. repeat split; auto.
  - rewrite execute_cons. unfold bind.
    pose proof (_simulate_tracked self c (_interface execution_config) w
                  Htrack Hw) as H.
    cbv zeta in H.
    destruct (_simulate self c (_interface execution_config) w)
      as [[e | r] w1]; cbn [fst snd] in *.
    + destruct H as (Hok & Hc & _ & [He | He]);
        (split; [exact Hok | split; [exact Hc |]]).
      * left. now exists (resources_fname (clock w (reads w))).
      * right. unfold execute_value. cbn [mapE]. now rewrite He.
    + destruct H as (Hok & Hc & Hr & Hv & Hf).
      specialize (IH w1 Hok). cbv zeta in IH.
      unfold execute_value in *. cbn [mapE]. rewrite Hv. cbn [bindE].
      destruct (execute self t execution_config w1) as [[e | rs] w2];
        cbn [fst snd ret] in *.
      * destruct IH as (Hok2 & Hc2 & [He | He]);
          (split; [exact Hok2 | split; [congruence |]]).
        -- now left.
        -- right. now rewrite He.
      * destruct IH as (Hok2 & Hc2 & Hv2 & Hf2 & Hr2).
        split; [exact Hok2 | split; [congruence |]].
        rewrite Hv2. cbn [bindE length written].
        split; [reflexivity |]. split; [| lia].
        rewrite Hf2, Hf, Hc, Hr, <- app_assoc. reflexivity.
Qed.

Lemma map_snd_written clk k circuits :
  map snd (written clk k circuits) = map _simulate_resource_use circuits.
Proof.
  revert k. induction circuits as [| c t IH]; intro k; simpl;
    [reflexivity | now rewrite IH].
Qed.

(** Whatever the tracking: a sound cache stays sound, a returned result is
    the value of [execute], and the files created are those of [written]. *)
Lemma execute_outcome self circuits execution_config w :
  cache_ok (zero_cache w) ->
  let w' := snd (execute self circuits execution_config w) in
  cache_ok (zero_cache w')
  /\ (forall rs,
        fst (execute self circuits execution_config w) = inr rs ->
        execute_value self circuits execution_config = inr rs
        /\ files w'
           = files w ++ (if track_resources self
                         then written (clock w) (reads w) circuits
                         else [])).
Proof.
  intros Hw w'. subst w'.
  destruct (track_resources self) eqn:Htrack.
  - pose proof (execute_tracked self circuits execution_config Htrack w Hw)
      as H. cbv zeta in H. destruct H as (Hok & _ & H).
    split; [exact Hok |]. intros rs Hrs. rewrite Hrs in H. tauto.
  - destruct (refines_execute_untracked self circuits execution_config
                Htrack w Hw) as [Hv (Hok & _ & _ & Hf)].
    split; [exact Hok |]. intros rs Hrs.
    split; [congruence | now rewrite app_nil_r].
Qed.


Lemma mapE_inr {A B : Type} (f : A -> Exn + B) (l : list A) (ys : list B) :
  mapE f l = inr ys <-> Forall2 (fun x y => f x = inr y) l ys.
Proof.
  revert ys. induction l as [| x t IH]; intro ys; simpl.
  - split.
    + intro H. injection H as <-. constructor.
    + intro H. inversion H. reflexivity.
  - destruct (f x) as [e | y] eqn:Ex; simpl.
    + split; [discriminate |]. intro H.
      inversion H as [| x' y' t' ys' Hxy _]; subst. congruence.
    + destruct (mapE f t) as [e | ys0] eqn:Et; simpl.
      * split; [discriminate |]. intro H.
        inversion H as [| x' y' t' ys' _ Ht]; subst.
        apply IH in Ht. discriminate.
      * split.
        -- intro H. injection H as <-. constructor; [exact Ex |].
           now apply IH.
        -- intro H. inversion H as [| x' y' t' ys' Hxy Ht]; subst.
           apply IH in Ht. congruence.
Qed.

Lemma per_shot_value_iff n c interface s r :
  bindE (mapE (fun mp => zero_value mp n s (batch_size c) interface)
              (measurements c))
        (fun r => if (length (measurements c) =? 1)%nat then firstE r
                  else inr (RTuple r)) = inr r
  <-> per_shot_value n c interface s r.
Proof.
  unfold per_shot_value.
  set (f := fun mp => zero_value mp n s (batch_size c) interface).
  assert (Htuple :
            forall mps,
              bindE (mapE f mps) (fun r => inr (RTuple r)) = inr r
              <-> exists vs, r = RTuple vs
                             /\ Forall2 (fun mp v => f mp = inr v) mps vs).
  { intro mps. destruct (mapE f mps) as [e | vs] eqn:E; simpl.
    - split; [discriminate |]. intros (vs & _ & Hvs).
      apply mapE_inr in Hvs. congruence.
    - split.
      + intro H. injection H as <-. exists vs.
        split; [reflexivity | now apply mapE_inr].
      + intros (vs' & -> & Hvs). apply mapE_inr in Hvs. congruence. }
  destruct (measurements c) as [| mp [| mp' rest]].
  - apply (Htuple []).
  - cbn. fold (f mp). destruct (f mp) as [e | v]; cbn.
    + split; discriminate.
    + reflexivity.
  - apply (Htuple (mp :: mp' :: rest)).
Qed.

Lemma simulate_value_iff n c interface r :
  simulate_value n c interface = inr r
  <-> per_circuit_value n c interface r.
Proof.
  unfold simulate_value, per_circuit_value.
  set (g := fun s =>
              bindE (mapE (fun mp => zero_value mp n s (batch_size c)
                                       interface) (measurements c))
                (fun r => if (length (measurements c) =? 1)%nat
                          then firstE r else inr (RTuple r))).
  assert (Hone : forall s,
             bindE (mapE g [s]) (fun results => firstE results) = inr r
             <-> per_shot_value n c interface s r).
  { intro s. cbn. rewrite <- per_shot_value_iff. fold (g s).
    destruct (g s) as [e | v]; cbn; [split; discriminate | reflexivity]. }
  destruct (shots c) as [| k | l]; cbn [shots_or_none shots_truthy
    shots_iter has_partitioned_shots map].
  - apply Hone.
  - apply Hone.
  - destruct (mapE g (map ArgInt l)) as [e | rs] eqn:E; cbn.
    + split; [discriminate |]. intros (rs & _ & Hrs).
      assert (mapE g (map ArgInt l) = inr rs); [| congruence].
      apply mapE_inr. clear E. induction Hrs; simpl; constructor; auto.
      now apply per_shot_value_iff.
    + apply mapE_inr in E.
      assert (Hrs : Forall2 (fun s r' =>
                               per_shot_value n c interface (ArgInt s) r')
                      l rs).
      { clear - E. revert rs E. induction l as [| s t IH]; intros rs E;
          inversion E; subst; constructor.
        - now apply per_shot_value_iff.
        - now apply IH. }
      split.
      * intro H. injection H as <-. now exists rs.
      * intros (rs' & -> & Hrs'). f_equal. f_equal.
        clear - Hrs Hrs'. revert rs' Hrs'.
        induction Hrs as [| s r0 t rs Hr _ IH]; intros rs' Hrs';
          inversion Hrs' as [| s' r1 t' rs1 Hr1 Ht1]; subst;
          [reflexivity |].
        f_equal; [| now apply IH].
        apply per_shot_value_iff in Hr, Hr1. congruence.
Qed.

Lemma execute_value_iff self circuits execution_config rs :
  execute_value self circuits execution_config = inr rs
  <-> Forall2 (fun c r =>
                 per_circuit_value (num_device_wires_of self c) c
                   (_interface execution_config) r) circuits rs.
Proof.
  unfold execute_value. rewrite mapE_inr.
  split; intro H; induction H; constructor; auto;
    now apply simulate_value_iff.
Qed.

End Execution.

(* ================================================================== *)
(** ** The shape of what [execute] returns *)

(** C6: the result of [execute] has one entry per input circuit, in input
    order; the entry of a circuit is one result per partition, in partition
    order, when its shots are partitioned, and a single result otherwise;
    each such result is the value of the single measurement itself when
    exactly one is requested, and otherwise the tuple of the values of the
    measurements in their order.  Every returned result has this form, and
    without resource tracking every result of this form is returned. *)
Theorem execute_result_structure :
  forall (self : NullQubit) (circuits : list Circuit)
         (execution_config : ExecutionConfig) (w : World),
    cache_ok (zero_cache w) ->
    (forall rs,
        fst (execute self circuits execution_config w) = inr rs ->
        Forall2 (fun c r =>
                   per_circuit_value (num_device_wires_of self c) c
                     (_interface execution_config) r) circuits rs)
    /\ (track_resources self = false ->
        forall rs,
          Forall2 (fun c r =>
                     per_circuit_value (num_device_wires_of self c) c
                       (_interface execution_config) r) circuits rs ->
          fst (execute self circuits execution_config w) = inr rs).
Proof.
  intros self circuits execution_config w Hw. split.
  - intros rs Hrs. apply execute_value_iff.
    now apply (execute_outcome self circuits execution_config w Hw).
  - intros Htrack rs Hrs. apply execute_value_iff in Hrs.
    destruct (refines_execute_untracked self circuits execution_config
                Htrack w Hw) as [Hv _].
    congruence.
Qed.

Lemma execute_result_structure_witness :
  (forall rs,
      fst (execute tracking_qubit [two_params; two_params] config_best
             world0) = inr rs ->
      Forall2 (fun c r =>
                 per_circuit_value (num_device_wires_of tracking_qubit c) c
                   (_interface config_best) r)
        [two_params; two_params] rs)
  /\ (track_resources tracking_qubit = false ->
      forall rs,
        Forall2 (fun c r =>
                   per_circuit_value (num_device_wires_of tracking_qubit c) c
                     (_interface config_best) r)
          [two_params; two_params] rs ->
        fst (execute tracking_qubit [two_params; two_params] config_best
               world0) = inr rs).
Proof.
  apply (execute_result_structure tracking_qubit [two_params; two_params]
           config_best world0).
  simpl. constructor.
Defined.

(* ================================================================== *)
(** ** Executing twice *)




(* ================================================================== *)
(** ** The device wire count *)

Lemma num_device_wires_effective self c :
  num_device_wires_of self c = effective_wires self c.
Proof.
  unfold num_device_wires_of, effective_wires.
  destruct (dev_wires self) as [[| w ws] |]; reflexivity.
Qed.

Lemma refines_derivatives zeros_like self circuit interface :
  refines (_derivatives zeros_like self circuit interface)
          (derivatives_value zeros_like (num_device_wires_of self circuit)
             circuit interface).
Proof.
  unfold _derivatives, derivatives_value.
  apply refines_bind.
  - apply refines_mapM. intro mp.
    apply refines_bind; [apply refines_zero_measurement |].
    intro z. apply refines_ret.
  - intro derivatives. apply refines_bind.
    + destruct (length (trainable_params circuit) =? 1)%nat.
      * apply refines_mapM. intro d. apply refines_first.
      * apply refines_ret.
    + intro ds. destruct (length ds =? 1)%nat;
        [apply refines_first | apply refines_ret].
Qed.

Lemma _simulate_returns self circuit interface w r :
  cache_ok (zero_cache w) ->
  fst (_simulate self circuit interface w) = inr r ->
  simulate_value (num_device_wires_of self circuit) circuit interface
  = inr r.
Proof.
  intros Hw Hr. destruct (track_resources self) eqn:Htrack.
  - pose proof (_simulate_tracked self circuit interface w Htrack Hw) as H.
    cbv zeta in H. rewrite Hr in H. tauto.
  - destruct (refines_simulate_untracked self circuit interface Htrack w Hw)
      as [Hv _].
    congruence.
Qed.

(** C10: the wire count with which a circuit's results and derivatives are
    shaped is the number of wires of the device when it has some and the
    number of wires of the executed circuit otherwise: what [_simulate]
    returns is the value for that count (and without resource tracking it
    returns exactly that value, exceptions included), and so is what
    [_derivatives] yields; a device constructed without wires shapes the
    results of every circuit of a batch by that circuit's own wire set. *)
Theorem device_wire_count_fallback :
  forall (zeros_like : Result -> Result) (self : NullQubit) (c : Circuit)
         (interface : string) (w : World),
    cache_ok (zero_cache w) ->
    (forall r,
        fst (_simulate self c interface w) = inr r ->
        simulate_value (effective_wires self c) c interface = inr r)
    /\ (track_resources self = false ->
        fst (_simulate self c interface w)
        = simulate_value (effective_wires self c) c interface)
    /\ fst (_derivatives zeros_like self c interface w)
       = derivatives_value zeros_like (effective_wires self c) c interface
    /\ (dev_wires self = None ->
        forall circuits execution_config rs,
          fst (execute self circuits execution_config w) = inr rs ->
          Forall2 (fun c r =>
                     per_circuit_value (length (wires c)) c
                       (_interface execution_config) r) circuits rs).
Proof.
  intros zeros_like self c interface w Hw.
  rewrite <- num_device_wires_effective.
  split; [| split; [| split]].
  - intros r Hr. now apply (_simulate_returns self c interface w).
  - intro Htrack.
    now destruct (refines_simulate_untracked self c interface Htrack w Hw).
  - now destruct (refines_derivatives zeros_like self c interface w Hw).
  - intros Hnone circuits execution_config rs Hrs.
    apply (execute_outcome self circuits execution_config w Hw) in Hrs.
    destruct Hrs as [Hv _]. apply execute_value_iff in Hv.
    clear - Hv Hnone. induction Hv as [| c r cs rs Hcr _ IH];
      constructor; [| exact IH].
    unfold num_device_wires_of in Hcr. now rewrite Hnone in Hcr.
Qed.

Lemma device_wire_count_fallback_witness :
  (forall r,
      fst (_simulate null_qubit two_params "numpy" world0) = inr r ->
      simulate_value (effective_wires null_qubit two_params) two_params
        "numpy" = inr r)
  /\ (track_resources null_qubit = false ->
      fst (_simulate null_qubit two_params "numpy" world0)
      = simulate_value (effective_wires null_qubit two_params) two_params
          "numpy")
  /\ fst (_derivatives (fun r => r) null_qubit two_params "numpy" world0)
     = derivatives_value (fun r => r)
         (effective_wires null_qubit two_params) two_params "numpy"
  /\ (dev_wires null_qubit = None ->
      forall circuits execution_config rs,
        fst (execute null_qubit circuits execution_config world0) = inr rs ->
        Forall2 (fun c r =>
                   per_circuit_value (length (wires c)) c
                     (_interface execution_config) r) circuits rs).
Proof.
  apply (device_wire_count_fallback (fun r => r) null_qubit two_params
           "numpy" world0).
  simpl. constructor.
Defined.

(* ================================================================== *)
(** ** Zero results of the measurement kinds *)

Lemma map_seq_zero (start len : nat) :
  map (fun i => if (i =? 0)%nat then 1%Z else 0%Z) (seq (S start) len)
  = repeat 0%Z len.
Proof.
  revert start. induction len as [| len IH]; intro start; simpl;
    [reflexivity | now rewrite IH].
Qed.

Lemma basis_vector_pow2 k :
  [1%Z] ++ repeat 0%Z (2 ^ k - 1) = basis_vector (2 ^ k).
Proof.
  unfold basis_vector.
  destruct (2 ^ k) as [| m] eqn:E.
  - exfalso. now apply (Nat.pow_nonzero 2 k).
  - simpl. now rewrite Nat.sub_0_r, map_seq_zero.
Qed.

Lemma basis_vector_length len : length (basis_vector len) = len.
Proof. unfold basis_vector. now rewrite length_map, length_seq. Qed.

Lemma measured_wires_code mp n :
  (if (length (mp_wires mp) =? 0)%nat then n else length (mp_wires mp))
  = measured_wires mp n.
Proof. unfold measured_wires. now destruct (mp_wires mp). Qed.

(** C5: for a state or probability measurement whose effective wire count
    is [k] (its own wire count if it has wires, else the device wire
    count), the result is the vector of length [2^k] with 1 at index 0 and
    0 elsewhere, whatever the shots; with a batch size [b] it is the array
    of [b] copies of that vector, of shape (b, 2^k). *)
Theorem state_probability_basis_vector :
  forall (mp : MeasurementProcess) (n : nat) (shots : ShotsArg)
         (interface : string) (w : World),
    mp_kind mp = StateMP \/ mp_kind mp = ProbabilityMP ->
    let k := measured_wires mp n in
    zero_measurement mp n shots None interface w
    = (inr (RArray {| arr_like := interface; arr_dtype := dt_float;
                      arr_shape := [2 ^ k];
                      arr_data := basis_vector (2 ^ k) |}), w)
    /\ forall b,
        exists a,
          zero_measurement mp n shots (Some b) interface w
          = (inr (RArray a), w)
          /\ arr_data a = concat (repeat (basis_vector (2 ^ k)) b)
          /\ (0 < b -> arr_shape a = [b; 2 ^ k]).
Proof.
  intros mp n shots interface w Hkind k.
  assert (Hz : forall b,
             zero_measurement mp n shots b interface w
             = (inr (zero_measurement_StateMP mp n shots b interface), w)).
  { intro b. unfold zero_measurement.
    destruct Hkind as [-> | ->]; reflexivity. }
  split.
  - rewrite Hz. unfold zero_measurement_StateMP.
    rewrite measured_wires_code. fold k. rewrite basis_vector_pow2.
    unfold math_asarray_list. now rewrite basis_vector_length.
  - intro b. rewrite Hz. unfold zero_measurement_StateMP.
    rewrite measured_wires_code. fold k. rewrite basis_vector_pow2.
    eexists. split; [reflexivity |].
    split; [reflexivity |].
    intro Hb. destruct b as [| b]; [lia |].
    simpl. now rewrite repeat_length, basis_vector_length.
Qed.

Lemma state_probability_basis_vector_witness :
  zero_measurement probs_all 2 (ArgInt 100) None "numpy" world0
  = (inr (RArray {| arr_like := "numpy"; arr_dtype := dt_float;
                    arr_shape := [4];
                    arr_data := [1%Z; 0%Z; 0%Z; 0%Z] |}), world0)
  /\ forall b,
      exists a,
        zero_measurement probs_all 2 (ArgInt 100) (Some b) "numpy" world0
        = (inr (RArray a), world0)
        /\ arr_data a = concat (repeat [1%Z; 0%Z; 0%Z; 0%Z] b)
        /\ (0 < b -> arr_shape a = [b; 4]).
Proof.
  apply (state_probability_basis_vector probs_all 2 (ArgInt 100) "numpy"
           world0).
  right. reflexivity.
Defined.

(** C7: for a classical-shadow measurement, whatever the shots and the wire
    count, a batch size makes [zero_measurement] raise the error about
    parameter broadcasting, before anything else and leaving the world as it
    was; without a batch size the result is the all-zero array of 8-bit
    integers of the measurement's own shape, for every shot value for which
    the measurement has a shape.  Where it has none (a classical shadow has
    none without shots) the error of its shape method comes out instead,
    and a shape holding the [Shots] object is refused by the array
    backend. *)
Theorem classical_shadow_rejects_broadcasting :
  forall (mp : MeasurementProcess) (n : nat) (shots : ShotsArg)
         (interface : string) (w : World),
    mp_kind mp = ClassicalShadowMP ->
    (forall b,
        zero_measurement mp n shots (Some b) interface w
        = (inl (ValueError broadcasting_message), w))
    /\ (forall s,
          mp_shape mp shots n = Some (map DInt s) ->
          exists a,
            zero_measurement mp n shots None interface w
            = (inr (RArray a), w)
            /\ arr_dtype a = dt_int8
            /\ arr_like a = interface
            /\ zero_array s (RArray a))
    /\ (mp_shape mp shots n = None ->
        zero_measurement mp n shots None interface w
        = (inl MeasurementShapeError, w))
    /\ (forall dims sh,
          mp_shape mp shots n = Some dims ->
          In (DShots sh) dims ->
          zero_measurement mp n shots None interface w
          = (inl TypeError, w)).
Proof.
  intros mp n shots interface w Hkind. unfold zero_measurement.
  rewrite Hkind.
  unfold zero_measurement_ClassicalShadowMP, call_shape, math_zeros_tuple,
    lift.
  split; [reflexivity |]. split; [| split].
  - intros s Hs. rewrite Hs, int_shape_ints.
    eexists. split; [reflexivity |].
    split; [reflexivity |]. split; [reflexivity |].
    apply zero_array_zeros.
  - intro Hs. now rewrite Hs.
  - intros dims sh Hs Hin. now rewrite Hs, (int_shape_shots dims sh Hin).
Qed.

Lemma classical_shadow_rejects_broadcasting_witness :
  (forall b,
      zero_measurement shadow_01 2 (ArgInt 5) (Some b) "numpy" world0
      = (inl (ValueError broadcasting_message), world0))
  /\ (forall s,
        mp_shape shadow_01 (ArgInt 5) 2 = Some (map DInt s) ->
        exists a,
          zero_measurement shadow_01 2 (ArgInt 5) None "numpy" world0
          = (inr (RArray a), world0)
          /\ arr_dtype a = dt_int8
          /\ arr_like a = "numpy"
          /\ zero_array s (RArray a))
  /\ (mp_shape shadow_01 (ArgInt 5) 2 = None ->
      zero_measurement shadow_01 2 (ArgInt 5) None "numpy" world0
      = (inl MeasurementShapeError, world0))
  /\ (forall dims sh,
        mp_shape shadow_01 (ArgInt 5) 2 = Some dims ->
        In (DShots sh) dims ->
        zero_measurement shadow_01 2 (ArgInt 5) None "numpy" world0
        = (inl TypeError, world0)).
Proof.
  apply (classical_shadow_rejects_broadcasting shadow_01 2 (ArgInt 5)
           "numpy" world0).
  reflexivity.
Defined.

(** C4, at an observable with a degenerate smallest eigenvalue: for counts
    of Z(0) @ Z(1) with all outcomes requested and 100 shots, the sorted
    eigenvalues are -1, -1, 1, 1; the smallest, -1, first receives the 100
    shots and is then overwritten with 0 when the remaining eigenvalues are
    mapped to 0, so no outcome holds the shots. *)
Theorem counts_degenerate_smallest_loses_shots :
  sorted (mp_eigvals counts_ZZ) = [(-1)%Z; (-1)%Z; 1%Z; 1%Z]
  /\ zero_measurement counts_ZZ 2 (ArgInt 100) None "numpy" world0
     = (inr (RCounts
               [(Eigval (-1), math_asarray_obj (ArgInt 0) "numpy");
                (Eigval 1, math_asarray_obj (ArgInt 0) "numpy")]),
        world0).
Proof. split; reflexivity. Qed.

(* ================================================================== *)
(** ** Counts dictionaries

    What holds of the [CountsMP] overload in general: the construction
    without an observable, and the fate of the smallest eigenvalue with
    one. *)

Section Dict.

Variables K V : Type.
Variable eqb : K -> K -> bool.
Hypothesis eqb_eq : forall a b, eqb a b = true <-> a = b.

Lemma dict_set_fresh (d : PyDict K V) k v :
  ~ In k (map fst d) -> dict_set eqb d k v = d ++ [(k, v)].
Proof.
  induction d as [| [k' v'] t IH]; simpl; intro H.
  - reflexivity.
  - destruct (eqb k' k) eqn:E.
    + apply eqb_eq in E. tauto.
    + rewrite IH; tauto.
Qed.

Lemma dict_get_dict_set (d : PyDict K V) k v other :
  dict_get eqb (dict_set eqb d k v) other
  = if eqb k other then Some v else dict_get eqb d other.
Proof.
  induction d as [| [k' v'] t IH]; simpl.
  - reflexivity.
  - destruct (eqb k' k) eqn:Ek; simpl.
    + apply eqb_eq in Ek. subst k'. now destruct (eqb k other).
    + rewrite IH. destruct (eqb k' other) eqn:Eo; [| reflexivity].
      apply eqb_eq in Eo. subst k'.
      destruct (eqb k other) eqn:Eko; [| reflexivity].
      apply eqb_eq in Eko. subst k.
      assert (eqb other other = true) by now apply eqb_eq.
      congruence.
Qed.

End Dict.

Section Counts.

Lemma outcome_eqb_eq a b : outcome_eqb a b = true <-> a = b.
Proof.
  destruct a as [s | v], b as [t | u]; simpl.
  - rewrite String.eqb_eq. split; congruence.
  - split; discriminate.
  - split; discriminate.
  - rewrite Z.eqb_eq. split; congruence.
Qed.

Lemma set_all_fresh keys : forall d zero,
  NoDup keys ->
  (forall k, In k keys -> ~ In k (map fst d)) ->
  set_all d keys zero = d ++ map (fun k => (k, zero)) keys.
Proof.
  unfold set_all.
  induction keys as [| k t IH]; intros d zero Hnd Hfresh; simpl.
  - now rewrite app_nil_r.
  - inversion Hnd as [| k' t' Hk Ht]; subst.
    rewrite (dict_set_fresh _ _ _ outcome_eqb_eq) by (apply Hfresh; now left).
    rewrite IH; [now rewrite <- app_assoc | exact Ht |].
    intros k' Hk' Hin. rewrite map_app, in_app_iff in Hin.
    destruct Hin as [Hin | [<- | []]]; [| exact (Hk Hk')].
    apply (Hfresh k'); [now right | exact Hin].
Qed.

Lemma dict_get_set_all keys : forall d zero k,
  dict_get outcome_eqb (set_all d keys zero) k
  = if existsb (outcome_eqb k) keys then Some zero
    else dict_get outcome_eqb d k.
Proof.
  unfold set_all.
  induction keys as [| k' t IH]; intros d zero k; simpl.
  - reflexivity.
  - rewrite IH, (dict_get_dict_set _ _ _ outcome_eqb_eq).
    destruct (existsb (outcome_eqb k) t); [now rewrite orb_true_r |].
    rewrite orb_false_r.
    destruct (outcome_eqb k' k) eqn:E.
    + apply outcome_eqb_eq in E. subst k'.
      now rewrite (proj2 (outcome_eqb_eq k k) eq_refl).
    + destruct (outcome_eqb k k') eqn:E'; [| reflexivity].
      apply outcome_eqb_eq in E'. subst k'.
      now rewrite (proj2 (outcome_eqb_eq k k) eq_refl) in E.
Qed.

(** *** Binary formatting *)

Lemma decode_zeros m s : decode (str_mul "0" m ++ s) = decode s.
Proof. induction m as [| m IH]; simpl; [reflexivity | exact IH]. Qed.

Lemma decode_bin_of_nat x : decode (bin_of_nat x) = N.of_nat x.
Proof.
  unfold decode, bin_of_nat. destruct (N.of_nat x) as [| p].
  - reflexivity.
  - now rewrite BinaryString.Raw.to_N_of_pos.
Qed.

Lemma decode_format_0b x width : decode (format_0b x width) = N.of_nat x.
Proof. unfold format_0b. now rewrite decode_zeros, decode_bin_of_nat. Qed.

Lemma decode_all_zeros n : decode (str_mul "0" n) = 0%N.
Proof. induction n as [| n IH]; simpl; [reflexivity | exact IH]. Qed.

Lemma str_length_app a b :
  String.length (a ++ b) = String.length a + String.length b.
Proof. induction a as [| ch a IH]; simpl; [reflexivity | now rewrite IH]. Qed.

Lemma str_mul_zero_length m : String.length (str_mul "0" m) = m.
Proof. induction m as [| m IH]; simpl; [reflexivity | now rewrite IH]. Qed.

Lemma of_pos_length p rest :
  String.length (BinaryString.Raw.of_pos p rest)
  = Pos.size_nat p + String.length rest.
Proof.
  revert rest. induction p as [p IH | p IH |]; intro rest; simpl;
    try rewrite IH; simpl; lia.
Qed.

Lemma size_nat_bound p : forall n,
  Pos.to_nat p < 2 ^ n -> Pos.size_nat p <= n.
Proof.
  induction p as [p IH | p IH |]; intros [| n] H;
    rewrite ?Pos2Nat.inj_xI, ?Pos2Nat.inj_xO, ?Nat.pow_0_r, ?Nat.pow_succ_r'
      in H;
    cbn [Pos.size_nat].
  - lia.
  - apply le_n_S, IH. lia.
  - pose proof (Pos2Nat.is_pos p). lia.
  - apply le_n_S, IH. lia.
  - rewrite Pos2Nat.inj_1 in H. lia.
  - lia.
Qed.

Lemma format_0b_length x width :
  0 < x -> x < 2 ^ width -> String.length (format_0b x width) = width.
Proof.
  intros Hpos Hlt. unfold format_0b, bin_of_nat.
  destruct (N.of_nat x) as [| p] eqn:E; [lia |].
  rewrite str_length_app, str_mul_zero_length, of_pos_length. simpl.
  assert (Pos.size_nat p <= width); [| lia].
  apply size_nat_bound.
  assert (Pos.to_nat p = x); [| lia].
  apply (f_equal N.to_nat) in E. now rewrite Nat2N.id in E.
Qed.

Lemma bitstrings_fresh n m :
  let keys := map (fun x => Bitstring (format_0b x n)) (seq 1 m) in
  NoDup keys /\ ~ In (Bitstring (str_mul "0" n)) keys.
Proof.
  intro keys. subst keys. split.
  - apply (NoDup_map_inv
             (fun k => match k with
                       | Bitstring s => decode s
                       | Eigval _ => 0%N
                       end)).
    rewrite map_map.
    rewrite (map_ext _ N.of_nat) by (intro x; apply decode_format_0b).
    apply Finite.Injective_map_NoDup; [| apply seq_NoDup].
    intros a b. apply Nat2N.inj.
  - intro Hin. apply in_map_iff in Hin. destruct Hin as (x & Hx & Hin).
    apply in_seq in Hin. injection Hx as Hx.
    apply (f_equal decode) in Hx.
    rewrite decode_format_0b, decode_all_zeros in Hx. lia.
Qed.

(** X22: without an observable and without a mid-circuit measurement value
    the counts map the all-zero bit string of the device wire count to the
    shots and, when all outcomes are requested, every other bit string of
    that length to 0, in increasing order; these keys are distinct and of
    that length. *)
Lemma counts_without_observable mp all_outcomes n shots interface w :
  mp_kind mp = CountsMP all_outcomes ->
  mp_obs mp = None ->
  is_MeasurementValue (mp_mv mp) = false ->
  let others := map (fun x => Bitstring (format_0b x n))
                    (seq 1 (2 ^ n - 1)) in
  zero_measurement mp n shots None interface w
  = (inr (RCounts
            ((Bitstring (str_mul "0" n), math_asarray_obj shots interface)
               :: (if all_outcomes
                   then map (fun k =>
                               (k, math_asarray_obj (ArgInt 0) interface))
                            others
                   else []))), w)
  /\ NoDup (Bitstring (str_mul "0" n) :: others)
  /\ (forall x, 0 < x < 2 ^ n ->
                String.length (format_0b x n) = n)
  /\ String.length (str_mul "0" n) = n.
Proof.
  intros Hkind Hobs Hmv others.
  destruct (bitstrings_fresh n (2 ^ n - 1)) as [Hnd Hfresh].
  fold others in Hnd, Hfresh.
  split; [| split; [| split]].
  - unfold zero_measurement, lift, zero_measurement_CountsMP.
    rewrite Hkind, Hobs, Hmv. fold others.
    destruct all_outcomes; [| reflexivity].
    destruct others as [| k t] eqn:E; [reflexivity |].
    rewrite set_all_fresh; [reflexivity | exact Hnd |].
    intros k' Hk' [<- | []]. exact (Hfresh Hk').
  - now constructor.
  - intros x [Hpos Hlt]. now apply format_0b_length.
  - apply str_mul_zero_length.
Qed.

(** Two wires, 100 shots, all outcomes: exactly
    [{"00": 100, "01": 0, "10": 0, "11": 0}]; without all outcomes,
    [{"00": 100}]. *)
Lemma counts_two_wires_example w :
  zero_measurement (counts_all true) 2 (ArgInt 100) None "numpy" w
  = (inr (RCounts
            [(Bitstring "00", math_asarray_obj (ArgInt 100) "numpy");
             (Bitstring "01", math_asarray_obj (ArgInt 0) "numpy");
             (Bitstring "10", math_asarray_obj (ArgInt 0) "numpy");
             (Bitstring "11", math_asarray_obj (ArgInt 0) "numpy")]), w)
  /\ zero_measurement (counts_all false) 2 (ArgInt 100) None "numpy" w
     = (inr (RCounts
               [(Bitstring "00", math_asarray_obj (ArgInt 100) "numpy")]),
        w).
Proof. split; reflexivity. Qed.

(** *** With an observable *)

Lemma insert_sorted_perm x l : Permutation (x :: l) (insert_sorted x l).
Proof.
  induction l as [| y t IH]; simpl.
  - apply Permutation_refl.
  - destruct (x <=? y)%Z.
    + apply Permutation_refl.
    + apply perm_trans with (y :: x :: t); [apply perm_swap |].
      now apply perm_skip.
Qed.

Lemma sorted_perm l : Permutation l (sorted l).
Proof.
  induction l as [| x t IH]; simpl.
  - apply perm_nil.
  - apply perm_trans with (x :: sorted t);
      [now apply perm_skip | apply insert_sorted_perm].
Qed.

Lemma insert_sorted_Sorted x l :
  Sorted Z.le l -> Sorted Z.le (insert_sorted x l).
Proof.
  induction l as [| y t IH]; simpl; intro H.
  - repeat constructor.
  - destruct (x <=? y)%Z eqn:E.
    + apply Z.leb_le in E. constructor; [exact H |]. now constructor.
    + apply Z.leb_gt in E. inversion H as [| y' t' Ht Hy]; subst.
      constructor; [now apply IH |].
      destruct t as [| z t]; simpl.
      * constructor. lia.
      * inversion Hy; subst. destruct (x <=? z)%Z; constructor; lia.
Qed.

Lemma sorted_Sorted l : Sorted Z.le (sorted l).
Proof.
  induction l as [| x t IH]; simpl;
    [constructor | now apply insert_sorted_Sorted].
Qed.

(** The first element of the sorted list is a smallest element. *)
Lemma sorted_head_smallest l m rest :
  sorted l = m :: rest -> forall v, In v l -> (m <= v)%Z.
Proof.
  intros E v Hv.
  pose proof (sorted_Sorted l) as Hs. rewrite E in Hs.
  apply Sorted_StronglySorted in Hs; [| intros a b c; apply Z.le_trans].
  apply (Permutation_in _ (sorted_perm l)) in Hv. rewrite E in Hv.
  inversion Hs as [| m' rest' _ Hall]; subst.
  destruct Hv as [<- | Hv]; [lia |].
  rewrite Forall_forall in Hall. now apply Hall.
Qed.

Lemma existsb_eigval v l :
  existsb (outcome_eqb (Eigval v)) (map Eigval l) = existsb (Z.eqb v) l.
Proof.
  induction l as [| u t IH]; simpl; [reflexivity | now rewrite IH].
Qed.

(** With an observable (or a mid-circuit measurement value) the sorted
    eigenvalues decide the counts: their first, a smallest eigenvalue,
    holds the shots unless all outcomes are requested and it occurs again
    among the remaining ones, in which case it holds 0; the remaining
    eigenvalues hold 0 when all outcomes are requested and are absent
    otherwise. *)
Lemma counts_with_observable mp all_outcomes n shots interface w m rest :
  mp_kind mp = CountsMP all_outcomes ->
  mp_obs mp <> None \/ is_MeasurementValue (mp_mv mp) = true ->
  sorted (mp_eigvals mp) = m :: rest ->
  exists d,
    zero_measurement mp n shots None interface w = (inr (RCounts d), w)
    /\ (forall v, In v (mp_eigvals mp) -> (m <= v)%Z)
    /\ dict_get outcome_eqb d (Eigval m)
       = Some (if all_outcomes && existsb (Z.eqb m) rest
               then math_asarray_obj (ArgInt 0) interface
               else math_asarray_obj shots interface)
    /\ (all_outcomes = true ->
        forall v, In v rest ->
                  dict_get outcome_eqb d (Eigval v)
                  = Some (math_asarray_obj (ArgInt 0) interface))
    /\ (all_outcomes = false ->
        d = [(Eigval m, math_asarray_obj shots interface)]).
Proof.
  intros Hkind Hobs Hsorted.
  set (results := [(Eigval m, math_asarray_obj shots interface)]).
  set (zero := math_asarray_obj (ArgInt 0) interface).
  set (outcomes := if all_outcomes then map Eigval rest else []).
  exists (set_all results outcomes zero).
  split; [| split; [| split; [| split]]].
  - unfold zero_measurement, lift, zero_measurement_CountsMP.
    rewrite Hkind, Hsorted.
    assert (Hmatch : match outcomes with
                     | [] => results
                     | _ :: _ => set_all results outcomes zero
                     end = set_all results outcomes zero)
      by now destruct outcomes.
    destruct (mp_obs mp) as [o |] eqn:Eo.
    + cbv beta iota zeta. fold results outcomes zero.
      apply (f_equal (fun d => (@inr Exn Result (RCounts d), w))).
      exact Hmatch.
    + destruct Hobs as [Hobs | Hobs]; [congruence |].
      rewrite Hobs. cbv beta iota zeta. fold results outcomes zero.
      apply (f_equal (fun d => (@inr Exn Result (RCounts d), w))).
      exact Hmatch.
  - now apply sorted_head_smallest with (rest := rest).
  - rewrite dict_get_set_all. unfold outcomes.
    destruct all_outcomes; simpl.
    + rewrite existsb_eigval.
      destruct (existsb (Z.eqb m) rest); [reflexivity |].
      now rewrite Z.eqb_refl.
    + now rewrite Z.eqb_refl.
  - intros -> v Hv. rewrite dict_get_set_all. unfold outcomes.
    rewrite existsb_eigval.
    assert (E : existsb (Z.eqb v) rest = true).
    { apply existsb_exists. exists v. split; [exact Hv | apply Z.eqb_refl]. }
    now rewrite E.
  - intros ->. reflexivity.
Qed.

End Counts.

(* ================================================================== *)
(** ** Worked examples *)

(** A device without wires shapes the probabilities of each circuit by the
    wires of that circuit. *)
Example wireless_device_probabilities :
  fst (execute null_qubit [probs_on [WInt 0]; probs_on [WInt 0; WInt 1]]
         config_best world0)
  = inr [RArray {| arr_like := "numpy"; arr_dtype := dt_float;
                   arr_shape := [2]; arr_data := [1%Z; 0%Z] |};
         RArray {| arr_like := "numpy"; arr_dtype := dt_float;
                   arr_shape := [4];
                   arr_data := [1%Z; 0%Z; 0%Z; 0%Z] |}].
Proof. reflexivity. Qed.

(** Two measurements and two partitions: a pair of pairs. *)
Example partitioned_two_measurements :
  let zero := RArray {| arr_like := "numpy"; arr_dtype := dt_float;
                        arr_shape := []; arr_data := [0%Z] |} in
  let probs := RArray {| arr_like := "numpy"; arr_dtype := dt_float;
                         arr_shape := [2]; arr_data := [1%Z; 0%Z] |} in
  fst (execute null_qubit [partitioned_two] config_best world0)
  = inr [RTuple [RTuple [zero; probs]; RTuple [zero; probs]]].
Proof. reflexivity. Qed.

(** The second of two tracked executions at the same clock reading finds
    its report file existing. *)
Example timestamp_collision :
  fst (execute tracking_qubit [two_params; two_params] config_best
         stopped_clock)
  = inl (FileExistsError
           "__pennylane_resources_data_1762185600000000000.json").
Proof. reflexivity. Qed.

(** A classical shadow has no shape without shots: the error of its shape
    method comes out of [execute]. *)
Example shadow_without_shots :
  fst (execute null_qubit
         [{| operations := [Plain "Hadamard"]; measurements := [shadow_01];
             wires := [WInt 0; WInt 1]; shots := NoShots;
             batch_size := None; trainable_params := [] |}]
         config_best world0)
  = inl MeasurementShapeError.
Proof. reflexivity. Qed.

(** The derivatives of a classical shadow with shots: [_derivatives] hands
    the [Shots] object of the circuit to the shape method, and the array
    backend refuses the shape that holds it. *)
Example shadow_derivatives :
  fst (compute_derivatives (fun r => r) null_qubit
         [{| operations := [Plain "RX"]; measurements := [shadow_01];
             wires := [WInt 0; WInt 1]; shots := SingleShots 5;
             batch_size := None; trainable_params := [0] |}]
         config_best world0)
  = inl TypeError.
Proof. reflexivity. Qed.

(* ================================================================== *)
(** * Further properties of the module *)

(* ================================================================== *)
(** ** Resource accounting, continued *)

Section Layers.

Lemma unwrap_wrap_any layers op controls adj :
  unwrap (wrap layers op) controls adj
  = unwrap op (controls + total_controls layers)
      (xorb adj (Nat.odd (adjoint_layers layers))).
Proof.
  revert controls adj.
  induction layers as [| [cw |] t IH]; intros controls adj; simpl.
  - now rewrite Nat.add_0_r, xorb_false_r.
  - rewrite IH. f_equal. lia.
  - rewrite IH. f_equal. rewrite Nat.odd_succ, <- Nat.negb_odd.
    now destruct adj, (Nat.odd (adjoint_layers t)).
Qed.

(** X5: what is recorded for an operation depends on its modifier layers
    through their total number of control wires and the parity of the
    number of adjoint layers only, whatever their nesting and whatever the
    operator they wrap: two adjoints cancel, nested controls add up, and
    adjoint and control layers commute. *)
Theorem modifier_layers_compose :
  forall (l1 l2 : list Modifier) (op : Operator) (gt : PyDict string nat),
    total_controls l1 = total_controls l2 ->
    Nat.odd (adjoint_layers l1) = Nat.odd (adjoint_layers l2) ->
    account_op gt (wrap l1 op) = account_op gt (wrap l2 op).
Proof.
  intros l1 l2 op gt Hc Ha. unfold account_op.
  now rewrite !unwrap_wrap_any, Hc, Ha.
Qed.

Lemma modifier_layers_compose_witness :
  account_op [("H", 1)]
    (wrap [Adj; Ctrl [WInt 1]; Adj; Ctrl [WInt 2]; Adj] (Composite "CNOT"
                                                           (Plain "X")))
  = account_op [("H", 1)]
      (wrap [Ctrl [WInt 5; WInt 6]; Adj] (Composite "CNOT" (Plain "X"))).
Proof.
  apply (modifier_layers_compose
           [Adj; Ctrl [WInt 1]; Adj; Ctrl [WInt 2]; Adj]
           [Ctrl [WInt 5; WInt 6]; Adj]
           (Composite "CNOT" (Plain "X")) [("H", 1)]).
  - reflexivity.
  - reflexivity.
Defined.

(** X6: an operator that exposes a base without being a control or adjoint
    modifier is counted under its own name, like a plain gate of that name:
    its base is never looked at, under any stack of modifier layers. *)
Theorem composite_counted_atomically :
  forall (layers : list Modifier) (name : string) (base : Operator)
         (gt : PyDict string nat),
    account_op gt (wrap layers (Composite name base))
    = account_op gt (wrap layers (Plain name)).
Proof.
  intros layers name base gt. unfold account_op.
  now rewrite !unwrap_wrap_any.
Qed.

End Layers.

Section Histogram.

Lemma keys_dict_set (d : PyDict string nat) k v :
  map fst (dict_set String.eqb d k v)
  = if has_key d k then map fst d else map fst d ++ [k].
Proof.
  unfold has_key. induction d as [| [k' v'] t IH]; simpl.
  - reflexivity.
  - rewrite (String.eqb_sym k k').
    destruct (String.eqb k' k); simpl; [reflexivity |].
    rewrite IH. now destruct (existsb (String.eqb k) (map fst t)).
Qed.

Lemma keys_incr gt name :
  map fst (incr gt name)
  = if has_key gt name then map fst gt else map fst gt ++ [name].
Proof.
  unfold incr.
  destruct (dict_get String.eqb gt name); apply keys_dict_set.
Qed.

Lemma filter_filter {A : Type} (p q : A -> bool) (l : list A) :
  filter p (filter q l) = filter (fun x => q x && p x) l.
Proof.
  induction l as [| x t IH]; simpl; [reflexivity |].
  destruct (q x); simpl; [destruct (p x) |]; now rewrite IH.
Qed.

Lemma fold_account_keys ops : forall gt,
  map fst (fold_left account_op ops gt)
  = map fst gt
      ++ filter (fun m => negb (has_key gt m))
           (first_occurrences (counted_names ops)).
Proof.
  induction ops as [| op t IH]; intro gt; simpl.
  - now rewrite app_nil_r.
  - rewrite IH, account_op_counted. unfold counted_names. simpl.
    fold (counted_names t).
    destruct (counted_as op) as [n |]; simpl; [| reflexivity].
    rewrite keys_incr, filter_filter.
    destruct (has_key gt n) eqn:E; simpl.
    + f_equal. apply filter_ext_in. intros m _.
      unfold has_key. rewrite keys_incr, E. fold (has_key gt m).
      destruct (String.eqb m n) eqn:Emn; simpl; [| reflexivity].
      apply String.eqb_eq in Emn. subst m. now rewrite E.
    + rewrite <- app_assoc. simpl. f_equal. f_equal.
      apply filter_ext_in. intros m _.
      unfold has_key. rewrite keys_incr, E, existsb_app. simpl.
      fold (has_key gt m). rewrite orb_false_r.
      now destruct (has_key gt m), (String.eqb m n).
Qed.

Lemma incr_positive gt name :
  Forall (fun kv => 1 <= snd kv) gt ->
  Forall (fun kv => 1 <= snd kv) (incr gt name).
Proof.
  intro H. unfold incr.
  assert (Hset : forall v, 1 <= v ->
             Forall (fun kv => 1 <= snd kv) (dict_set String.eqb gt name v)).
  { intros v Hv. induction H as [| [k o] t Hk Ht IH]; simpl.
    - repeat constructor. exact Hv.
    - destruct (String.eqb k name); constructor; auto. }
  destruct (dict_get String.eqb gt name); apply Hset; lia.
Qed.

Lemma report_keys c :
  map fst (gate_types (_simulate_resource_use c))
  = first_occurrences (counted_names (operations c)).
Proof.
  unfold _simulate_resource_use. simpl.
  rewrite fold_account_keys. simpl.
  induction (first_occurrences (counted_names (operations c)));
    simpl; congruence.
Qed.

(** X7: the keys of [gate_types] are the names under which the operations
    are counted, each once, in the order in which they first occur in the
    circuit; and every key is mapped to a count of at least one. *)
Theorem gate_types_first_seen_order :
  forall c : Circuit,
    map fst (gate_types (_simulate_resource_use c))
    = first_occurrences (counted_names (operations c))
    /\ Forall (fun kv => 1 <= snd kv)
         (gate_types (_simulate_resource_use c)).
Proof.
  intro c. split.
  - apply report_keys.
  - unfold _simulate_resource_use. simpl.
    assert (H : forall ops gt,
               Forall (fun kv => 1 <= snd kv) gt ->
               Forall (fun kv => 1 <= snd kv) (fold_left account_op ops gt)).
    { induction ops as [| op t IH]; intros gt Hgt; simpl; [exact Hgt |].
      apply IH. rewrite account_op_counted.
      destruct (counted_as op); [now apply incr_positive | exact Hgt]. }
    apply H. constructor.
Qed.

End Histogram.

Section Counting.

Lemma filter_length_perm {A : Type} (p : A -> bool) (l l' : list A) :
  Permutation l l' -> length (filter p l) = length (filter p l').
Proof.
  intro H. induction H as [| x l l' _ IH | x y l | l l' l'' _ IH1 _ IH2];
    simpl.
  - reflexivity.
  - destruct (p x); simpl; congruence.
  - destruct (p x), (p y); reflexivity.
  - congruence.
Qed.

Lemma report_count c name :
  count_of (gate_types (_simulate_resource_use c)) name
  = length (filter (counted_under name) (operations c)).
Proof.
  unfold _simulate_resource_use. simpl. now rewrite fold_account_count.
Qed.

Lemma report_num_gates c :
  num_gates (_simulate_resource_use c)
  = length (filter is_counted (operations c)).
Proof.
  unfold _simulate_resource_use. simpl. now rewrite fold_account_sum.
Qed.

(** X8: the report of a circuit made of two parts in sequence counts, under
    every name, the sum of what the reports of the parts count, and its
    number of gates is the sum of theirs. *)
Theorem report_additive :
  forall (c c1 c2 : Circuit),
    operations c = operations c1 ++ operations c2 ->
    (forall name,
        count_of (gate_types (_simulate_resource_use c)) name
        = count_of (gate_types (_simulate_resource_use c1)) name
          + count_of (gate_types (_simulate_resource_use c2)) name)
    /\ num_gates (_simulate_resource_use c)
       = num_gates (_simulate_resource_use c1)
         + num_gates (_simulate_resource_use c2).
Proof.
  intros c c1 c2 H. split.
  - intro name. rewrite !report_count, H.
    now rewrite filter_app, length_app.
  - rewrite !report_num_gates, H. now rewrite filter_app, length_app.
Qed.

Lemma report_additive_witness :
  (forall name,
      count_of (gate_types (_simulate_resource_use rx_ry_rx)) name
      = count_of (gate_types (_simulate_resource_use two_params)) name
        + count_of (gate_types (_simulate_resource_use rx_alone)) name)
  /\ num_gates (_simulate_resource_use rx_ry_rx)
     = num_gates (_simulate_resource_use two_params)
       + num_gates (_simulate_resource_use rx_alone).
Proof.
  apply (report_additive rx_ry_rx two_params rx_alone).
  reflexivity.
Defined.

(** X9: the order of the operations of a circuit changes neither the count
    recorded under any name nor the number of gates (it can only change the
    order of the keys). *)
Theorem report_order_independent :
  forall (c c' : Circuit),
    Permutation (operations c) (operations c') ->
    (forall name,
        count_of (gate_types (_simulate_resource_use c)) name
        = count_of (gate_types (_simulate_resource_use c')) name)
    /\ num_gates (_simulate_resource_use c)
       = num_gates (_simulate_resource_use c').
Proof.
  intros c c' H. split.
  - intro name. rewrite !report_count.
    now apply filter_length_perm.
  - rewrite !report_num_gates. now apply filter_length_perm.
Qed.

Lemma report_order_independent_witness :
  (forall name,
      count_of (gate_types (_simulate_resource_use rx_ry_rx)) name
      = count_of (gate_types (_simulate_resource_use ry_rx_rx)) name)
  /\ num_gates (_simulate_resource_use rx_ry_rx)
     = num_gates (_simulate_resource_use ry_rx_rx).
Proof.
  apply (report_order_independent rx_ry_rx ry_rx_rx).
  apply perm_swap.
Defined.

Lemma str_of_nat_head n :
  exists ch rest, str_of_nat n = String ch rest /\ ch <> "B"%char.
Proof.
  unfold str_of_nat, NilZero.string_of_uint.
  destruct (Nat.to_uint n); simpl;
    eexists; eexists; (split; [reflexivity | discriminate]).
Qed.

Lemma compose_name_not_barrier name controls adj :
  name <> "Barrier" -> compose_name name controls adj <> "Barrier".
Proof.
  intro Hname. unfold compose_name.
  destruct controls as [| [| k]].
  - destruct adj; [discriminate | exact Hname].
  - destruct adj; discriminate.
  - replace (0 <? S (S k))%nat with true by reflexivity.
    replace (1 <? S (S k))%nat with true by reflexivity.
    destruct (str_of_nat_head (S (S k))) as (ch & rest & -> & Hch).
    simpl. intro H. injection H as H _. contradiction.
Qed.

Lemma counted_as_not_barrier op name :
  counted_as op = Some name -> name <> "Barrier".
Proof.
  unfold counted_as.
  destruct (unwrap op 0 false) as [[op' controls] adj].
  destruct (String.eqb (op_name op') "Barrier") eqn:E; [discriminate |].
  intro H. injection H as <-.
  apply compose_name_not_barrier. now apply String.eqb_neq.
Qed.

Lemma first_occurrences_incl names m :
  In m (first_occurrences names) -> In m names.
Proof.
  induction names as [| n t IH]; simpl; [tauto |].
  intros [-> | H]; [now left | right].
  apply filter_In in H. tauto.
Qed.

(** X10: a barrier is skipped under any stack of modifier layers, and no
    circuit has ["Barrier"] among the keys of its [gate_types]. *)
Theorem barrier_never_recorded :
  (forall (layers : list Modifier) (gt : PyDict string nat),
      account_op gt (wrap layers (Plain "Barrier")) = gt)
  /\ (forall c : Circuit,
        ~ In "Barrier" (map fst (gate_types (_simulate_resource_use c)))).
Proof.
  split.
  - intros layers gt. unfold account_op. now rewrite unwrap_wrap.
  - intros c Hin.
    rewrite report_keys in Hin. apply first_occurrences_incl in Hin.
    unfold counted_names in Hin. apply in_flat_map in Hin.
    destruct Hin as (op & _ & Hop).
    destruct (counted_as op) as [n |] eqn:E; [| destruct Hop].
    destruct Hop as [Hn | []].
    exact (counted_as_not_barrier op n E Hn).
Qed.

End Counting.

(* ================================================================== *)
(** ** The report of a circuit, gate by gate *)

Section Report.

Lemma operations_are_gates (ops : list Operator) :
  exists gates : list Gate, ops = map gate_operator gates.
Proof.
  assert (H : forall op, exists g : Gate, op = gate_operator g).
  { induction op as [n | cw b [[layers core] IH] | b [[layers core] IH]
                     | n b _].
    - now exists ([], CorePlain n).
    - exists (Ctrl cw :: layers, core). now rewrite IH.
    - exists (Adj :: layers, core). now rewrite IH.
    - now exists ([], CoreComposite n b). }
  induction ops as [| op t [gates IH]].
  - now exists [].
  - destruct (H op) as [g Hg]. exists (g :: gates). simpl. congruence.
Qed.

Lemma compose_name_composed N k adj :
  compose_name N k adj = composed_name N k adj.
Proof. destruct k as [| [| k]]; reflexivity. Qed.

Lemma counted_as_gate (g : Gate) :
  counted_as (gate_operator g)
  = if is_barrier g then None else Some (gate_name g).
Proof.
  destruct g as [layers core].
  unfold counted_as, gate_operator, is_barrier, gate_name. cbn [fst snd].
  rewrite unwrap_wrap_any. cbn [Nat.add xorb].
  destruct core as [n | n b]; cbn [core_operator core_name unwrap op_name];
    now rewrite compose_name_composed.
Qed.

Lemma counted_names_gates (gates : list Gate) :
  counted_names (map gate_operator gates)
  = map gate_name (filter (fun g => negb (is_barrier g)) gates).
Proof.
  unfold counted_names.
  induction gates as [| g t IH]; simpl; [reflexivity |].
  rewrite IH, counted_as_gate. now destruct (is_barrier g).
Qed.

Lemma counted_under_gates name (gates : list Gate) :
  length (filter (counted_under name) (map gate_operator gates))
  = length (reported_under name gates).
Proof.
  unfold reported_under, counted_under.
  induction gates as [| g t IH]; simpl; [reflexivity |].
  rewrite counted_as_gate.
  destruct (is_barrier g); cbn [negb andb]; [exact IH |].
  destruct (String.eqb (gate_name g) name); simpl; now rewrite IH.
Qed.

Lemma is_counted_gates (gates : list Gate) :
  length (filter is_counted (map gate_operator gates))
  = length (filter (fun g => negb (is_barrier g)) gates).
Proof.
  unfold is_counted.
  induction gates as [| g t IH]; simpl; [reflexivity |].
  rewrite counted_as_gate.
  destruct (is_barrier g); simpl; now rewrite IH.
Qed.

Lemma first_occurrences_NoDup names : NoDup (first_occurrences names).
Proof.
  induction names as [| n t IH]; simpl; constructor.
  - intro Hin. apply filter_In in Hin. destruct Hin as [_ Hin].
    now rewrite String.eqb_refl in Hin.
  - now apply NoDup_filter.
Qed.

Lemma dict_of_counts (d : PyDict string nat) :
  NoDup (map fst d) -> d = map (fun k => (k, count_of d k)) (map fst d).
Proof.
  induction d as [| [k v] t IH]; simpl; intro H; [reflexivity |].
  inversion H as [| ? ? Hk Ht]. subst.
  unfold count_of at 1. cbn [dict_get]. rewrite String.eqb_refl.
  f_equal. rewrite (IH Ht) at 1. apply map_ext_in. intros k' Hin.
  unfold count_of. cbn [dict_get].
  destruct (String.eqb k k') eqn:E; [| reflexivity].
  apply String.eqb_eq in E. subst k'. contradiction.
Qed.

Lemma report_of_gates (c : Circuit) (gates : list Gate) :
  operations c = map gate_operator gates ->
  num_gates (_simulate_resource_use c)
  = length (filter (fun g => negb (is_barrier g)) gates)
  /\ gate_types (_simulate_resource_use c)
     = map (fun name => (name, length (reported_under name gates)))
         (first_occurrences
            (map gate_name (filter (fun g => negb (is_barrier g)) gates))).
Proof.
  intro H. split.
  - now rewrite report_num_gates, H, is_counted_gates.
  - rewrite (dict_of_counts (gate_types (_simulate_resource_use c))).
    + rewrite report_keys, H, counted_names_gates.
      apply map_ext. intro name.
      now rewrite report_count, H, counted_under_gates.
    + rewrite report_keys. apply first_occurrences_NoDup.
Qed.

Lemma without_barrier (before after : list Gate) (barrier : Gate) name :
  is_barrier barrier = true ->
  filter (fun g => negb (is_barrier g)) (before ++ barrier :: after)
  = filter (fun g => negb (is_barrier g)) (before ++ after)
  /\ reported_under name (before ++ barrier :: after)
     = reported_under name (before ++ after).
Proof.
  intro H. unfold reported_under. rewrite !filter_app. simpl.
  now rewrite H.
Qed.

End Report.

(** C8: for a circuit whose operations are described gate by gate, each by
    its modifier layers and the operator they wrap, the report has
    [num_wires] equal to the size of the circuit's wire set, [num_gates]
    equal to the sum of the histogram values, which is the number of gates
    that are no barriers, and [gate_types] the histogram keyed by composed
    names: its keys are the composed names of those gates in the order of
    their first occurrences, each mapped to the number of gates reported
    under it.  A circuit of one plain gate ["X"] yields
    [{num_wires: size of the wire set, num_gates: 1, gate_types: {"X": 1}}],
    and a barrier anywhere in the circuit, under any modifier layers,
    leaves [num_gates] and [gate_types] as they are without it. *)
Theorem resource_report_correct :
  forall (c : Circuit) (gates : list Gate),
    operations c = map gate_operator gates ->
    let r := _simulate_resource_use c in
    let counted := filter (fun g => negb (is_barrier g)) gates in
    num_wires r = length (wires c)
    /\ num_gates r = sum_values (gate_types r)
    /\ num_gates r = length counted
    /\ gate_types r
       = map (fun name => (name, length (reported_under name gates)))
           (first_occurrences (map gate_name counted))
    /\ (gates = [([], CorePlain "X")] ->
        r = {| num_wires := length (wires c); num_gates := 1;
               gate_types := [("X", 1)] |})
    /\ (forall (before after : list Gate) (barrier : Gate) (c' : Circuit),
          gates = before ++ barrier :: after ->
          is_barrier barrier = true ->
          operations c' = map gate_operator (before ++ after) ->
          num_gates (_simulate_resource_use c') = num_gates r
          /\ gate_types (_simulate_resource_use c') = gate_types r).
Proof.
  intros c gates H r counted.
  destruct (report_of_gates c gates H) as [Hn Hg].
  split; [reflexivity |]. split; [reflexivity |].
  split; [exact Hn |]. split; [exact Hg |]. split.
  - intro Hx. subst gates. unfold r, _simulate_resource_use.
    now rewrite H.
  - intros before after barrier c' Hgates Hb Hc'.
    destruct (report_of_gates c' (before ++ after) Hc') as [Hn' Hg'].
    unfold r. rewrite Hn, Hn', Hg, Hg'. subst gates.
    destruct (without_barrier before after barrier "" Hb) as [-> _].
    split; [reflexivity |]. apply map_ext. intro name.
    now destruct (without_barrier before after barrier name Hb) as [_ ->].
Qed.

Lemma resource_report_correct_witness :
  num_wires (_simulate_resource_use barrier_between) = 3
  /\ num_gates (_simulate_resource_use barrier_between)
     = sum_values (gate_types (_simulate_resource_use barrier_between))
  /\ num_gates (_simulate_resource_use barrier_between) = 3
  /\ gate_types (_simulate_resource_use barrier_between)
     = [("2C(Adj(X))", 2); ("X", 1)]
  /\ (barrier_between_gates = [([], CorePlain "X")] ->
      _simulate_resource_use barrier_between
      = {| num_wires := 3; num_gates := 1; gate_types := [("X", 1)] |})
  /\ (forall (before after : list Gate) (barrier : Gate) (c' : Circuit),
        barrier_between_gates = before ++ barrier :: after ->
        is_barrier barrier = true ->
        operations c' = map gate_operator (before ++ after) ->
        num_gates (_simulate_resource_use c')
        = num_gates (_simulate_resource_use barrier_between)
        /\ gate_types (_simulate_resource_use c')
           = gate_types (_simulate_resource_use barrier_between)).
Proof.
  exact (resource_report_correct barrier_between barrier_between_gates
           eq_refl).
Defined.

(* ================================================================== *)
(** ** The default overload and its cache *)

Section Cache.

Lemma shape_eqb_refl a : shape_eqb a a = true.
Proof.
  induction a as [| x a IH]; simpl; [reflexivity |].
  now rewrite Nat.eqb_refl, IH.
Qed.

Lemma key_eqb_refl k : key_eqb k k = true.
Proof.
  destruct k as [[s i] d]. simpl.
  rewrite shape_eqb_refl, String.eqb_refl. now destruct d.
Qed.

Lemma key_eqb_false a b : key_eqb a b = false -> a <> b.
Proof. intros H ->. now rewrite key_eqb_refl in H. Qed.

Lemma cache_remove_incl k (c : list (CacheKey * ndarray)) x :
  In x (map fst (cache_remove k c)) -> In x (map fst c).
Proof.
  induction c as [| [k' v'] t IH]; simpl; [tauto |].
  destruct (key_eqb k' k); simpl; tauto.
Qed.

Lemma cache_miss (c : list (CacheKey * ndarray)) k :
  dict_get key_eqb c k = None -> ~ In k (map fst c).
Proof.
  induction c as [| [k' v'] t IH]; simpl; [tauto |].
  destruct (key_eqb k' k) eqn:E; [discriminate |].
  intros H [-> | Hin]; [now rewrite key_eqb_refl in E | now apply IH].
Qed.

Lemma cache_remove_hit (c : list (CacheKey * ndarray)) k v :
  dict_get key_eqb c k = Some v ->
  NoDup (map fst c) ->
  S (length (cache_remove k c)) = length c
  /\ ~ In k (map fst (cache_remove k c))
  /\ NoDup (map fst (cache_remove k c)).
Proof.
  induction c as [| [k' v'] t IH]; simpl; [discriminate |].
  intros Hget Hnd. inversion Hnd as [| k0 ks Hk' Ht]; subst.
  destruct (key_eqb k' k) eqn:E.
  - apply key_eqb_eq in E. subst k'. auto.
  - destruct (IH Hget Ht) as (Hlen & Hnot & Hnd').
    apply key_eqb_false in E. simpl.
    split; [lia |]. split.
    + intros [-> | Hin]; [now apply E | now apply Hnot].
    + constructor; [| exact Hnd'].
      intro Hin. apply Hk'. now apply (cache_remove_incl k t).
Qed.

Lemma NoDup_firstn {A : Type} (l : list A) n :
  NoDup l -> NoDup (firstn n l).
Proof.
  intro H. revert n. induction H as [| x t Hx _ IH]; intros [| n]; simpl;
    try constructor; [| apply IH].
  intro Hin. apply Hx. rewrite <- (firstn_skipn n t).
  apply in_or_app. now left.
Qed.

Lemma keeps_cached_zero_return shape interface dt :
  keeps cache_bounded (_cached_zero_return shape interface dt).
Proof.
  intros w [Hlen Hnd]. unfold _cached_zero_return.
  destruct (int_shape shape) as [ishape |]; [| now split].
  destruct (dict_get key_eqb (zero_cache w) (ishape, interface, dt))
    as [v |] eqn:E; cbn [snd zero_cache].
  - destruct (cache_remove_hit _ _ _ E Hnd) as (Hl & Hnot & Hnd').
    split; cbn [length map fst]; [lia | now constructor].
  - split.
    + rewrite length_firstn. apply Nat.le_min_l.
    + rewrite <- firstn_map. apply NoDup_firstn.
      cbn [map fst]. constructor; [now apply cache_miss | exact Hnd].
Qed.

Lemma keeps_ret {A : Type} Q (a : A) : keeps Q (ret a).
Proof. intros w H. exact H. Qed.

Lemma keeps_lift {A : Type} Q (r : Exn + A) : keeps Q (lift r).
Proof. intros w H. exact H. Qed.

Lemma keeps_first {A : Type} Q (l : list A) : keeps Q (first l).
Proof. destruct l; intros w H; exact H. Qed.

Lemma keeps_bind {A B : Type} Q (m : M A) (k : A -> M B) :
  keeps Q m -> (forall a, keeps Q (k a)) -> keeps Q (bind m k).
Proof.
  intros Hm Hk w Hw. unfold bind. specialize (Hm w Hw).
  destruct (m w) as [[e | a] w1]; cbn [snd] in *; [exact Hm |].
  now apply Hk.
Qed.

Lemma keeps_mapM {A B : Type} Q (f : A -> M B) (l : list A) :
  (forall x, keeps Q (f x)) -> keeps Q (mapM f l).
Proof.
  intro H. induction l as [| x t IH]; simpl.
  - apply keeps_ret.
  - apply keeps_bind; [apply H |]. intro y.
    apply keeps_bind; [exact IH |]. intro ys. apply keeps_ret.
Qed.

Lemma keeps_zero_measurement mp n shots batch_size interface :
  keeps cache_bounded (zero_measurement mp n shots batch_size interface).
Proof.
  assert (Hdefault :
            keeps cache_bounded
              (_zero_measurement mp n shots batch_size interface)).
  { unfold _zero_measurement.
    apply keeps_bind; [apply keeps_lift |]. intro dims.
    destruct (contains "jax" interface); simpl.
    - apply keeps_bind; [apply keeps_lift |]. intro a. apply keeps_ret.
    - apply keeps_bind; [apply keeps_cached_zero_return |].
      intro a. apply keeps_ret. }
  unfold zero_measurement.
  destruct (mp_kind mp); try exact Hdefault;
    try apply keeps_lift; apply keeps_ret.
Qed.

Lemma keeps_track Q self circuit : keeps Q (track self circuit).
Proof.
  intros w H. unfold track, bind, time_ns, open_x_dump.
  destruct (track_resources self); [| exact H].
  cbn [files clock reads].
  now destruct (dict_get String.eqb (files w)
                  (resources_fname (clock w (reads w)))).
Qed.

Lemma keeps_simulate self circuit interface :
  keeps cache_bounded (_simulate self circuit interface).
Proof.
  rewrite _simulate_track. apply keeps_bind; [apply keeps_track |].
  intros _. unfold simulate_body. apply keeps_bind.
  - apply keeps_mapM. intro s. apply keeps_bind.
    + apply keeps_mapM. intro mp. apply keeps_zero_measurement.
    + intro r. destruct (length (measurements circuit) =? 1)%nat;
        [apply keeps_first | apply keeps_ret].
  - intro results. destruct (has_partitioned_shots (shots circuit));
      [apply keeps_ret | apply keeps_first].
Qed.

Lemma keeps_derivatives zeros_like self circuit interface :
  keeps cache_bounded (_derivatives zeros_like self circuit interface).
Proof.
  unfold _derivatives. apply keeps_bind.
  - apply keeps_mapM. intro mp.
    apply keeps_bind; [apply keeps_zero_measurement |].
    intro z. apply keeps_ret.
  - intro derivatives. apply keeps_bind.
    + destruct (length (trainable_params circuit) =? 1)%nat.
      * apply keeps_mapM. intro d. apply keeps_first.
      * apply keeps_ret.
    + intro ds. destruct (length ds =? 1)%nat;
        [apply keeps_first | apply keeps_ret].
Qed.

(** X1: for a measurement class without an overload of its own, and for
    density matrices, in any world whose cache entries are intact: when the
    measurement's shape for the given shots is a tuple of integers, the
    result is the all-zero array of that shape, with the batch size in
    front when there is one, of the measurement's numeric type, in the
    requested interface; when the measurement has no shape for the given
    shots, the error of its shape method comes out and the world is left as
    it was; so it is, with a [TypeError], when the shape holds the [Shots]
    object; and with a jax interface the world is left as it was in every
    case. *)
Theorem default_zero_result :
  forall (mp : MeasurementProcess) (n : nat) (shots : ShotsArg)
         (batch_size : option nat) (interface : string) (w : World),
    mp_kind mp = OtherMP \/ mp_kind mp = DensityMatrixMP ->
    cache_ok (zero_cache w) ->
    (forall s,
        mp_shape mp shots n = Some (map DInt s) ->
        exists a,
          fst (zero_measurement mp n shots batch_size interface w)
          = inr (RArray a)
          /\ arr_like a = interface
          /\ arr_dtype a = mp_numeric_type mp
          /\ zero_array (match batch_size with
                         | Some b => b :: s
                         | None => s
                         end) (RArray a))
    /\ (mp_shape mp shots n = None ->
        zero_measurement mp n shots batch_size interface w
        = (inl MeasurementShapeError, w))
    /\ (forall dims sh,
          mp_shape mp shots n = Some dims ->
          In (DShots sh) dims ->
          zero_measurement mp n shots batch_size interface w
          = (inl TypeError, w))
    /\ (contains "jax" interface = true ->
        snd (zero_measurement mp n shots batch_size interface w) = w).
Proof.
  intros mp n shots batch_size interface w Hkind Hw.
  assert (Hz : zero_measurement mp n shots batch_size interface
               = _zero_measurement mp n shots batch_size interface).
  { unfold zero_measurement. now destruct Hkind as [-> | ->]. }
  split; [| split; [| split]].
  - intros s Hs.
    destruct (refines_zero_measurement mp n shots batch_size interface w Hw)
      as [Hv _].
    exists (math_zeros (match batch_size with
                        | Some b => b :: s
                        | None => s
                        end) interface (mp_numeric_type mp)).
    split; [| split; [reflexivity | split; [reflexivity |]]].
    + rewrite Hv.
      assert (Hzv : zero_value mp n shots batch_size interface
                    = default_zero mp n shots batch_size interface).
      { unfold zero_value. now destruct Hkind as [-> | ->]. }
      rewrite Hzv. unfold default_zero, call_shape.
      rewrite Hs. cbn [bindE]. unfold math_zeros_tuple.
      now rewrite with_batch_ints, int_shape_ints.
    + apply zero_array_zeros.
  - intro Hs. rewrite Hz. unfold _zero_measurement, call_shape, bind, lift.
    now rewrite Hs.
  - intros dims sh Hs Hin. rewrite Hz.
    unfold _zero_measurement, call_shape, bind, lift, _cached_zero_return,
      math_zeros_tuple.
    rewrite Hs.
    rewrite (int_shape_shots _ sh
               (proj1 (with_batch_shots batch_size dims sh) Hin)).
    now destruct (contains "jax" interface).
  - intro Hjax. rewrite Hz.
    unfold _zero_measurement, call_shape, bind, lift. rewrite Hjax.
    cbn [negb]. destruct (mp_shape mp shots n) as [dims |]; [| reflexivity].
    now destruct (math_zeros_tuple (with_batch batch_size dims) interface
                    (mp_numeric_type mp)).
Qed.

Lemma default_zero_result_witness :
  (forall s,
      mp_shape density_01 (ArgInt 5) 2 = Some (map DInt s) ->
      exists a,
        fst (zero_measurement density_01 2 (ArgInt 5) (Some 3) "jax"
               world0) = inr (RArray a)
        /\ arr_like a = "jax"
        /\ arr_dtype a = mp_numeric_type density_01
        /\ zero_array (3 :: s) (RArray a))
  /\ (mp_shape density_01 (ArgInt 5) 2 = None ->
      zero_measurement density_01 2 (ArgInt 5) (Some 3) "jax" world0
      = (inl MeasurementShapeError, world0))
  /\ (forall dims sh,
        mp_shape density_01 (ArgInt 5) 2 = Some dims ->
        In (DShots sh) dims ->
        zero_measurement density_01 2 (ArgInt 5) (Some 3) "jax" world0
        = (inl TypeError, world0))
  /\ (contains "jax" "jax" = true ->
      snd (zero_measurement density_01 2 (ArgInt 5) (Some 3) "jax" world0)
      = world0).
Proof.
  apply (default_zero_result density_01 2 (ArgInt 5) (Some 3) "jax"
           world0).
  - right. reflexivity.
  - simpl. constructor.
Defined.

(** X2: [execute] and [compute_derivatives] keep the cache of zero arrays
    within its capacity of 128 entries and its keys distinct. *)
Theorem cache_stays_bounded :
  forall (zeros_like : Result -> Result) (self : NullQubit)
         (circuits : list Circuit) (execution_config : ExecutionConfig)
         (w : World),
    cache_bounded (zero_cache w) ->
    cache_bounded (zero_cache (snd (execute self circuits execution_config
                                      w)))
    /\ cache_bounded
         (zero_cache (snd (compute_derivatives zeros_like self circuits
                             execution_config w))).
Proof.
  intros zeros_like self circuits execution_config w Hw. split.
  - revert w Hw. apply keeps_mapM. intro c. apply keeps_simulate.
  - revert w Hw. apply keeps_mapM. intro c. apply keeps_derivatives.
Qed.

Lemma cache_stays_bounded_witness :
  cache_bounded
    (zero_cache (snd (execute tracking_qubit [two_params; two_params]
                        config_best world0)))
  /\ cache_bounded
       (zero_cache (snd (compute_derivatives (fun r => r) tracking_qubit
                           [two_params; two_params] config_best world0))).
Proof.
  apply (cache_stays_bounded (fun r => r) tracking_qubit
           [two_params; two_params] config_best world0).
  split; [simpl; unfold maxsize; lia | simpl; constructor].
Defined.

(** X3: calling the default overload again with the same arguments right
    after a call returns the same array and leaves the world, the order of
    the cache included, as the first call left it. *)
Theorem default_zero_repeated :
  forall (mp : MeasurementProcess) (n : nat) (shots : ShotsArg)
         (batch_size : option nat) (interface : string) (w : World),
    let first_call := _zero_measurement mp n shots batch_size interface w in
    _zero_measurement mp n shots batch_size interface (snd first_call)
    = first_call.
Proof.
  intros mp n shots batch_size interface w. cbv zeta.
  unfold _zero_measurement, call_shape, bind, lift.
  destruct (mp_shape mp shots n) as [dims |]; [| reflexivity].
  destruct (contains "jax" interface); cbn [negb].
  { now destruct (math_zeros_tuple (with_batch batch_size dims) interface
                    (mp_numeric_type mp)). }
  unfold _cached_zero_return.
  destruct (int_shape (with_batch batch_size dims)) as [shape |];
    [| reflexivity].
  set (k := (shape, interface, mp_numeric_type mp)).
  assert (Hhead : forall v rest,
             dict_get key_eqb ((k, v) :: rest) k = Some v
             /\ cache_remove k ((k, v) :: rest) = rest).
  { intros v rest. cbn [dict_get cache_remove].
    now rewrite key_eqb_refl. }
  destruct (dict_get key_eqb (zero_cache w) k) as [v |] eqn:E;
    cbn [fst snd ret zero_cache clock reads files].
  - destruct (Hhead v (cache_remove k (zero_cache w))) as [-> ->].
    reflexivity.
  - change (firstn maxsize ((k, math_zeros shape interface
                                  (mp_numeric_type mp)) :: zero_cache w))
      with ((k, math_zeros shape interface (mp_numeric_type mp))
              :: firstn 127 (zero_cache w)).
    destruct (Hhead (math_zeros shape interface (mp_numeric_type mp))
                (firstn 127 (zero_cache w))) as [-> ->].
    reflexivity.
Qed.

End Cache.

(* ================================================================== *)
(** ** When [zero_measurement] raises *)

Section Raising.

Lemma insert_sorted_nonempty x l : insert_sorted x l <> [].
Proof. destruct l as [| y t]; simpl; [| destruct (x <=? y)%Z]; discriminate. Qed.

Lemma sorted_nil l : sorted l = [] <-> l = [].
Proof.
  split; [| now intros ->].
  destruct l as [| x t]; [reflexivity |]. simpl. intro H.
  now apply insert_sorted_nonempty in H.
Qed.

Lemma default_raises mp n shots batch_size interface w e :
  fst (_zero_measurement mp n shots batch_size interface w) = inl e
  <-> (mp_shape mp shots n = None /\ e = MeasurementShapeError)
      \/ (exists dims sh,
            mp_shape mp shots n = Some dims /\ In (DShots sh) dims
            /\ e = TypeError).
Proof.
  unfold _zero_measurement, call_shape, bind, lift, _cached_zero_return,
    math_zeros_tuple.
  destruct (mp_shape mp shots n) as [dims |]; cbn [fst].
  - destruct (int_shape (with_batch batch_size dims)) as [s |] eqn:E.
    + split.
      * destruct (contains "jax" interface); cbn [negb];
          [discriminate |].
        now destruct (dict_get key_eqb (zero_cache w)
                        (s, interface, mp_numeric_type mp)).
      * intros [[H _] | (dims' & sh & Hd & Hin & _)]; [discriminate |].
        injection Hd as <-.
        apply (with_batch_shots batch_size) in Hin.
        apply int_shape_shots in Hin. congruence.
    + destruct (int_shape_none _ E) as [sh Hin].
      apply with_batch_shots in Hin. split.
      * intro H. right. exists dims, sh.
        split; [reflexivity | split; [exact Hin |]].
        destruct (contains "jax" interface); cbn [negb fst] in H;
          congruence.
      * intros [[H _] | (_ & _ & _ & _ & ->)]; [discriminate |].
        now destruct (contains "jax" interface).
  - split.
    + intro H. left. split; [reflexivity | congruence].
    + intros [[_ ->] | (dims & _ & H & _)]; [reflexivity | discriminate].
Qed.

Lemma shadow_raises mp n shots interface e :
  zero_measurement_ClassicalShadowMP mp n shots None interface = inl e
  <-> (mp_shape mp shots n = None /\ e = MeasurementShapeError)
      \/ (exists dims sh,
            mp_shape mp shots n = Some dims /\ In (DShots sh) dims
            /\ e = TypeError).
Proof.
  unfold zero_measurement_ClassicalShadowMP, call_shape, math_zeros_tuple.
  destruct (mp_shape mp shots n) as [dims |].
  - destruct (int_shape dims) as [s |] eqn:E.
    + split; [discriminate |].
      intros [[H _] | (dims' & sh & Hd & Hin & _)]; [discriminate |].
      injection Hd as <-. apply int_shape_shots in Hin. congruence.
    + destruct (int_shape_none _ E) as [sh Hin]. split.
      * intro H. right. exists dims, sh.
        split; [reflexivity | split; [exact Hin | congruence]].
      * now intros [[H _] | (_ & _ & _ & _ & ->)].
  - split.
    + intro H. left. split; [reflexivity | congruence].
    + intros [[_ ->] | (dims & _ & H & _)]; [reflexivity | discriminate].
Qed.

Lemma counts_raises mp all_outcomes n shots batch_size interface e :
  zero_measurement_CountsMP mp all_outcomes n shots batch_size interface
  = inl e
  <-> (mp_obs mp <> None \/ is_MeasurementValue (mp_mv mp) = true)
      /\ mp_eigvals mp = [] /\ e = IndexError.
Proof.
  unfold zero_measurement_CountsMP.
  destruct (sorted (mp_eigvals mp)) as [| m rest] eqn:Es.
  - apply (proj1 (sorted_nil _)) in Es. rewrite Es.
    destruct (mp_obs mp) as [o |], (is_MeasurementValue (mp_mv mp));
      cbv beta iota zeta.
    + split; [intro H; injection H as <- | now intros (_ & _ & ->)].
      split; [left; discriminate | split; reflexivity].
    + split; [intro H; injection H as <- | now intros (_ & _ & ->)].
      split; [left; discriminate | split; reflexivity].
    + split; [intro H; injection H as <- | now intros (_ & _ & ->)].
      split; [right; reflexivity | split; reflexivity].
    + split.
      * destruct all_outcomes, batch_size;
          try match goal with
              | |- context [match ?o with [] => _ | _ :: _ => _ end] =>
                  destruct o
              end; discriminate.
      * intros [[H | H] _]; [now elim H | discriminate].
  - assert (Hne : mp_eigvals mp <> []).
    { intro H. apply (proj2 (sorted_nil _)) in H. congruence. }
    split; [| intros (_ & H & _); contradiction].
    destruct (mp_obs mp) as [o |], (is_MeasurementValue (mp_mv mp));
      cbv beta iota zeta;
      destruct all_outcomes, batch_size;
      try match goal with
          | |- context [match ?o with [] => _ | _ :: _ => _ end] =>
              destruct o
          end; discriminate.
Qed.

(** X4: [zero_measurement] raises in these cases only, whatever the world:
    for a classical shadow with a batch size (the error about parameter
    broadcasting); for counts of an observable or of a mid-circuit
    measurement value without eigenvalues (an index error); and, where it
    asks the measurement for its shape, when the measurement has no shape
    for the given shots (the error of the shape method) or a shape that
    holds the [Shots] object (a type error of the array backend).  In every
    other case it returns a result. *)
Theorem zero_measurement_raises_iff :
  forall (mp : MeasurementProcess) (n : nat) (shots : ShotsArg)
         (batch_size : option nat) (interface : string) (w : World)
         (e : Exn),
    fst (zero_measurement mp n shots batch_size interface w) = inl e
    <-> (mp_kind mp = ClassicalShadowMP /\ batch_size <> None
         /\ e = ValueError broadcasting_message)
        \/ (exists all_outcomes,
              mp_kind mp = CountsMP all_outcomes
              /\ (mp_obs mp <> None
                  \/ is_MeasurementValue (mp_mv mp) = true)
              /\ mp_eigvals mp = [] /\ e = IndexError)
        \/ (asks_for_shape mp batch_size = true
            /\ mp_shape mp shots n = None /\ e = MeasurementShapeError)
        \/ (asks_for_shape mp batch_size = true
            /\ exists dims sh,
                mp_shape mp shots n = Some dims /\ In (DShots sh) dims
                /\ e = TypeError).
Proof.
  intros mp n shots batch_size interface w e.
  unfold zero_measurement, asks_for_shape.
  destruct (mp_kind mp) eqn:Hkind; cbn [lift ret fst].
  - destruct batch_size as [b |]; cbn [is_None].
    + unfold zero_measurement_ClassicalShadowMP. split.
      * intro H. injection H as <-. left. repeat split. discriminate.
      * intros [(_ & _ & ->) | [(ao & Hao & _) | [(H & _) | (H & _)]]];
          [reflexivity | discriminate ..].
    + rewrite shadow_raises. split.
      * intros [H | H]; [right; right; left | right; right; right];
          (split; [reflexivity | exact H]).
      * intros [(_ & H & _) | [(ao & Hao & _) | [(_ & H) | (_ & H)]]];
          [now elim H | discriminate | now left | now right].
  - rewrite counts_raises. split.
    + intro H. right. left. now exists all_outcomes.
    + intros [(H & _) | [(ao & _ & H) | [(H & _) | (H & _)]]];
        [discriminate | exact H | discriminate ..].
  - rewrite default_raises. split.
    + intros [H | H]; [right; right; left | right; right; right];
        (split; [reflexivity | exact H]).
    + intros [(H & _) | [(ao & H & _) | [(_ & H) | (_ & H)]]];
        [discriminate .. | now left | now right].
  - split; [discriminate |].
    intros [(H & _) | [(ao & H & _) | [(H & _) | (H & _)]]];
      discriminate.
  - split; [discriminate |].
    intros [(H & _) | [(ao & H & _) | [(H & _) | (H & _)]]];
      discriminate.
  - rewrite default_raises. split.
    + intros [H | H]; [right; right; left | right; right; right];
        (split; [reflexivity | exact H]).
    + intros [(H & _) | [(ao & H & _) | [(_ & H) | (_ & H)]]];
        [discriminate .. | now left | now right].
Qed.

End Raising.

(* ================================================================== *)
(** ** Derivatives *)

Section DerivativeProperties.

Variable zeros_like : Result -> Result.

Lemma same_io_refl w : same_io w w.
Proof. repeat split. Qed.

Lemma same_io_trans w1 w2 w3 :
  same_io w1 w2 -> same_io w2 w3 -> same_io w1 w3.
Proof. intros (? & ? & ?) (? & ? & ?). repeat split; congruence. Qed.

Lemma no_io_ret {A : Type} (a : A) : no_io (ret a).
Proof. intro w. apply same_io_refl. Qed.

Lemma no_io_lift {A : Type} (r : Exn + A) : no_io (lift r).
Proof. intro w. apply same_io_refl. Qed.

Lemma no_io_first {A : Type} (l : list A) : no_io (first l).
Proof. destruct l; intro w; apply same_io_refl. Qed.

Lemma no_io_bind {A B : Type} (m : M A) (k : A -> M B) :
  no_io m -> (forall a, no_io (k a)) -> no_io (bind m k).
Proof.
  intros Hm Hk w. unfold bind. specialize (Hm w).
  destruct (m w) as [[e | a] w1]; cbn [snd] in *; [exact Hm |].
  eapply same_io_trans; [exact Hm | apply Hk].
Qed.

Lemma no_io_mapM {A B : Type} (f : A -> M B) (l : list A) :
  (forall x, no_io (f x)) -> no_io (mapM f l).
Proof.
  intro H. induction l as [| x t IH]; simpl.
  - apply no_io_ret.
  - apply no_io_bind; [apply H |]. intro y.
    apply no_io_bind; [exact IH |]. intro ys. apply no_io_ret.
Qed.

Lemma no_io_zero_measurement mp n shots batch_size interface :
  no_io (zero_measurement mp n shots batch_size interface).
Proof.
  assert (Hdefault :
            no_io (_zero_measurement mp n shots batch_size interface)).
  { unfold _zero_measurement.
    apply no_io_bind; [apply no_io_lift |]. intro dims.
    destruct (contains "jax" interface); simpl.
    { apply no_io_bind; [apply no_io_lift | intro a; apply no_io_ret]. }
    apply no_io_bind; [| intro a; apply no_io_ret].
    intro w. unfold _cached_zero_return.
    destruct (int_shape (with_batch batch_size dims)) as [s |];
      [| apply same_io_refl].
    match goal with
    | |- context [dict_get key_eqb ?c ?k] => destruct (dict_get key_eqb c k)
    end; repeat split. }
  unfold zero_measurement.
  destruct (mp_kind mp); try exact Hdefault;
    try apply no_io_lift; apply no_io_ret.
Qed.

Lemma no_io_derivatives self circuit interface :
  no_io (_derivatives zeros_like self circuit interface).
Proof.
  unfold _derivatives. apply no_io_bind.
  - apply no_io_mapM. intro mp.
    apply no_io_bind; [apply no_io_zero_measurement |].
    intro z. apply no_io_ret.
  - intro derivatives. apply no_io_bind.
    + destruct (length (trainable_params circuit) =? 1)%nat.
      * apply no_io_mapM. intro d. apply no_io_first.
      * apply no_io_ret.
    + intro ds. destruct (length ds =? 1)%nat;
        [apply no_io_first | apply no_io_ret].
Qed.

Lemma no_io_simulate_untracked self circuit interface :
  track_resources self = false ->
  no_io (_simulate self circuit interface).
Proof.
  intro Htrack. rewrite _simulate_track. unfold track. rewrite Htrack.
  apply no_io_bind; [apply no_io_ret |]. intros _.
  unfold simulate_body. apply no_io_bind.
  - apply no_io_mapM. intro s. apply no_io_bind.
    + apply no_io_mapM. intro mp. apply no_io_zero_measurement.
    + intro r. destruct (length (measurements circuit) =? 1)%nat;
        [apply no_io_first | apply no_io_ret].
  - intro results. destruct (has_partitioned_shots (shots circuit));
      [apply no_io_ret | apply no_io_first].
Qed.

Lemma mapE_bind_inr {A B C : Type} (f : A -> Exn + B) (g : B -> C)
    (l : list A) :
  mapE (fun x => bindE (f x) (fun y => inr (g y))) l
  = bindE (mapE f l) (fun ys => inr (map g ys)).
Proof.
  induction l as [| x t IH]; simpl; [reflexivity |].
  destruct (f x) as [e | y]; simpl; [reflexivity |].
  rewrite IH. now destruct (mapE f t).
Qed.

Lemma mapE_first_singletons {A : Type} (f : A -> Result) (l : list A) :
  mapE firstE (map (fun z => repeat (f z) 1) l) = inr (map f l).
Proof.
  induction l as [| x t IH]; [reflexivity |].
  cbn [map mapE]. rewrite IH. reflexivity.
Qed.

Lemma derivatives_value_shape n circuit interface :
  derivatives_value zeros_like n circuit interface
  = bindE (mapE (fun mp => zero_value mp n (ArgShots (shots circuit))
                             (batch_size circuit) interface)
             (measurements circuit))
      (fun zs =>
         inr (match zs with
              | [z] =>
                  per_measurement zeros_like
                    (length (trainable_params circuit)) z
              | _ =>
                  RTuple (map (per_measurement zeros_like
                                 (length (trainable_params circuit))) zs)
              end)).
Proof.
  unfold derivatives_value, per_measurement.
  set (k := length (trainable_params circuit)).
  rewrite (mapE_bind_inr _ (fun z => repeat (zeros_like z) k)).
  destruct (mapE _ (measurements circuit)) as [e | zs]; simpl;
    [reflexivity |].
  destruct (k =? 1)%nat eqn:Ek.
  - apply Nat.eqb_eq in Ek. rewrite Ek, mapE_first_singletons. simpl.
    rewrite length_map. now destruct zs as [| z [| z' zs]].
  - simpl. rewrite !length_map.
    destruct zs as [| z [| z' zs]]; simpl; try reflexivity.
    now rewrite !map_map.
Qed.

(** X11: [_derivatives] yields, for each measurement in order, a tuple of
    as many copies of the zero of the measurement's result as there are
    trainable parameters; with exactly one trainable parameter the tuple
    gives way to its single entry, and with exactly one measurement the
    outer level gives way to its single entry too.  It raises exactly what
    the first raising measurement raises, and never by itself. *)
Theorem derivatives_structure :
  forall (self : NullQubit) (c : Circuit) (interface : string) (w : World),
    cache_ok (zero_cache w) ->
    fst (_derivatives zeros_like self c interface w)
    = bindE (mapE (fun mp =>
                     zero_value mp (num_device_wires_of self c)
                       (ArgShots (shots c)) (batch_size c) interface)
               (measurements c))
        (fun zs =>
           inr (match zs with
                | [z] =>
                    per_measurement zeros_like
                      (length (trainable_params c)) z
                | _ =>
                    RTuple (map (per_measurement zeros_like
                                   (length (trainable_params c))) zs)
                end)).
Proof.
  intros self c interface w Hw.
  destruct (refines_derivatives zeros_like self c interface w Hw)
    as [Hv _].
  rewrite Hv. apply derivatives_value_shape.
Qed.

(** X12: [compute_derivatives] never reads the clock and never creates a
    file, whether the device tracks resources or not; without resource
    tracking neither does [execute]. *)
Theorem derivatives_never_track :
  forall (self : NullQubit) (circuits : list Circuit)
         (execution_config : ExecutionConfig) (w : World),
    same_io w (snd (compute_derivatives zeros_like self circuits
                      execution_config w))
    /\ (track_resources self = false ->
        same_io w (snd (execute self circuits execution_config w))).
Proof.
  intros self circuits execution_config w. split.
  - revert w. apply no_io_mapM. intro c. apply no_io_derivatives.
  - intro Htrack. revert w. apply no_io_mapM. intro c.
    now apply no_io_simulate_untracked.
Qed.

Lemma refines_compute_derivatives self circuits execution_config :
  refines (compute_derivatives zeros_like self circuits execution_config)
          (mapE (fun c => derivatives_value zeros_like
                            (num_device_wires_of self c) c
                            (_interface execution_config)) circuits).
Proof.
  unfold compute_derivatives. apply refines_mapM. intro c.
  apply refines_derivatives.
Qed.

(** X13: [execute_and_compute_derivatives] raises what [execute] raises
    when it raises; otherwise it pairs the results of [execute] with what
    [compute_derivatives] yields for the same arguments, and it leaves the
    same files as [execute] alone. *)
Theorem execute_and_derivatives_composes :
  forall (self : NullQubit) (circuits : list Circuit)
         (execution_config : ExecutionConfig) (w : World),
    cache_ok (zero_cache w) ->
    fst (execute_and_compute_derivatives zeros_like self circuits
           execution_config w)
    = bindE (fst (execute self circuits execution_config w))
        (fun results =>
           bindE (fst (compute_derivatives zeros_like self circuits
                         execution_config w))
             (fun jacs => inr (results, jacs)))
    /\ files (snd (execute_and_compute_derivatives zeros_like self circuits
                     execution_config w))
       = files (snd (execute self circuits execution_config w)).
Proof.
  intros self circuits execution_config w Hw.
  destruct (execute_outcome self circuits execution_config w Hw)
    as [Hok _].
  destruct (refines_compute_derivatives self circuits execution_config w Hw)
    as [Hv _].
  assert (Hunfold :
            execute_and_compute_derivatives zeros_like self circuits
              execution_config w
            = match execute self circuits execution_config w with
              | (inl e, w1) => (inl e, w1)
              | (inr rs, w1) =>
                  match compute_derivatives zeros_like self circuits
                          execution_config w1 with
                  | (inl e, w2) => (inl e, w2)
                  | (inr js, w2) => (inr (rs, js), w2)
                  end
              end) by reflexivity.
  rewrite Hunfold. clear Hunfold.
  destruct (execute self circuits execution_config w) as [[e | rs] w1];
    cbn [fst snd bindE] in *; [now split |].
  destruct (refines_compute_derivatives self circuits execution_config w1
              Hok) as [Hv1 (_ & _ & _ & Hf)].
  rewrite Hv, <- Hv1.
  destruct (compute_derivatives zeros_like self circuits execution_config
              w1) as [[e | js] w2]; cbn [fst snd bindE] in *; now split.
Qed.

End DerivativeProperties.

Lemma derivatives_structure_witness :
  fst (_derivatives (fun r => r) null_qubit one_param_two_measurements
         "numpy" world0)
  = bindE (mapE (fun mp =>
                   zero_value mp
                     (num_device_wires_of null_qubit
                        one_param_two_measurements)
                     (ArgShots (shots one_param_two_measurements))
                     (batch_size one_param_two_measurements) "numpy")
             (measurements one_param_two_measurements))
      (fun zs =>
         inr (match zs with
              | [z] =>
                  per_measurement (fun r => r)
                    (length (trainable_params one_param_two_measurements))
                    z
              | _ =>
                  RTuple
                    (map (per_measurement (fun r => r)
                            (length (trainable_params
                                       one_param_two_measurements))) zs)
              end)).
Proof.
  apply (derivatives_structure (fun r => r) null_qubit
           one_param_two_measurements "numpy" world0).
  simpl. constructor.
Defined.

Lemma execute_and_derivatives_composes_witness :
  fst (execute_and_compute_derivatives (fun r => r) tracking_qubit
         [one_param_two_measurements] config_best world0)
  = bindE (fst (execute tracking_qubit [one_param_two_measurements]
                  config_best world0))
      (fun results =>
         bindE (fst (compute_derivatives (fun r => r) tracking_qubit
                       [one_param_two_measurements] config_best world0))
           (fun jacs => inr (results, jacs)))
  /\ files (snd (execute_and_compute_derivatives (fun r => r)
                   tracking_qubit [one_param_two_measurements] config_best
                   world0))
     = files (snd (execute tracking_qubit [one_param_two_measurements]
                     config_best world0)).
Proof.
  apply (execute_and_derivatives_composes (fun r => r) tracking_qubit
           [one_param_two_measurements] config_best world0).
  simpl. constructor.
Defined.

(* ================================================================== *)
(** ** Report files *)

Section ReportFiles.

Lemma N_of_str_of_N n : N_of_str (str_of_N n) = Some n.
Proof.
  unfold N_of_str, str_of_N.
  rewrite NilZero.usu.
  - simpl. now rewrite DecimalN.Unsigned.of_to.
  - destruct n as [| p]; simpl; [discriminate |].
    apply DecimalPos.Unsigned.to_uint_nonnil.
Qed.

Lemma str_app_inv_head (p a b : string) :
  (p ++ a = p ++ b)%string -> a = b.
Proof.
  induction p as [| ch p IH]; simpl; [auto |].
  intro H. injection H as H. now apply IH.
Qed.

Lemma str_app_inv_tail (a b t : string) :
  (a ++ t = b ++ t)%string -> a = b.
Proof.
  revert b. induction a as [| ch a IH]; intros [| ch' b] H; simpl in H.
  - reflexivity.
  - exfalso. apply (f_equal String.length) in H.
    simpl in H. rewrite str_length_app in H. lia.
  - exfalso. apply (f_equal String.length) in H.
    simpl in H. rewrite str_length_app in H. lia.
  - injection H as -> H. now rewrite (IH b H).
Qed.

Lemma resources_fname_inj a b :
  resources_fname a = resources_fname b -> a = b.
Proof.
  unfold resources_fname. intro H.
  apply str_app_inv_head in H. apply str_app_inv_tail in H.
  apply (f_equal N_of_str) in H. rewrite !N_of_str_of_N in H.
  now injection H.
Qed.

(** X14: the name of a report file determines the timestamp it is made
    from: two timestamps give the same file name only if they are equal. *)
Theorem report_name_determines_timestamp :
  forall a b : N, resources_fname a = resources_fname b <-> a = b.
Proof.
  intros a b. split; [apply resources_fname_inj | now intros ->].
Qed.

Lemma dict_get_app_fresh (d : PyDict string ResourceReport) k k' v :
  k <> k' ->
  dict_get String.eqb (d ++ [(k, v)]) k' = dict_get String.eqb d k'.
Proof.
  intro Hne. induction d as [| [k0 v0] t IH]; simpl.
  - apply String.eqb_neq in Hne. now rewrite Hne.
  - now rewrite IH.
Qed.

Lemma stamps_S w k :
  stamps w (S k)
  = clock w (reads w)
      :: map (fun i => clock w (S (reads w) + i)) (seq 0 k).
Proof.
  unfold stamps. simpl. rewrite Nat.add_0_r. f_equal.
  rewrite <- seq_shift, map_map. apply map_ext. intro i. f_equal. lia.
Qed.

Lemma default_zero_not_file_exists mp n s b i f :
  default_zero mp n s b i <> inl (FileExistsError f).
Proof.
  unfold default_zero, call_shape, math_zeros_tuple.
  destruct (mp_shape mp s n) as [dims |]; [| discriminate].
  cbn [bindE]. now destruct (int_shape (with_batch b dims)).
Qed.

Lemma zero_value_not_file_exists mp n s b i f :
  zero_value mp n s b i <> inl (FileExistsError f).
Proof.
  unfold zero_value. destruct (mp_kind mp); try discriminate;
    try apply default_zero_not_file_exists.
  - destruct b; [discriminate |]. intro H. apply shadow_raises in H.
    destruct H as [[_ H] | (_ & _ & _ & _ & H)]; discriminate.
  - intro H. apply counts_raises in H. destruct H as (_ & _ & H).
    discriminate.
Qed.

Lemma bindE_not_file_exists {A B : Type} (m : Exn + A) (k : A -> Exn + B)
    f :
  m <> inl (FileExistsError f) ->
  (forall a, k a <> inl (FileExistsError f)) ->
  bindE m k <> inl (FileExistsError f).
Proof.
  intros Hm Hk. destruct m as [e | a]; simpl; [| apply Hk].
  intro H. apply Hm. congruence.
Qed.

Lemma mapE_not_file_exists {A B : Type} (g : A -> Exn + B) (l : list A) f :
  (forall x, g x <> inl (FileExistsError f)) ->
  mapE g l <> inl (FileExistsError f).
Proof.
  intro Hg. induction l as [| x l IH]; simpl; [discriminate |].
  apply bindE_not_file_exists; [apply Hg |]. intro y.
  apply bindE_not_file_exists; [exact IH | discriminate].
Qed.

Lemma firstE_not_file_exists {A : Type} (l : list A) f :
  firstE l <> inl (FileExistsError f).
Proof. destruct l; discriminate. Qed.

Lemma simulate_value_not_file_exists n c interface f :
  simulate_value n c interface <> inl (FileExistsError f).
Proof.
  unfold simulate_value. apply bindE_not_file_exists.
  - apply mapE_not_file_exists. intro s. apply bindE_not_file_exists.
    + apply mapE_not_file_exists. intro mp.
      apply zero_value_not_file_exists.
    + intro r. destruct (length (measurements c) =? 1)%nat;
        [apply firstE_not_file_exists | discriminate].
  - intro results. destruct (has_partitioned_shots (shots c));
      [discriminate | apply firstE_not_file_exists].
Qed.

Lemma execute_fresh self circuits execution_config :
  track_resources self = true ->
  forall w,
    cache_ok (zero_cache w) ->
    NoDup (stamps w (length circuits)) ->
    (forall t, In t (stamps w (length circuits)) ->
               dict_get String.eqb (files w) (resources_fname t) = None) ->
    fst (execute self circuits execution_config w)
    = execute_value self circuits execution_config.
Proof.
  intro Htrack. induction circuits as [| c t IH]; intros w Hw Hnd Hfresh.
  - reflexivity.
  - rewrite execute_cons. unfold bind.
    pose proof (_simulate_tracked self c (_interface execution_config) w
                  Htrack Hw) as H.
    cbv zeta in H.
    assert (Hnew : dict_get String.eqb (files w)
                     (resources_fname (clock w (reads w))) = None).
    { apply Hfresh. cbn [length]. rewrite stamps_S. now left. }
    assert (Hbody :
              _simulate self c (_interface execution_config) w
              = simulate_body (num_device_wires_of self c) c
                  (_interface execution_config)
                  {| clock := clock w; reads := S (reads w);
                     files := files w
                              ++ [(resources_fname (clock w (reads w)),
                                   _simulate_resource_use c)];
                     zero_cache := zero_cache w |}).
    { rewrite _simulate_track. unfold bind, track. rewrite Htrack.
      unfold bind, time_ns, open_x_dump. cbn [clock reads files zero_cache].
      now rewrite Hnew. }
    unfold execute_value. cbn [mapE].
    destruct (_simulate self c (_interface execution_config) w)
      as [[e | r] w1] eqn:Esim; cbn [fst snd] in *.
    + destruct H as (_ & _ & _ & [He | He]); [| now rewrite He].
      exfalso. subst e. clear Esim. symmetry in Hbody.
      rename Hbody into Esim.
      match type of Esim with
      | ?m ?w0 = _ =>
          destruct (refines_simulate_body (num_device_wires_of self c) c
                      (_interface execution_config) w0 Hw) as [Hv _]
      end.
      rewrite Esim in Hv. cbn [fst] in Hv.
      symmetry in Hv. now apply simulate_value_not_file_exists in Hv.
    + destruct H as (Hok & Hc & Hr & Hv & Hf). rewrite Hv. cbn [bindE].
      assert (IH' : fst (execute self t execution_config w1)
                    = execute_value self t execution_config).
      { apply IH; [exact Hok | |].
        - cbn [length] in Hnd. rewrite stamps_S in Hnd.
          inversion Hnd as [| x l _ Hl]; subst.
          unfold stamps. rewrite Hc, Hr. exact Hl.
        - intros t0 Ht0. rewrite Hf.
          cbn [length] in Hnd, Hfresh. rewrite stamps_S in Hnd, Hfresh.
          unfold stamps in Ht0. rewrite Hc, Hr in Ht0.
          inversion Hnd as [| x l Hx Hl]; subst.
          rewrite dict_get_app_fresh.
          + apply Hfresh. now right.
          + intro Heq. apply resources_fname_inj in Heq.
            rewrite <- Heq in Ht0. contradiction. }
      unfold execute_value in IH'.
      destruct (execute self t execution_config w1) as [[e | rs] w2];
        cbn [fst snd ret] in *; now rewrite <- IH'.
Qed.

(** X15: when the clock readings taken during a tracked execution are
    pairwise different and no file named after one of them exists
    beforehand, [execute] never raises [FileExistsError]: its outcome,
    other exceptions included, is that of the execution without resource
    tracking, and on return it has created one report file per circuit and
    read the clock once per circuit. *)
Theorem tracked_execute_with_fresh_names :
  forall (self : NullQubit) (circuits : list Circuit)
         (execution_config : ExecutionConfig) (w : World),
    track_resources self = true ->
    cache_ok (zero_cache w) ->
    NoDup (stamps w (length circuits)) ->
    (forall t, In t (stamps w (length circuits)) ->
               dict_get String.eqb (files w) (resources_fname t) = None) ->
    fst (execute self circuits execution_config w)
    = execute_value self circuits execution_config
    /\ (forall rs,
          fst (execute self circuits execution_config w) = inr rs ->
          files (snd (execute self circuits execution_config w))
          = files w ++ written (clock w) (reads w) circuits
          /\ length (written (clock w) (reads w) circuits)
             = length circuits
          /\ reads (snd (execute self circuits execution_config w))
             = reads w + length circuits).
Proof.
  intros self circuits execution_config w Htrack Hw Hnd Hfresh.
  split; [now apply execute_fresh |].
  intros rs Hrs.
  pose proof (execute_tracked self circuits execution_config Htrack w Hw)
    as H. cbv zeta in H. rewrite Hrs in H.
  destruct H as (_ & _ & _ & Hf & Hr).
  split; [exact Hf | split; [| exact Hr]].
  rewrite <- (length_map snd), map_snd_written. apply length_map.
Qed.

Lemma tracked_execute_with_fresh_names_witness :
  fst (execute tracking_qubit [two_params; broadcast_shadow; two_params]
         config_best world1)
  = execute_value tracking_qubit
      [two_params; broadcast_shadow; two_params] config_best
  /\ (forall rs,
        fst (execute tracking_qubit
               [two_params; broadcast_shadow; two_params] config_best
               world1) = inr rs ->
        files (snd (execute tracking_qubit
                      [two_params; broadcast_shadow; two_params]
                      config_best world1))
        = files world1
            ++ written (clock world1) (reads world1)
                 [two_params; broadcast_shadow; two_params]
        /\ length (written (clock world1) (reads world1)
                    [two_params; broadcast_shadow; two_params])
           = length [two_params; broadcast_shadow; two_params]
        /\ reads (snd (execute tracking_qubit
                         [two_params; broadcast_shadow; two_params]
                         config_best world1))
           = reads world1
             + length [two_params; broadcast_shadow; two_params]).
Proof.
  apply (tracked_execute_with_fresh_names tracking_qubit
           [two_params; broadcast_shadow; two_params] config_best world1).
  - reflexivity.
  - simpl. constructor.
  - vm_compute. repeat constructor; simpl; intuition discriminate.
  - intros t Ht. vm_compute in Ht.
    destruct Ht as [<- | [<- | [<- | []]]]; reflexivity.
Defined.

(** X16: the report of a circuit is written before its results are made:
    when the file name is free and a measurement of the circuit raises, a
    tracked [_simulate] raises that exception and still leaves the report
    file of the circuit behind. *)
Theorem report_written_before_results :
  forall (self : NullQubit) (c : Circuit) (interface : string) (w : World)
         (e : Exn),
    track_resources self = true ->
    cache_ok (zero_cache w) ->
    dict_get String.eqb (files w) (resources_fname (clock w (reads w)))
    = None ->
    simulate_value (num_device_wires_of self c) c interface = inl e ->
    fst (_simulate self c interface w) = inl e
    /\ files (snd (_simulate self c interface w))
       = files w ++ [(resources_fname (clock w (reads w)),
                      _simulate_resource_use c)].
Proof.
  intros self c interface w e Htrack Hw Hnew Hv.
  assert (Hbody :
            _simulate self c interface w
            = simulate_body (num_device_wires_of self c) c interface
                {| clock := clock w; reads := S (reads w);
                   files := files w
                            ++ [(resources_fname (clock w (reads w)),
                                 _simulate_resource_use c)];
                   zero_cache := zero_cache w |}).
  { rewrite _simulate_track. unfold bind, track. rewrite Htrack.
    unfold bind, time_ns, open_x_dump. cbn [clock reads files zero_cache].
    now rewrite Hnew. }
  rewrite Hbody.
  match goal with
  | |- context [simulate_body ?n ?c ?i ?w0] =>
      destruct (refines_simulate_body n c i w0 Hw)
        as [Hfst (_ & _ & _ & Hf)]
  end.
  split; [congruence | exact Hf].
Qed.

Lemma report_written_before_results_witness :
  fst (_simulate tracking_qubit broadcast_shadow "numpy" world0)
  = inl (ValueError broadcasting_message)
  /\ files (snd (_simulate tracking_qubit broadcast_shadow "numpy" world0))
     = files world0
         ++ [(resources_fname (clock world0 (reads world0)),
              _simulate_resource_use broadcast_shadow)].
Proof.
  apply (report_written_before_results tracking_qubit broadcast_shadow
           "numpy" world0 (ValueError broadcasting_message)).
  - reflexivity.
  - simpl. constructor.
  - reflexivity.
  - reflexivity.
Defined.

End ReportFiles.

(* ================================================================== *)
(** ** What the results depend on *)

Section NoSimulation.

Lemma execute_value_agree self circuits circuits' execution_config :
  Forall2 (same_request self) circuits circuits' ->
  execute_value self circuits execution_config
  = execute_value self circuits' execution_config.
Proof.
  unfold execute_value.
  induction 1 as [| c c' t t' (Hm & Hs & Hb & Hn) _ IH]; simpl;
    [reflexivity |].
  rewrite IH, !num_device_wires_effective, Hn. f_equal.
  unfold simulate_value. now rewrite Hm, Hs, Hb.
Qed.

(** X17: what [execute] returns for a circuit depends on its measurements,
    its shots, its batch size and the wire count of the device for it (the
    number of wires of the circuit when the device has none) only: two
    batches whose circuits agree on these, whatever their operations and
    trainable parameters, give the same outcome without resource tracking,
    exceptions included, and with it the same results whenever both
    executions return. *)
Theorem results_ignore_operations :
  forall (self : NullQubit) (circuits circuits' : list Circuit)
         (execution_config : ExecutionConfig) (w1 w2 : World),
    cache_ok (zero_cache w1) ->
    cache_ok (zero_cache w2) ->
    Forall2 (same_request self) circuits circuits' ->
    (track_resources self = false ->
     fst (execute self circuits execution_config w1)
     = fst (execute self circuits' execution_config w2))
    /\ (forall rs1 rs2,
          fst (execute self circuits execution_config w1) = inr rs1 ->
          fst (execute self circuits' execution_config w2) = inr rs2 ->
          rs1 = rs2).
Proof.
  intros self circuits circuits' execution_config w1 w2 Hw1 Hw2 Hsame.
  pose proof (execute_value_agree self circuits circuits' execution_config
                Hsame) as Hv.
  split.
  - intro Htrack.
    destruct (refines_execute_untracked self circuits execution_config
                Htrack w1 Hw1) as [Hv1 _].
    destruct (refines_execute_untracked self circuits' execution_config
                Htrack w2 Hw2) as [Hv2 _].
    congruence.
  - intros rs1 rs2 H1 H2.
    apply (execute_outcome self _ execution_config w1 Hw1) in H1.
    apply (execute_outcome self _ execution_config w2 Hw2) in H2.
    destruct H1 as [H1 _], H2 as [H2 _]. congruence.
Qed.

Lemma results_ignore_operations_witness :
  (track_resources tracking_qubit = false ->
   fst (execute tracking_qubit [rx_ry_rx; probs_on [WInt 0]] config_best
          world0)
   = fst (execute tracking_qubit [rx_alone; probs_on [WInt 0; WInt 1]]
            config_best world1))
  /\ (forall rs1 rs2,
        fst (execute tracking_qubit [rx_ry_rx; probs_on [WInt 0]]
               config_best world0) = inr rs1 ->
        fst (execute tracking_qubit [rx_alone; probs_on [WInt 0; WInt 1]]
               config_best world1) = inr rs2 ->
        rs1 = rs2).
Proof.
  apply (results_ignore_operations tracking_qubit
           [rx_ry_rx; probs_on [WInt 0]]
           [rx_alone; probs_on [WInt 0; WInt 1]] config_best world0 world1).
  - simpl. constructor.
  - simpl. constructor.
  - repeat constructor.
Defined.

End NoSimulation.

(* ================================================================== *)
(** ** Capability queries and the normalised configuration *)

Section Capabilities.

(** X18: when the caller left [use_device_gradient] unset, [preprocess]
    sets it to what [supports_derivatives] answers for the configuration
    it returns, which is also what [supports_vjp] and [supports_jvp]
    answer. *)
Theorem device_gradient_iff_supported :
  forall (self : NullQubit) (h : Heap) (r : ref) (config : ExecutionConfig),
    deref h r = Some config ->
    use_device_gradient config = None ->
    exists h' r' config',
      preprocess self h r = Some (h', r')
      /\ deref h' r' = Some config'
      /\ use_device_gradient config'
         = Some (supports_derivatives self (Some config') None)
      /\ supports_vjp self (Some config') None
         = supports_derivatives self (Some config') None
      /\ supports_jvp self (Some config') None
         = supports_derivatives self (Some config') None.
Proof.
  intros self h r config Hr Hg.
  unfold preprocess. rewrite Hr. unfold replace.
  eexists. eexists. eexists.
  split; [reflexivity |]. split; [apply deref_app_new |].
  split; [| split; reflexivity].
  rewrite Hg. cbn [is_None override use_device_gradient
                   supports_derivatives gradient_method].
  destruct (gradient_method config) as [g |]; [| reflexivity].
  cbn [str_in existsb].
  destruct (String.eqb g "best") eqn:Eb; cbn [orb override];
    [reflexivity |].
  destruct (String.eqb g "adjoint") eqn:Ea;
    cbn [orb override str_in existsb upd_use_device_gradient
         upd_gradient_method].
  - now rewrite orb_true_r.
  - rewrite Ea. now destruct (String.eqb g "device"),
                        (String.eqb g "backprop").
Qed.

Lemma device_gradient_iff_supported_witness :
  exists h' r' config',
    preprocess null_qubit [config_best] 0 = Some (h', r')
    /\ deref h' r' = Some config'
    /\ use_device_gradient config'
       = Some (supports_derivatives null_qubit (Some config') None)
    /\ supports_vjp null_qubit (Some config') None
       = supports_derivatives null_qubit (Some config') None
    /\ supports_jvp null_qubit (Some config') None
       = supports_derivatives null_qubit (Some config') None.
Proof.
  apply (device_gradient_iff_supported null_qubit [config_best] 0
           config_best).
  - reflexivity.
  - reflexivity.
Defined.

(** X19: [preprocess] always returns a new object; it keeps the interface
    and every flag the caller set; and normalising the configuration it
    returned changes nothing more: the second result equals the first. *)
Theorem preprocess_idempotent :
  forall (self : NullQubit) (h : Heap) (r : ref) (config : ExecutionConfig),
    deref h r = Some config ->
    exists h1 r1 config1 h2 r2,
      preprocess self h r = Some (h1, r1)
      /\ deref h1 r1 = Some config1
      /\ r1 <> r
      /\ interface_like config1 = interface_like config
      /\ (forall b, use_device_gradient config = Some b ->
                    use_device_gradient config1 = Some b)
      /\ (forall b, use_device_jacobian_product config = Some b ->
                    use_device_jacobian_product config1 = Some b)
      /\ (forall b, grad_on_execution config = Some b ->
                    grad_on_execution config1 = Some b)
      /\ preprocess self h1 r1 = Some (h2, r2)
      /\ r2 <> r1
      /\ deref h2 r2 = Some config1.
Proof.
  intros self h r config Hr.
  assert (Hlt : r < length h).
  { apply nth_error_Some. unfold deref in Hr. congruence. }
  unfold preprocess at 1. rewrite Hr. unfold replace.
  eexists. eexists. eexists. eexists. eexists.
  split; [reflexivity |]. split; [apply deref_app_new |].
  split; [lia |]. split; [reflexivity |].
  split; [intros b Hb; cbn; now rewrite Hb |].
  split; [intros b Hb; cbn; now rewrite Hb |].
  split; [intros b Hb; cbn; now rewrite Hb |].
  unfold preprocess. rewrite deref_app_new. unfold replace.
  split; [reflexivity |]. split; [rewrite length_app; simpl; lia |].
  rewrite deref_app_new. f_equal.
  destruct (str_in (gradient_method config) ["best"; "adjoint"]) eqn:E;
    destruct (use_device_gradient config),
      (use_device_jacobian_product config), (grad_on_execution config);
    cbn [override is_None gradient_method interface_like
         use_device_gradient use_device_jacobian_product grad_on_execution
         upd_gradient_method upd_use_device_gradient
         upd_use_device_jacobian_product upd_grad_on_execution];
    rewrite ?E; reflexivity.
Qed.

Lemma preprocess_idempotent_witness :
  exists h1 r1 config1 h2 r2,
    preprocess null_qubit [config_best; config_parameter_shift] 1
    = Some (h1, r1)
    /\ deref h1 r1 = Some config1
    /\ r1 <> 1
    /\ interface_like config1 = interface_like config_parameter_shift
    /\ (forall b, use_device_gradient config_parameter_shift = Some b ->
                  use_device_gradient config1 = Some b)
    /\ (forall b,
          use_device_jacobian_product config_parameter_shift = Some b ->
          use_device_jacobian_product config1 = Some b)
    /\ (forall b, grad_on_execution config_parameter_shift = Some b ->
                  grad_on_execution config1 = Some b)
    /\ preprocess null_qubit h1 r1 = Some (h2, r2)
    /\ r2 <> r1
    /\ deref h2 r2 = Some config1.
Proof.
  apply (preprocess_idempotent null_qubit
           [config_best; config_parameter_shift] 1 config_parameter_shift).
  reflexivity.
Defined.

End Capabilities.

(* ================================================================== *)
(** ** [eval_jaxpr] *)

Section Jaxpr.


End Jaxpr.

(* ================================================================== *)
(** ** [preprocess]: patching the stopping conditions

    The first component of what [preprocess] returns is the transform
    program of [DefaultQubit.preprocess_transforms], built outside this
    module, in which the loop of [preprocess] replaces the stopping
    conditions of every decomposition transform.  The two functions the
    loop defines read the variables [original_stopping_condition] and
    [original_shots_stopping_condition] of [preprocess] when they are
    called, after the loop: the variables are cells shared by all the
    functions defined in the loop. *)

Section Program.

(** [op.has_decomposition] belongs to the operator classes. *)
Variable has_decomposition : Operator -> bool.

Lemma patch_program_cells program : forall cells cells' ts,
  patch_program cells program = Some (cells', ts) ->
  cells'
  = match fold_left (fun acc t => if is_decompose t then Some t else acc)
            program None with
    | Some d =>
        {| original_stopping_condition := stopping_condition d;
           original_shots_stopping_condition :=
             stopping_condition_shots d |}
    | None => cells
    end
  /\ Forall2 (fun t t' =>
                p_is_decompose t' = is_decompose t
                /\ (is_decompose t = true ->
                    p_stopping_condition t' = new_stopping_condition
                    /\ stopping_condition t <> None
                    /\ p_stopping_condition_shots t'
                       = match stopping_condition_shots t with
                         | Some _ => new_shots_stopping_condition
                         | None => Original None
                         end)
                /\ (is_decompose t = false ->
                    p_stopping_condition t'
                    = Original (stopping_condition t)
                    /\ p_stopping_condition_shots t'
                       = Original (stopping_condition_shots t)))
       program ts.
Proof.
  assert (Hfold : forall l (d : Transform),
             fold_left (fun acc t => if is_decompose t then Some t else acc)
               l (Some d) <> None).
  { induction l as [| t l IH]; intro d; simpl; [discriminate |].
    destruct (is_decompose t); apply IH. }
  induction program as [| t rest IH]; intros cells cells' ts H; simpl in *.
  - injection H as <- <-. split; [reflexivity | constructor].
  - unfold patch_step in H.
    destruct (is_decompose t) eqn:Ed.
    + destruct (stopping_condition t) as [c |] eqn:Ec; [| discriminate].
      destruct (patch_program _ rest) as [[cells'' rest'] |] eqn:Er;
        [| discriminate].
      injection H as <- <-.
      destruct (IH _ _ _ Er) as [Hcells Hall]. split.
      * rewrite Hcells.
        destruct (fold_left _ rest None) as [d |] eqn:Ef.
        -- assert (Hmono : forall l (b : option Transform),
                      fold_left (fun acc t =>
                                   if is_decompose t then Some t else acc)
                        l None = Some d ->
                      fold_left (fun acc t =>
                                   if is_decompose t then Some t else acc)
                        l b = Some d).
           { induction l as [| x l IHl]; intros b Hl; simpl in *;
               [discriminate |].
             destruct (is_decompose x); [exact Hl | now apply IHl]. }
           now rewrite (Hmono rest (Some t) Ef).
        -- assert (Hnone : forall l (b : option Transform),
                      fold_left (fun acc t =>
                                   if is_decompose t then Some t else acc)
                        l None = None ->
                      fold_left (fun acc t =>
                                   if is_decompose t then Some t else acc)
                        l b = b).
           { induction l as [| x l IHl]; intros b Hl; simpl in *;
               [reflexivity |].
             destruct (is_decompose x);
               [now apply Hfold in Hl | now apply IHl]. }
           rewrite (Hnone rest (Some t) Ef). now rewrite Ec.
      * constructor; [| exact Hall]. cbn. rewrite Ed, Ec.
        split; [reflexivity | split]; [| discriminate].
        intros _. split; [reflexivity | split; [discriminate | reflexivity]].
    + destruct (patch_program cells rest) as [[cells'' rest'] |] eqn:Er;
        [| discriminate].
      injection H as <- <-.
      destruct (IH _ _ _ Er) as [Hcells Hall]. split; [exact Hcells |].
      constructor; [| exact Hall]. cbn. rewrite Ed.
      split; [reflexivity | split]; [discriminate |].
      intros _. split; reflexivity.
Qed.

(** X21: when the loop of [preprocess] goes through, the program keeps
    its length and its other transforms keep their keyword arguments; the
    new stopping condition of every decomposition transform accepts every
    operator without decomposition and otherwise answers what the original
    stopping condition of the last decomposition transform of the program
    answers (its own when the program has one such transform only); and a
    condition for shots is replaced only where there was one. *)
Theorem patched_stopping_conditions :
  forall (program : list Transform) (cells : Cells)
         (ts : list PatchedTransform) (d : Transform),
    patch_program unbound program = Some (cells, ts) ->
    last_decompose program = Some d ->
    Forall2 (fun t t' =>
               if is_decompose t
               then (forall op,
                        call has_decomposition cells (p_stopping_condition t') op
                        = if negb (has_decomposition op) then Some true
                          else call has_decomposition cells (Original (stopping_condition d))
                                 op)
                    /\ (stopping_condition_shots t = None ->
                        p_stopping_condition_shots t' = Original None)
                    /\ (stopping_condition_shots t <> None ->
                        forall op,
                          has_decomposition op = false ->
                          call has_decomposition cells (p_stopping_condition_shots t') op
                          = Some true)
               else p_stopping_condition t'
                    = Original (stopping_condition t)
                    /\ p_stopping_condition_shots t'
                       = Original (stopping_condition_shots t))
      program ts.
Proof.
  intros program cells ts d Hpatch Hlast.
  destruct (patch_program_cells program unbound cells ts Hpatch)
    as [Hcells Hall].
  unfold last_decompose in Hlast. rewrite Hlast in Hcells.
  clear Hpatch Hlast.
  induction Hall as [| t t' l l' (Hd & Ht & Hf) _ IH]; constructor;
    [| exact IH].
  destruct (is_decompose t) eqn:Ed.
  - destruct (Ht eq_refl) as (Hsc & _ & Hshots).
    split; [| split].
    + intro op. rewrite Hsc, Hcells. reflexivity.
    + intro Hnone. now rewrite Hshots, Hnone.
    + intros Hsome op Hop. rewrite Hshots.
      destruct (stopping_condition_shots t); [| now elim Hsome].
      cbn. now rewrite Hop.
  - now apply Hf.
Qed.

End Program.

Lemma patched_stopping_conditions_witness :
  Forall2 (fun t t' =>
             if is_decompose t
             then (forall op,
                      call decomposes example_cells
                        (p_stopping_condition t') op
                      = if negb (decomposes op) then Some true
                        else call decomposes example_cells
                               (Original (Some accept_composites)) op)
                  /\ (stopping_condition_shots t = None ->
                      p_stopping_condition_shots t' = Original None)
                  /\ (stopping_condition_shots t <> None ->
                      forall op,
                        decomposes op = false ->
                        call decomposes example_cells
                          (p_stopping_condition_shots t') op
                        = Some true)
             else p_stopping_condition t' = Original (stopping_condition t)
                  /\ p_stopping_condition_shots t'
                     = Original (stopping_condition_shots t))
    example_program example_patched.
Proof.
  apply (patched_stopping_conditions decomposes example_program
           example_cells example_patched
           {| is_decompose := true;
              stopping_condition := Some accept_composites;
              stopping_condition_shots := Some accept_none |}).
  - reflexivity.
  - reflexivity.
Defined.

Lemma counts_without_observable_witness :
  let others := map (fun x => Bitstring (format_0b x 2)) (seq 1 (2 ^ 2 - 1))
  in
  zero_measurement (counts_all true) 2 (ArgInt 100) None "numpy" world0
  = (inr (RCounts
            ((Bitstring (str_mul "0" 2),
              math_asarray_obj (ArgInt 100) "numpy")
               :: map (fun k => (k, math_asarray_obj (ArgInt 0) "numpy"))
                    others)), world0)
  /\ NoDup (Bitstring (str_mul "0" 2) :: others)
  /\ (forall x, 0 < x < 2 ^ 2 -> String.length (format_0b x 2) = 2)
  /\ String.length (str_mul "0" 2) = 2.
Proof.
  apply (counts_without_observable (counts_all true) true 2 (ArgInt 100)
           "numpy" world0).
  - reflexivity.
  - reflexivity.
  - reflexivity.
Defined.

(* ================================================================== *)
(** * Properties of the k-UpCCGSD template *)

Import KUpCCGSD.

Section TemplateCounting.

Lemma flat_map_filter_length {A B : Type} (c : A -> bool) (g : A -> B)
    (l : list A) :
  length (flat_map (fun x => if c x then [g x] else []) l)
  = length (filter c l).
Proof.
  induction l as [| x t IH]; simpl; [reflexivity |].
  destruct (c x); simpl; now rewrite IH.
Qed.

Lemma filter_list_prod_length (P : nat -> nat -> bool) (l l' : list nat) :
  length (filter (fun rp => P (fst rp) (snd rp)) (list_prod l l'))
  = list_sum (map (fun r => length (filter (P r) l')) l).
Proof.
  induction l as [| r t IH]; simpl; [reflexivity |].
  rewrite filter_app, length_app, IH. f_equal.
  clear. induction l' as [| p t' IH]; simpl; [reflexivity |].
  destruct (P r p); simpl; now rewrite IH.
Qed.

Lemma filter_remove_one (l : list nat) (a : nat) :
  NoDup l -> In a l ->
  length (filter (fun b => negb (b =? a)%nat) l) = length l - 1.
Proof.
  intros Hnd. induction Hnd as [| x t Hx Hnd IH]; simpl; [tauto |].
  intros [-> | Hin].
  - rewrite Nat.eqb_refl. simpl. rewrite Nat.sub_0_r.
    clear IH Hnd. induction t as [| y t IH]; simpl; [reflexivity |].
    destruct (y =? a)%nat eqn:E.
    + apply Nat.eqb_eq in E. subst y. exfalso. apply Hx. now left.
    + simpl. f_equal. apply IH. intro H. apply Hx. now right.
  - destruct (x =? a)%nat eqn:E.
    + apply Nat.eqb_eq in E. subst x. contradiction.
    + simpl. rewrite (IH Hin). destruct t; [destruct Hin | simpl; lia].
Qed.

Lemma list_sum_const {A : Type} (l : list A) (f : A -> nat) (c : nat) :
  (forall x, In x l -> f x = c) -> list_sum (map f l) = length l * c.
Proof.
  induction l as [| x t IH]; intro H; simpl; [reflexivity |].
  rewrite H by now left. rewrite IH; [lia |].
  intros y Hy. apply H. now right.
Qed.

Lemma range_by_2_spec stop :
  length (range_by_2 stop) = (stop + 1) / 2
  /\ NoDup (range_by_2 stop)
  /\ (forall r, In r (range_by_2 stop) -> r < stop).
Proof.
  unfold range_by_2. split; [| split].
  - now rewrite length_map, length_seq.
  - apply Finite.Injective_map_NoDup; [| apply seq_NoDup].
    intros a b H. lia.
  - intros r Hr. apply in_map_iff in Hr. destruct Hr as (i & <- & Hi).
    apply in_seq in Hi.
    pose proof (Nat.div_mod_eq (stop + 1) 2) as Hd.
    pose proof (Nat.mod_upper_bound (stop + 1) 2). lia.
Qed.

Lemma slice_length wires a b :
  b <= length wires -> length (slice wires a b) = b - a.
Proof.
  intro H. unfold slice. rewrite length_firstn, length_skipn. lia.
Qed.

(** X23: for [n] wires there are [(n/2) * (n/2 - 1)] pair doubles, and each
    consists of two slices of two wires. *)
Theorem pair_doubles_count :
  forall wires : list Wire,
    length (generalized_pair_doubles wires)
    = (length wires / 2) * (length wires / 2 - 1)
    /\ Forall (fun d => length (fst d) = 2 /\ length (snd d) = 2)
         (generalized_pair_doubles wires).
Proof.
  intro wires. unfold generalized_pair_doubles, product2.
  destruct (range_by_2_spec (length wires - 1)) as (Hlen & Hnd & Hlt).
  set (idx := range_by_2 (length wires - 1)) in *.
  split.
  - rewrite (flat_map_ext _ (fun rp =>
               if negb (snd rp =? fst rp)%nat
               then [(slice wires (fst rp) (fst rp + 2),
                      slice wires (snd rp) (snd rp + 2))]
               else [])) by (intros [r q]; reflexivity).
    rewrite (flat_map_filter_length
               (fun rp => negb (snd rp =? fst rp)%nat)).
    rewrite (filter_list_prod_length (fun r q => negb (q =? r)%nat)).
    rewrite (list_sum_const _ _ (length idx - 1)).
    + rewrite Hlen.
      assert (E : (length wires - 1 + 1) / 2 = length wires / 2).
      { destruct (length wires) as [| n]; [reflexivity |].
        f_equal. lia. }
      now rewrite E.
    + intros r Hr. now apply filter_remove_one.
  - apply Forall_forall. intros d Hd. apply in_flat_map in Hd.
    destruct Hd as ([r q] & Hin & Hd).
    apply in_prod_iff in Hin. destruct Hin as [Hr Hq].
    apply Hlt in Hr. apply Hlt in Hq.
    destruct (negb (q =? r)%nat); [| destruct Hd].
    destruct Hd as [<- | []]. simpl.
    rewrite !slice_length by lia. lia.
Qed.

Lemma flat_map_indicator_length {A B : Type} (c : A -> bool)
    (F : A -> list B) (l : list A) :
  (forall x, length (F x) = if c x then 1 else 0) ->
  length (flat_map F l) = length (filter c l).
Proof.
  intro H. induction l as [| x t IH]; simpl; [reflexivity |].
  rewrite length_app, H, IH. now destruct (c x).
Qed.

Lemma singles_length wires delta_sz :
  length (generalized_singles wires delta_sz)
  = list_sum (map (fun r => length (filter (selected delta_sz r)
                                      (range (length wires))))
                (range (length wires))).
Proof.
  unfold generalized_singles, product2.
  rewrite <- (filter_list_prod_length (selected delta_sz)).
  apply flat_map_indicator_length. intros [r q]. unfold selected.
  cbn [fst snd].
  destruct ((sz2 q - sz2 r =? 2 * delta_sz)%Z && negb (q =? r)%nat)%bool;
    [| reflexivity].
  now destruct (r <? q)%nat.
Qed.

Lemma seq_double m : seq 0 (2 * S m) = seq 0 (2 * m) ++ [2 * m; 2 * m + 1].
Proof.
  replace (2 * S m) with (2 * m + 2) by lia.
  rewrite seq_app. simpl. now rewrite Nat.add_1_r.
Qed.

Lemma even_count m :
  length (filter Nat.even (seq 0 (2 * m))) = m
  /\ length (filter Nat.odd (seq 0 (2 * m))) = m.
Proof.
  induction m as [| m [IHe IHo]]; [split; reflexivity |].
  rewrite seq_double, !filter_app, !length_app, IHe, IHo.
  cbn [filter].
  replace (2 * m + 1) with (S (2 * m)) by lia.
  rewrite Nat.even_succ, Nat.odd_succ, Nat.even_mul, Nat.odd_mul.
  simpl. lia.
Qed.

Lemma sz2_diff r p :
  (sz2 p - sz2 r)%Z
  = if Bool.eqb (Nat.even p) (Nat.even r) then 0%Z
    else if Nat.even p then 2%Z else (-2)%Z.
Proof. unfold sz2. now destruct (Nat.even p), (Nat.even r). Qed.

Lemma filter_length_ext {A : Type} (f g : A -> bool) (l : list A) :
  (forall x, In x l -> f x = g x) ->
  length (filter f l) = length (filter g l).
Proof. intro H. now rewrite (filter_ext_in f g l H). Qed.

Lemma filter_false_length {A : Type} (l : list A) :
  length (filter (fun _ => false) l) = 0.
Proof. induction l; simpl; auto. Qed.

Lemma selected_same_parity m r :
  r < 2 * m ->
  length (filter (selected 0 r) (seq 0 (2 * m))) = m - 1.
Proof.
  intro Hr.
  rewrite (filter_length_ext _
             (fun p => (Bool.eqb (Nat.even p) (Nat.even r)
                        && negb (p =? r)%nat)%bool)).
  - rewrite <- (filter_filter (fun p => negb (p =? r)%nat)
                  (fun p => Bool.eqb (Nat.even p) (Nat.even r))).
    rewrite filter_remove_one.
    + destruct (even_count m) as [He Ho].
      destruct (Nat.even r) eqn:E.
      * rewrite (filter_length_ext _ Nat.even); [now rewrite He |].
        intros p _. now destruct (Nat.even p).
      * rewrite (filter_length_ext _ Nat.odd); [now rewrite Ho |].
        intros p _. rewrite <- Nat.negb_even. now destruct (Nat.even p).
    + apply NoDup_filter, seq_NoDup.
    + apply filter_In. split; [apply in_seq; lia |].
      now destruct (Nat.even r).
  - intros p _. unfold selected. rewrite sz2_diff.
    now destruct (Nat.even p), (Nat.even r).
Qed.

Lemma selected_opposite_parity m r (up : bool) :
  length (filter (selected (if up then 1 else (-1)) r) (seq 0 (2 * m)))
  = if Bool.eqb (Nat.even r) up then 0 else m.
Proof.
  destruct (even_count m) as [He Ho].
  rewrite (filter_length_ext _
             (fun p => (negb (Bool.eqb (Nat.even r) up)
                        && Bool.eqb (Nat.even p) up)%bool)).
  - destruct (Bool.eqb (Nat.even r) up); simpl.
    + apply filter_false_length.
    + destruct up.
      * rewrite (filter_length_ext _ Nat.even); [exact He |].
        intros p _. now destruct (Nat.even p).
      * rewrite (filter_length_ext _ Nat.odd); [exact Ho |].
        intros p _. rewrite <- Nat.negb_even. now destruct (Nat.even p).
  - intros p _. unfold selected. rewrite sz2_diff.
    destruct (p =? r)%nat eqn:E.
    + apply Nat.eqb_eq in E. subst p.
      now destruct (Nat.even r), up.
    + now destruct (Nat.even p), (Nat.even r), up.
Qed.

Lemma list_sum_indicator (c : nat -> bool) (m : nat) (l : list nat) :
  list_sum (map (fun r => if c r then 0 else m) l)
  = m * length (filter (fun r => negb (c r)) l).
Proof.
  induction l as [| x t IH]; simpl; [lia |].
  destruct (c x); simpl; rewrite IH; lia.
Qed.

(** X24: on an even number [2m] of wires the generalized single
    excitations number [2m(m-1)] for [delta_sz = 0] and [m * m] for
    [delta_sz = 1] and for [delta_sz = -1]; for any other [delta_sz] there
    is none. *)
Theorem singles_count :
  forall (wires : list Wire) (m : nat) (delta_sz : Z),
    length wires = 2 * m ->
    length (generalized_singles wires delta_sz)
    = if (delta_sz =? 0)%Z then 2 * m * (m - 1)
      else if ((delta_sz =? 1)%Z || (delta_sz =? -1)%Z)%bool then m * m
      else 0.
Proof.
  intros wires m delta_sz Hlen.
  rewrite singles_length, Hlen. unfold range.
  destruct (delta_sz =? 0)%Z eqn:E0.
  - apply Z.eqb_eq in E0. subst delta_sz.
    rewrite (list_sum_const _ _ (m - 1)).
    + now rewrite length_seq.
    + intros r Hr. apply in_seq in Hr. apply selected_same_parity. lia.
  - destruct (delta_sz =? 1)%Z eqn:E1; [| destruct (delta_sz =? -1)%Z eqn:E2];
      cbn [orb].
    + apply Z.eqb_eq in E1. subst delta_sz.
      rewrite (map_ext _ (fun r => if Bool.eqb (Nat.even r) true
                                   then 0 else m))
        by (intro r; apply (selected_opposite_parity m r true)).
      rewrite list_sum_indicator. f_equal.
      destruct (even_count m) as [_ Ho].
      rewrite (filter_length_ext _ Nat.odd); [exact Ho |].
      intros r _. rewrite <- Nat.negb_even. now destruct (Nat.even r).
    + apply Z.eqb_eq in E2. subst delta_sz.
      rewrite (map_ext _ (fun r => if Bool.eqb (Nat.even r) false
                                   then 0 else m))
        by (intro r; apply (selected_opposite_parity m r false)).
      rewrite list_sum_indicator. f_equal.
      destruct (even_count m) as [He _].
      rewrite (filter_length_ext _ Nat.even); [exact He |].
      intros r _. now destruct (Nat.even r).
    + rewrite (list_sum_const _ _ 0); [lia |].
      intros r _.
      rewrite (filter_length_ext _ (fun _ => false)).
      * apply filter_false_length.
      * intros p _. unfold selected. rewrite sz2_diff.
        apply Z.eqb_neq in E0, E1, E2.
        assert (Hd : forall z,
                   (z = 0 \/ z = 2 \/ z = -2)%Z ->
                   (z =? 2 * delta_sz)%Z = false).
        { intros z Hz. apply Z.eqb_neq. lia. }
        destruct (Bool.eqb (Nat.even p) (Nat.even r)), (Nat.even p);
          rewrite Hd by lia; reflexivity.
Qed.

Lemma singles_count_witness :
  length (generalized_singles [WInt 0; WInt 1; WInt 2; WInt 3; WInt 4;
                               WInt 5] 1)
  = 3 * 3.
Proof.
  apply (singles_count [WInt 0; WInt 1; WInt 2; WInt 3; WInt 4; WInt 5] 3
           1).
  reflexivity.
Defined.

Lemma doubles_length_2m (wires : list Wire) m :
  length wires = 2 * m ->
  length (generalized_pair_doubles wires) = m * (m - 1).
Proof.
  intro H. destruct (pair_doubles_count wires) as [Hc _].
  rewrite Hc, H. replace (2 * m) with (m * 2) by lia.
  now rewrite Nat.div_mul.
Qed.

Lemma even_half n : n mod 2 = 0 -> n = 2 * (n / 2).
Proof. intro H. pose proof (Nat.div_mod_eq n 2). lia. Qed.

(** X25: [kUpCCGSD.shape] raises for fewer than four wires and for an odd
    number of wires, and for no other reason: it checks neither [k] nor
    [delta_sz].  For [2m >= 4] wires it returns [(k, c)] where [c] is
    [3m(m-1)] for [delta_sz = 0], [m(2m-1)] for [delta_sz = 1] and for
    [delta_sz = -1], and [m(m-1)] for any other [delta_sz]. *)
Theorem shape_closed_form :
  forall (k : Z) (n_wires : nat) (delta_sz : Z),
    shape k n_wires delta_sz
    = if (n_wires <? 4)%nat then inl (TooFewWires n_wires)
      else if negb (n_wires mod 2 =? 0)%nat then inl (OddWires n_wires)
      else inr (k, weights_per_layer (n_wires / 2) delta_sz).
Proof.
  intros k n_wires delta_sz. unfold shape.
  destruct (n_wires <? 4)%nat; [reflexivity |].
  destruct (n_wires mod 2 =? 0)%nat eqn:E; [| reflexivity].
  apply Nat.eqb_eq in E. cbn [negb]. f_equal. f_equal.
  assert (Hlen : length (map (fun i => WInt (Z.of_nat i)) (range n_wires))
                 = 2 * (n_wires / 2)).
  { unfold range. rewrite length_map, length_seq. now apply even_half. }
  unfold weights_per_layer.
  now rewrite (singles_count _ _ delta_sz Hlen),
    (doubles_length_2m _ _ Hlen).
Qed.

Lemma wire_eqb_eq a b : wire_eqb a b = true <-> a = b.
Proof.
  destruct a as [x | s], b as [y | t]; simpl;
    try (split; discriminate).
  - rewrite Z.eqb_eq. split; congruence.
  - rewrite String.eqb_eq. split; congruence.
Qed.

Lemma unique_NoDup wires : unique wires = true <-> NoDup wires.
Proof.
  induction wires as [| w t IH]; simpl.
  - split; [constructor | reflexivity].
  - rewrite andb_true_iff, negb_true_iff, IH. split.
    + intros [Hw Ht]. constructor; [| exact Ht].
      intro Hin. assert (E : existsb (wire_eqb w) t = true).
      { apply existsb_exists. exists w. split; [exact Hin |].
        now apply wire_eqb_eq. }
      congruence.
    + intro H. inversion H as [| ? ? Hw Ht]. subst. split; [| exact Ht].
      destruct (existsb (wire_eqb w) t) eqn:E; [| reflexivity].
      apply existsb_exists in E. destruct E as (x & Hx & Heq).
      apply wire_eqb_eq in Heq. subst x. contradiction.
Qed.

(** X26: [kUpCCGSD.__init__] accepts a weights tensor of the shape that
    [kUpCCGSD.shape] returns for the number of its wires, whatever the
    labels of the wires provided none occurs twice, as soon as [k >= 1],
    [delta_sz] is -1, 0 or 1 and the initial state holds integers; with a
    label that occurs twice the same arguments pass every check of
    [__init__] and are refused by the constructor of the operator, with a
    [WireError]; and any other shape of the weights is rejected. *)
Theorem init_accepts_shape :
  forall (wires : list Wire) (k : Z) (delta_sz : Z) (sh : Z * nat),
    shape k (length wires) delta_sz = inr sh ->
    (1 <= k)%Z ->
    delta_sz = (-1)%Z \/ delta_sz = 0%Z \/ delta_sz = 1%Z ->
    (NoDup wires ->
     init sh wires k delta_sz true
     = inr (generalized_singles wires delta_sz,
            generalized_pair_doubles wires))
    /\ (~ NoDup wires -> init sh wires k delta_sz true = inl WireError)
    /\ (forall other, other <> sh ->
                      exists expected,
                        init other wires k delta_sz true
                        = inl (BadShape expected other)).
Proof.
  intros wires k delta_sz sh Hshape Hk Hdelta.
  rewrite shape_closed_form in Hshape. unfold init.
  destruct (length wires <? 4)%nat; [discriminate |].
  destruct (length wires mod 2 =? 0)%nat eqn:E; [| discriminate].
  cbn [negb] in *. injection Hshape as <-.
  apply Nat.eqb_eq in E. apply even_half in E.
  replace (k <? 1)%Z with false by (symmetry; apply Z.ltb_ge; lia).
  replace (existsb (Z.eqb delta_sz) [(-1)%Z; 0%Z; 1%Z]) with true
    by (destruct Hdelta as [-> | [-> | ->]]; reflexivity).
  cbn [negb fst snd].
  rewrite (singles_count _ _ delta_sz E), (doubles_length_2m _ _ E).
  fold (weights_per_layer (length wires / 2) delta_sz).
  rewrite Z.eqb_refl, Nat.eqb_refl. cbn [andb negb].
  split; [| split].
  - intro Hnd. apply unique_NoDup in Hnd. now rewrite Hnd.
  - intro Hdup. destruct (unique wires) eqn:Eu; [| reflexivity].
    apply unique_NoDup in Eu. contradiction.
  - intros [k' c'] Hneq. eexists. cbn [fst snd].
    destruct ((k' =? k)%Z
              && (c' =? weights_per_layer (length wires / 2) delta_sz)%nat)%bool
      eqn:Eeq; [| reflexivity].
    apply andb_prop in Eeq. destruct Eeq as [Ek Ec].
    apply Z.eqb_eq in Ek. apply Nat.eqb_eq in Ec. subst. now elim Hneq.
Qed.

Lemma init_accepts_shape_witness :
  (NoDup [WStr "a"; WStr "b"; WStr "c"; WStr "d"] ->
   init (2%Z, 6) [WStr "a"; WStr "b"; WStr "c"; WStr "d"] 2 0 true
   = inr (generalized_singles [WStr "a"; WStr "b"; WStr "c"; WStr "d"] 0,
          generalized_pair_doubles
            [WStr "a"; WStr "b"; WStr "c"; WStr "d"]))
  /\ (~ NoDup [WStr "a"; WStr "b"; WStr "c"; WStr "d"] ->
      init (2%Z, 6) [WStr "a"; WStr "b"; WStr "c"; WStr "d"] 2 0 true
      = inl WireError)
  /\ (forall other, other <> (2%Z, 6) ->
                    exists expected,
                      init other [WStr "a"; WStr "b"; WStr "c"; WStr "d"] 2
                        0 true
                      = inl (BadShape expected other)).
Proof.
  apply (init_accepts_shape [WStr "a"; WStr "b"; WStr "c"; WStr "d"] 2 0
           (2%Z, 6)).
  - reflexivity.
  - lia.
  - right. left. reflexivity.
Defined.

Lemma enumerate_map {A B : Type} (f : nat -> B) (l : list A) :
  map (fun iw => f (fst iw)) (enumerate l) = map f (seq 0 (length l)).
Proof.
  unfold enumerate. generalize 0.
  induction l as [| x t IH]; intro start; simpl; [reflexivity |].
  now rewrite IH.
Qed.

Lemma seq_from a len : seq a len = map (fun i => a + i) (seq 0 len).
Proof.
  revert a. induction len as [| len IH]; intro a; simpl; [reflexivity |].
  rewrite Nat.add_0_r. f_equal.
  rewrite (IH (S a)), <- seq_shift, map_map.
  apply map_ext. intro i. lia.
Qed.

Lemma positions_map_double layer (f : nat -> nat)
    (l : list (nat * (list Wire * list Wire))) :
  positions (map (fun iw => FermionicDoubleExcitation layer (f (fst iw))
                              (fst (snd iw)) (snd (snd iw))) l)
  = map (fun iw => (layer, f (fst iw))) l.
Proof. induction l as [| x t IH]; simpl; [reflexivity | now rewrite IH]. Qed.

Lemma positions_map_single layer (l : list (nat * list Wire)) :
  positions (map (fun jw => FermionicSingleExcitation layer (fst jw)
                              (snd jw)) l)
  = map (fun jw => (layer, fst jw)) l.
Proof. induction l as [| x t IH]; simpl; [reflexivity | now rewrite IH]. Qed.

Lemma positions_app a b : positions (a ++ b) = positions a ++ positions b.
Proof. unfold positions. apply flat_map_app. Qed.

(** X27: the decomposition consists of the basis embedding followed, layer
    by layer, by the double excitations and then the single excitations,
    [1 + k (|d_wires| + |s_wires|)] operators in all; together they read
    every entry of a weights tensor of shape
    [(k, |s_wires| + |d_wires|)] exactly once, and no other position. *)
Theorem decomposition_reads_each_weight_once :
  forall (wires : list Wire) (s_wires : list (list Wire))
         (d_wires : list (list Wire * list Wire)) (k : nat),
    length (compute_decomposition wires s_wires d_wires k)
    = 1 + k * (length d_wires + length s_wires)
    /\ Permutation
         (positions (compute_decomposition wires s_wires d_wires k))
         (list_prod (range k)
            (range (length s_wires + length d_wires))).
Proof.
  intros wires s_wires d_wires k. unfold compute_decomposition, range.
  set (layer_ops := fun layer : nat =>
         map (fun iw => FermionicDoubleExcitation layer
                          (length s_wires + fst iw)
                          (fst (snd iw)) (snd (snd iw)))
             (enumerate d_wires)
         ++ map (fun jw => FermionicSingleExcitation layer (fst jw)
                             (snd jw))
              (enumerate s_wires)).
  assert (Hlayer_length : forall layer,
             length (layer_ops layer) = length d_wires + length s_wires).
  { intro layer. unfold layer_ops, enumerate.
    now rewrite length_app, !length_map, !length_combine, !length_seq,
      !Nat.min_id. }
  assert (Hlayer_positions : forall layer,
             Permutation (positions (layer_ops layer))
               (map (fun i => (layer, i))
                    (seq 0 (length s_wires + length d_wires)))).
  { intro layer. unfold layer_ops.
    rewrite positions_app,
      (positions_map_double layer (fun i => length s_wires + i)),
      positions_map_single.
    rewrite (enumerate_map (fun i => (layer, length s_wires + i))),
      (enumerate_map (fun j => (layer, j))).
    rewrite seq_app, map_app, (seq_from (0 + length s_wires)).
    rewrite !map_map. apply Permutation_app_comm. }
  split.
  - cbn [length].
    assert (H : forall start,
               length (flat_map layer_ops (seq start k))
               = k * (length d_wires + length s_wires)).
    { induction k as [| k IH]; intro start; simpl; [reflexivity |].
      now rewrite length_app, Hlayer_length, IH. }
    now rewrite H.
  - change (positions (BasisEmbedding wires
                         :: flat_map layer_ops (seq 0 k)))
      with (positions (flat_map layer_ops (seq 0 k))).
    assert (H : forall start,
               Permutation (positions (flat_map layer_ops (seq start k)))
                 (list_prod (seq start k)
                    (seq 0 (length s_wires + length d_wires)))).
    { induction k as [| k IH]; intro start; simpl; [constructor |].
      rewrite positions_app.
      apply Permutation_app; [apply Hlayer_positions | apply IH]. }
    apply H.
Qed.

End TemplateCounting.
